(** * Verification of the resquared-automation DOM snapshot builder and
      action executor.

    The development embeds these parts of the repository:
    - [Dom]:  [buildAdvancedDomSnapshot] (advancedDomSnapshot.js),
    - [Url]:  the two [ensureUrlProtocol] helpers (the server index.js and
              grok.js),
    - [Exec]: [executeAction] and the [/run-campaign] handler (index.js),
    - [Assistant]: [normalizeAssistantAction] and [guessSelector] (index.js),
    - [Recording]: [parseRecording] (recordingParser.js),
    - [GrokExec]:  [executeAction], [clickResquaredSearch] and
                   [clickEmailCheckbox] (grok.js),
    and proves their properties in [DomFacts], [UrlFacts], [ExecFacts],
    [AssistantFacts], [RecordingFacts] and [GrokFacts].

    JavaScript strings are modelled as [string], holding their UTF-8
    encoding (on well-formed strings equality, [startsWith], [includes]
    and concatenation are then those of the bytes); counters (JS numbers that
    only ever hold small non-negative integers here) as [nat]; objects used
    as maps as [gmap string _]; the live page as an oracle that answers each
    browser call.  Console output is modelled only where it is the whole
    effect of a branch (the highlighting of the snapshot builder). *)

From Stdlib Require Import ZArith Ascii String List Lia.
From stdpp Require Import base option list gmap strings pretty.

Open Scope string_scope.
Set Warnings "-register-all".

(** ** JavaScript string helpers shared by all modules *)
Module Js.

(** [String.prototype.toLowerCase] for strings whose letters are ASCII, as
    the tag names of HTML elements are: the bytes of other characters are
    left as they are. *)
Definition lower_ascii (c : ascii) : ascii :=
  let n := nat_of_ascii c in
  if (65 <=? n)%nat && (n <=? 90)%nat then ascii_of_nat (n + 32) else c.

Fixpoint toLowerCase (s : string) : string :=
  match s with
  | EmptyString => EmptyString
  | String c s' => String (lower_ascii c) (toLowerCase s')
  end.

(** White space and line terminators, as [trim], [parseInt] and the regular
    expression class [\s] know them.  Strings are held in UTF-8, so a
    character takes one to three bytes here. *)

(** A white space character or line terminator of one byte: TAB, LF, VT,
    FF, CR, SPACE. *)
Definition isWhiteSpace (c : ascii) : bool :=
  let n := nat_of_ascii c in
  ((9 <=? n)%nat && (n <=? 13)%nat) || (n =? 32)%nat.

(** The two bytes of U+00A0 (no-break space). *)
Definition isWhiteSpace2 (c1 c2 : ascii) : bool :=
  (nat_of_ascii c1 =? 194)%nat && (nat_of_ascii c2 =? 160)%nat.

(** The three bytes of U+1680, U+2000 to U+200A, U+2028, U+2029, U+202F,
    U+205F, U+3000 or U+FEFF. *)
Definition isWhiteSpace3 (c1 c2 c3 : ascii) : bool :=
  let n1 := nat_of_ascii c1 in
  let n2 := nat_of_ascii c2 in
  let n3 := nat_of_ascii c3 in
  ((n1 =? 225) && (n2 =? 154) && (n3 =? 128))%nat
  || ((n1 =? 226) && (n2 =? 128)
      && (((128 <=? n3) && (n3 <=? 138)) || (n3 =? 168) || (n3 =? 169)
          || (n3 =? 175)))%nat
  || ((n1 =? 226) && (n2 =? 129) && (n3 =? 159))%nat
  || ((n1 =? 227) && (n2 =? 128) && (n3 =? 128))%nat
  || ((n1 =? 239) && (n2 =? 187) && (n3 =? 191))%nat.

(** The number of bytes of the white space character or line terminator
    that [s] starts with; 0 when it starts with none. *)
Definition whiteSpaceLen (s : string) : nat :=
  match s with
  | String c1 (String c2 (String c3 _)) =>
      if isWhiteSpace c1 then 1
      else if isWhiteSpace2 c1 c2 then 2
      else if isWhiteSpace3 c1 c2 c3 then 3 else 0
  | String c1 (String c2 EmptyString) =>
      if isWhiteSpace c1 then 1 else if isWhiteSpace2 c1 c2 then 2 else 0
  | String c1 EmptyString => if isWhiteSpace c1 then 1 else 0
  | EmptyString => 0
  end.

(** [s] without the white space it starts with; [skip] counts the bytes of
    the current character still to be passed over. *)
Fixpoint dropWhiteSpace (skip : nat) (s : string) : string :=
  match s with
  | EmptyString => EmptyString
  | String _ s' =>
      match skip with
      | S k => dropWhiteSpace k s'
      | 0 =>
          match whiteSpaceLen s with
          | S k => dropWhiteSpace k s'
          | 0 => s
          end
      end
  end.

Definition trimStart (s : string) : string := dropWhiteSpace 0 s.

(** [s] up to the point from which only white space follows. *)
Fixpoint trimEnd (s : string) : string :=
  match s with
  | EmptyString => EmptyString
  | String c s' =>
      match trimStart s with
      | EmptyString => EmptyString
      | _ => String c (trimEnd s')
      end
  end.

Definition trim (s : string) : string := trimEnd (trimStart s).

(** Truthiness of a string value: only the empty string is falsy. *)
Definition truthy (s : string) : bool := negb (s =? EmptyString).

(** Truthiness of a possibly [undefined]/[null] string property. *)
Definition truthy_opt (o : option string) : bool :=
  match o with
  | Some s => truthy s
  | None => false
  end.

(** [String.prototype.startsWith]. *)
Fixpoint startsWith (s p : string) : bool :=
  match p, s with
  | EmptyString, _ => true
  | String a p', String b s' => Ascii.eqb a b && startsWith s' p'
  | String _ _, EmptyString => false
  end.

(** [String.prototype.includes]. *)
Fixpoint includes (s p : string) : bool :=
  startsWith s p ||
  match s with
  | EmptyString => false
  | String _ s' => includes s' p
  end.

End Js.

(** ** The snapshot builder (advancedDomSnapshot.js) *)
Module Dom.
Import Js.

(** *** The live document, as the builder reads it *)

(** [window.getComputedStyle(element)], the three properties consulted. *)
Record Style := {
  visibility : string;
  display : string;
  opacity : string
}.

(** An element, with the properties [buildDomTree] reads.  [el_id] is
    [node.id] (the empty string when the element has none);
    [el_attributes] lists [getAttributeNames()] with the attribute values;
    [el_onclick] is the truthiness of the [onclick] property;
    [offsetWidth]/[offsetHeight] are 0 where the property is undefined
    (the comparison [> 0] is false in both cases). *)
Record Element := {
  el_id : string;
  el_tagName : string;
  el_attributes : list (string * string);
  offsetWidth : Z;
  offsetHeight : Z;
  el_style : Style;
  el_onclick : bool
}.

(** A DOM node: an element with its [childNodes], a text node with its
    [textContent], or a node of any other [nodeType] (comment, ...). *)
Inductive Node :=
| ElementNode (e : Element) (childNodes : list Node)
| TextNode (textContent : string)
| OtherNode.

(** [document.body] is [null] while the page is navigating. *)
Record Document := { body : option Node }.

(** *** The snapshot *)

Record ElementRecord := {
  tagName : string;
  attributes : gmap string string;
  children : list string;
  isVisible : bool;
  isInteractive : option bool;     (* [None]: the property is absent *)
  highlightIndex : option nat      (* [None]: the property is absent *)
}.

Record TextRecord := {
  text : string;
  parentElement : option string
}.

Inductive NodeRecord :=
| ELEMENT (r : ElementRecord)
| TEXT_NODE (t : TextRecord)
| ERROR (error : string).

Record NodeMetrics := {
  totalNodes : nat;
  processedNodes : nat;
  skippedNodes : nat
}.

Record PerfMetrics := { nodeMetrics : NodeMetrics }.

Record Snapshot := {
  rootId : option string;
  snap_map : gmap string NodeRecord;
  perfMetrics : option PerfMetrics
}.

Record Args := {
  doHighlightElements : bool;
  focusHighlightIndex : Z;
  viewportExpansion : Z;
  debugMode : bool
}.

Definition default_args : Args :=
  {| doHighlightElements := false; focusHighlightIndex := (-1)%Z;
     viewportExpansion := 0%Z; debugMode := false |}.

(** *** The closure variables of the builder, threaded as a state *)

Record BuildState := {
  st_highlightIndex : nat;                 (* let highlightIndex *)
  st_ID : nat;                             (* ID.current *)
  st_map : gmap string NodeRecord;         (* DOM_HASH_MAP *)
  st_rootId : option string;               (* let rootId *)
  st_console : list string                 (* console.log output *)
}.

Definition init_state : BuildState :=
  {| st_highlightIndex := 0; st_ID := 0; st_map := ∅;
     st_rootId := None; st_console := [] |}.

Definition Build (A : Type) : Type := BuildState -> A * BuildState.

Definition ret {A} (a : A) : Build A := fun st => (a, st).

Definition bind {A B} (m : Build A) (k : A -> Build B) : Build B :=
  fun st => let (a, st') := m st in k a st'.

Declare Scope build_scope.
Delimit Scope build_scope with build.
Notation "x <- m ;; k" := (bind m (fun x => k))
  (at level 100, m at next level, right associativity) : build_scope.
Notation "m ;;; k" := (bind m (fun _ => k))
  (at level 100, right associativity) : build_scope.
Open Scope build_scope.

(** [ID.current++] *)
Definition next_ID : Build nat := fun st =>
  (st_ID st,
   {| st_highlightIndex := st_highlightIndex st; st_ID := S (st_ID st);
      st_map := st_map st; st_rootId := st_rootId st;
      st_console := st_console st |}).

(** [highlightIndex++] *)
Definition next_highlightIndex : Build nat := fun st =>
  (st_highlightIndex st,
   {| st_highlightIndex := S (st_highlightIndex st); st_ID := st_ID st;
      st_map := st_map st; st_rootId := st_rootId st;
      st_console := st_console st |}).

(** [DOM_HASH_MAP[id] = rec] *)
Definition store (id : string) (rec : NodeRecord) : Build unit := fun st =>
  (tt,
   {| st_highlightIndex := st_highlightIndex st; st_ID := st_ID st;
      st_map := <[id := rec]> (st_map st); st_rootId := st_rootId st;
      st_console := st_console st |}).

(** [rootId = id] *)
Definition set_rootId (id : option string) : Build unit := fun st =>
  (tt,
   {| st_highlightIndex := st_highlightIndex st; st_ID := st_ID st;
      st_map := st_map st; st_rootId := id;
      st_console := st_console st |}).

(** [console.log(line)] *)
Definition console_log (line : string) : Build unit := fun st =>
  (tt,
   {| st_highlightIndex := st_highlightIndex st; st_ID := st_ID st;
      st_map := st_map st; st_rootId := st_rootId st;
      st_console := (st_console st ++ [line])%list |}).

(** The handles [`text_${n}`] and [`element_${n}`]. *)
Definition text_handle (n : nat) : string := "text_" +:+ pretty n.
Definition element_handle (n : nat) : string := "element_" +:+ pretty n.

(** *** The helper functions of the builder *)

(** [element.getAttribute(name)]: [None] is [null]. *)
Fixpoint getAttribute (attrs : list (string * string)) (name : string)
  : option string :=
  match attrs with
  | [] => None
  | (n, v) :: rest => if (n =? name)%string then Some v else getAttribute rest name
  end.

Definition getElementAttributes (element : Element) : gmap string string :=
  fold_left
    (fun attributes name =>
       match getAttribute (el_attributes element) name with
       | Some v => <[name := v]> attributes
       | None => attributes
       end)
    (List.map fst (el_attributes element)) ∅.

Definition isElementVisible (element : Element) : bool :=
  (0 <? offsetWidth element)%Z &&
  (0 <? offsetHeight element)%Z &&
  negb (visibility (el_style element) =? "hidden") &&
  negb (display (el_style element) =? "none") &&
  negb (opacity (el_style element) =? "0").

Definition interactiveElements : list string :=
  ["a"; "button"; "input"; "select"; "textarea"; "details"; "summary"].

Definition has (set : list string) (x : string) : bool :=
  existsb (String.eqb x) set.

Definition isInteractiveElement (element : Element) : bool :=
  let tagName := toLowerCase (el_tagName element) in
  if has interactiveElements tagName then true else
  let role := getAttribute (el_attributes element) "role" in
  if match role with
     | Some r => has ["button"; "link"; "checkbox"; "menuitem"] r
     | None => false
     end then true else
  if el_onclick element ||
     truthy_opt (getAttribute (el_attributes element) "onclick") then true else
  let tabIndex := getAttribute (el_attributes element) "tabindex" in
  match tabIndex with
  | Some t => negb (t =? "-1")
  | None => false
  end.

(** *** [buildDomTree] *)

(** The [for (const child of node.childNodes)] loop; [visit] is the
    recursive call and [acc] is [nodeData.children]. *)
Definition forChildren (visit : Node -> Build (option string))
  : list Node -> list string -> Build (list string) :=
  fix loop (childNodes : list Node) (acc : list string) :=
    match childNodes with
    | [] => ret acc
    | child :: rest =>
        childId <- visit child ;;
        loop rest (match childId with
                   | Some id => (acc ++ [id])%list
                   | None => acc
                   end)
    end.

Section BuildDomTree.

Variable args : Args.

(** [parentTag] is [node.parentElement.tagName.toLowerCase()], known to the
    caller because every visited child is reached through its parent. *)
Fixpoint buildDomTree (parentTag : option string) (node : Node) (depth : nat)
  : Build (option string) :=
  match node with
  | OtherNode => ret None
  | TextNode textContent =>
      if truthy (trim textContent) then
        n <- next_ID ;;
        let id := text_handle n in
        store id (TEXT_NODE {| text := trim textContent;
                               parentElement := parentTag |}) ;;;
        ret (Some id)
      else ret None
  | ElementNode e childNodes =>
      if (el_id e =? "playwright-highlight-container")%string then ret None else
      let tagName := toLowerCase (el_tagName e) in
      if (tagName =? "script")%string || (tagName =? "style")%string
         || (tagName =? "noscript")%string then ret None else
      let visible := isElementVisible e in
      flags <-
        (if visible then
           let interactive := isInteractiveElement e in
           if interactive then
             i <- next_highlightIndex ;;
             (if doHighlightElements args then
                if (focusHighlightIndex args <? 0)%Z
                   || (focusHighlightIndex args =? Z.of_nat i)%Z
                then console_log ("Highlighting element: " +:+ tagName
                                    +:+ "#" +:+ el_id e)
                else ret tt
              else ret tt) ;;;
             ret (Some interactive, Some i)
           else ret (Some interactive, None)
         else ret (None, None)) ;;
      kids <-
        (if (depth <? 20)%nat then
           forChildren (fun child => buildDomTree (Some tagName) child (S depth))
                       childNodes []
         else ret []) ;;
      n <- next_ID ;;
      let id := element_handle n in
      store id (ELEMENT {| tagName := tagName;
                           attributes := getElementAttributes e;
                           children := kids;
                           isVisible := visible;
                           isInteractive := fst flags;
                           highlightIndex := snd flags |}) ;;;
      (if (tagName =? "body")%string then set_rootId (Some id) else ret tt) ;;;
      ret (Some id)
  end.

(** The body of [buildAdvancedDomSnapshot]. *)
Definition buildAdvancedDomSnapshot (document : Document) : Snapshot :=
  let PERF_METRICS :=
    if debugMode args then
      Some {| nodeMetrics := {| totalNodes := 0; processedNodes := 0;
                                skippedNodes := 0 |} |}
    else None in
  let final :=
    match body document with
    | Some b =>
        let (r, st) := buildDomTree None b 0 init_state in
        snd (set_rootId r st)
    | None =>
        snd ((set_rootId (Some "root_0") ;;;
              store "root_0" (ERROR "No document.body available")) init_state)
    end in
  if debugMode args then
    {| rootId := st_rootId final; snap_map := st_map final;
       perfMetrics := PERF_METRICS |}
  else
    {| rootId := st_rootId final; snap_map := st_map final;
       perfMetrics := None |}.

End BuildDomTree.

End Dom.

(** ** URL normalisation *)
Module Url.
Import Js.

Fixpoint drop (n : nat) (s : string) : string :=
  match n, s with
  | 0, _ => s
  | S n', String _ s' => drop n' s'
  | S _, EmptyString => EmptyString
  end.

(** [s.replace(/re/g, ...)] for a pattern that never matches the empty
    string: scan from the left; where [matchAt] finds a match of [len]
    characters put the replacement and resume after the match, elsewhere
    copy one character.  [skip] counts the characters of the current match
    still to be passed over. *)
Fixpoint replaceAll (matchAt : string -> option (nat * string))
    (skip : nat) (s : string) : string :=
  match s with
  | EmptyString => EmptyString
  | String c s' =>
      match skip with
      | S k => replaceAll matchAt k s'
      | 0 =>
          match matchAt s with
          | Some (S len, replacement) =>
              replacement +:+ replaceAll matchAt len s'
          | _ => String c (replaceAll matchAt 0 s')
          end
      end
  end.

(** A match of [https?] followed by [rest] at the start of [s], as the
    number of characters matched (the greedy [s?] first). *)
Definition scheme_then (rest : string) (s : string) : option nat :=
  if startsWith s ("https" +:+ rest) then Some (5 + String.length rest)
  else if startsWith s ("http" +:+ rest) then Some (4 + String.length rest)
  else None.

(** [/https?::\/\//]: a scheme written with a doubled colon. *)
Definition doubleColon (s : string) : option (nat * string) :=
  match scheme_then ":://" s with
  | Some len => Some (len, "https://")
  | None => None
  end.

(** [/https?:\/\/(https?:\/\/)/] with replacement [$1]: a scheme followed
    by a second one; the second is kept. *)
Definition duplicate (s : string) : option (nat * string) :=
  match scheme_then "://" s with
  | Some len1 =>
      match scheme_then "://" (drop len1 s) with
      | Some len2 => Some (len1 + len2, substring len1 len2 s)
      | None => None
      end
  | None => None
  end.

(** [ensureUrlProtocol] of index.js. *)
Definition ensureUrlProtocol (url : string) : string :=
  let url := replaceAll doubleColon 0 url in
  let url := replaceAll duplicate 0 url in
  if negb (startsWith url "http://") && negb (startsWith url "https://")
  then "https://" +:+ url
  else url.

(** [ensureUrlProtocol] of grok.js. *)
Module Grok.

Definition ensureUrlProtocol (url : string) : string :=
  if negb (startsWith url "http://") && negb (startsWith url "https://")
  then "https://" +:+ url
  else url.

End Grok.

End Url.

(** ** The action executor and the campaign handler (index.js) *)
Module Exec.
Import Js.

(** *** Actions, as parsed from the assistant's JSON *)

(** An element of an [inputFields] array that is not [null]; an element
    that is no object has neither property. *)
Record InputField := {
  placeholder : option string;
  field_value : option string
}.

(** An [inputFields] property that is neither [undefined] nor [null]: an
    array, where [None] is a [null] element, or a value of another kind
    (an object, a string, a number, a boolean), of which the executor
    only tests the truthiness before it calls its missing [find]. *)
Inductive InputFields :=
| fieldArray (fields : list (option InputField))
| notArray (truthy : bool).

(** The properties of an action object that the executor reads; [None] is
    [undefined] or [null].  The properties read as strings are taken to
    hold strings; [duration] holds the string form of the property (what
    [parseInt] converts its argument to). *)
Record Action := {
  action : option string;
  selector : option string;
  value : option string;
  key : option string;
  duration : option string;
  searchText : option string;
  inputFields : option InputFields;
  search_query : option string;
  type : option string
}.

Record Outcome := {
  success : bool;
  error : option string
}.

Definition succeeded : Outcome := {| success := true; error := None |}.
Definition failed (message : string) : Outcome :=
  {| success := false; error := Some message |}.

(** *** The page *)

(** A number as [parseInt] returns it, [NaN] apart: an integer that is a
    double, or an infinity. *)
Inductive Number :=
| integer (z : Z)
| infinity (negative : bool).

Coercion integer : Z >-> Number.
Bind Scope Z_scope with Number.

(** The browser calls the executor makes. *)
Inductive Call :=
| click (selector : string) (force : bool)
| waitForTimeout (ms : Number)
| waitForSelector (selector : string) (state : option string) (timeout : Z)
| fill (selector value : string)
| press (selector key : string)
| waitForLoadState (state : string) (timeout : option Z)
| isVisible (selector : string)
| query (selector : string)                    (* page.$(selector) *)
| elementClick (selector : string) (force : bool)  (* click on a queried handle *)
| screenshot (name : string)
| goto (url : string)
| external (name : string).                    (* any other collaborator *)

(** A call completes with a value (the boolean matters for [isVisible] and
    [query], where it tells whether the element is visible or exists) or
    throws an error with a message. *)
Inductive Reply :=
| Done (v : bool)
| Thrown (message : string).

(** What the assistant's answer amounts to once fetched, parsed by
    [safeJsonParse] and passed through the multi-step rewriting: no
    content, an action, or an exception of the rewriting. *)
Inductive AssistantReply :=
| NoContent
| Parsed (a : Action)
| BadReply (message : string).

(** The live page and the other collaborators: the reply to a call depends
    on the calls made so far.  [firstSettles] tells, for two pending
    promises, whether the first one settles first; [assistant] is the
    assistant's answer. *)
Record Page := {
  reply : list Call -> Call -> Reply;
  firstSettles : list Call -> bool;
  assistant : list Call -> AssistantReply
}.

Inductive Result (A : Type) :=
| Returned (a : A)
| Raised (message : string).
Arguments Returned {A} a.
Arguments Raised {A} message.

(** A computation against the page: it extends the trace of calls and
    returns or throws. *)
Definition Run (A : Type) : Type := Page -> list Call -> Result A * list Call.

Definition ret {A} (a : A) : Run A := fun _ tr => (Returned a, tr).

Definition throw {A} (message : string) : Run A := fun _ tr => (Raised message, tr).

Definition bind {A B} (m : Run A) (k : A -> Run B) : Run B :=
  fun page tr =>
    match m page tr with
    | (Returned a, tr') => k a page tr'
    | (Raised message, tr') => (Raised message, tr')
    end.

(** [try { m } catch (error) { handler(error.message) }] *)
Definition try_catch {A} (m : Run A) (handler : string -> Run A) : Run A :=
  fun page tr =>
    match m page tr with
    | (Returned a, tr') => (Returned a, tr')
    | (Raised message, tr') => handler message page tr'
    end.

Declare Scope run_scope.
Delimit Scope run_scope with run.
Notation "x <- m ;; k" := (bind m (fun x => k))
  (at level 100, m at next level, right associativity) : run_scope.
Notation "m ;;; k" := (bind m (fun _ => k))
  (at level 100, right associativity) : run_scope.
Open Scope run_scope.

(** [await page.call(...)] *)
Definition call (c : Call) : Run bool := fun page tr =>
  match reply page tr c with
  | Done v => (Returned v, (tr ++ [c])%list)
  | Thrown message => (Raised message, (tr ++ [c])%list)
  end.

(** [promise.then(() => true).catch(() => false)], once settled. *)
Definition settles (c : Call) : Run bool := fun page tr =>
  match reply page tr c with
  | Done _ => (Returned true, (tr ++ [c])%list)
  | Thrown _ => (Returned false, (tr ++ [c])%list)
  end.

(** [await Promise.all([c1, c2])]: both calls are started; the result
    throws when one of them does. *)
Definition all2 (c1 c2 : Call) : Run unit := fun page tr =>
  let tr' := (tr ++ [c1; c2])%list in
  match reply page tr c1, reply page (tr ++ [c1])%list c2 with
  | Done _, Done _ => (Returned tt, tr')
  | Thrown m1, Done _ => (Raised m1, tr')
  | Done _, Thrown m2 => (Raised m2, tr')
  | Thrown m1, Thrown m2 =>
      (Raised (if firstSettles page tr' then m1 else m2), tr')
  end.

Definition HEADER : string := ".search-tab-filters-list-item-header".
Definition SEARCH : string :=
  "input[placeholder=" +:+ String "034" "Search" +:+ String "034" "]".
Definition SAVE_TO_LIST : string :=
  "text=" +:+ String "034" "Save to List" +:+ String "034" EmptyString.
Definition NO_RESULTS : string := ".no-results-found".

(** The race of the two verification waits: a "results" signal and a
    "no results" signal, each turned into a boolean. *)
Definition raceVisible : Run bool :=
  fun page tr =>
    match settles (waitForSelector SAVE_TO_LIST None 5000) page tr with
    | (Returned b1, tr1) =>
        match settles (waitForSelector NO_RESULTS None 5000) page tr1 with
        | (Returned b2, tr2) =>
            (Returned (if firstSettles page tr2 then b1 else b2), tr2)
        | other => other
        end
    | other => other
    end.

(** *** [parseInt] *)

Definition digitValue (c : ascii) : option Z :=
  let n := Z.of_nat (nat_of_ascii c) in
  if (48 <=? n)%Z && (n <=? 57)%Z then Some (n - 48)%Z
  else if (97 <=? n)%Z && (n <=? 122)%Z then Some (n - 87)%Z
  else if (65 <=? n)%Z && (n <=? 90)%Z then Some (n - 55)%Z
  else None.

(** The value of the longest prefix of digits of the radix; [None] when
    there is no digit. *)
Fixpoint digits (radix : Z) (s : string) (acc : option Z) : option Z :=
  match s with
  | EmptyString => acc
  | String c s' =>
      match digitValue c with
      | Some d =>
          if (d <? radix)%Z
          then digits radix s' (Some (default 0 acc * radix + d))%Z
          else acc
      | None => acc
      end
  end.

(** The Number value for an integer: the integer itself below 2^53 in
    magnitude, otherwise the nearest double, ties to the even mantissa,
    and an infinity from 2^1024 on. *)
Definition toNumber (n : Z) : Number :=
  let m := Z.abs n in
  if (m <? 2 ^ 53)%Z then integer n
  else
    let e := (Z.log2 m - 52)%Z in
    let q := (m / 2 ^ e)%Z in
    let r := (m mod 2 ^ e)%Z in
    let half := (2 ^ (e - 1))%Z in
    let q := if (half <? r)%Z || ((r =? half)%Z && Z.odd q)
             then (q + 1)%Z else q in
    let v := (q * 2 ^ e)%Z in
    if (2 ^ 1024 <=? v)%Z then infinity (n <? 0)%Z
    else integer (Z.sgn n * v).

(** [parseInt(s)] without a radix argument; [None] is [NaN]. *)
Definition parseInt (s : string) : option Number :=
  let s := trimStart s in
  let '(sign, s) :=
    match s with
    | String "-" s' => ((-1)%Z, s')
    | String "+" s' => (1%Z, s')
    | _ => (1%Z, s)
    end in
  let '(radix, s) :=
    if startsWith s "0x" || startsWith s "0X"
    then (16%Z, Url.drop 2 s) else (10%Z, s) in
  match digits radix s None with
  | Some n => Some (toNumber (sign * n))
  | None => None
  end.

(** [parseInt(action.duration) || 2000]: [NaN] and zero are falsy. *)
Definition delayOf (a : Action) : Number :=
  match duration a with
  | Some d =>
      match parseInt d with
      | Some (integer 0) | None => 2000%Z
      | Some n => n
      end
  | None => 2000%Z
  end.

(** *** [executeAction] *)

(** [a || b] on string properties. *)
Definition or_else (a b : option string) : option string :=
  if truthy_opt a then a else b.

(** [a || 'literal'] *)
Definition or_default (a : option string) (d : string) : string :=
  match a with
  | Some s => if truthy s then s else d
  | None => d
  end.

Definition recognized (kind : option string) : bool :=
  match kind with
  | Some k => existsb (String.eqb k) ["click"; "fill"; "press"; "wait"]
  | None => false
  end.

(** Truthiness of the [inputFields] property: an array is truthy, also
    an empty one. *)
Definition truthy_fields (o : option InputFields) : bool :=
  match o with
  | Some (fieldArray _) => true
  | Some (notArray truthy) => truthy
  | None => false
  end.

(** [fields.find(f => f.placeholder === 'Search')?.value]: the callback
    throws on a [null] element that comes before the first match. *)
Fixpoint findSearch (fields : list (option InputField))
  : Result (option string) :=
  match fields with
  | [] => Returned None
  | None :: _ => Raised "Cannot read properties of null (reading 'placeholder')"
  | Some f :: rest =>
      if bool_decide (placeholder f = Some "Search")
      then Returned (field_value f)
      else findSearch rest
  end.

(** [action.inputFields?.find(f => f.placeholder === 'Search')?.value]:
    the optional chaining stops at [undefined] and [null] only; any other
    value that is no array has no [find] to call. *)
Definition searchFieldValue (a : Action) : Result (option string) :=
  match inputFields a with
  | None => Returned None
  | Some (fieldArray fields) => findSearch fields
  | Some (notArray _) => Raised "action.inputFields?.find is not a function"
  end.

Definition with_value (a : Action) (v : option string) : Action :=
  {| action := action a; selector := selector a; value := v; key := key a;
     duration := duration a; searchText := searchText a;
     inputFields := inputFields a; search_query := search_query a;
     type := type a |}.

(** The block "Force invalid formats to valid ones", which stands before
    the [try]: the selector and the kind the executor goes on with, and
    the action object after the assignment to [action.value]; or the
    [TypeError] of the search for the input field, which is made only when
    [searchText] is falsy. *)
Definition normalize (a : Action) : Result (string * string * Action) :=
  if negb (truthy_opt (selector a)) || negb (recognized (action a)) then
    if truthy_opt (searchText a) || truthy_fields (inputFields a)
       || truthy_opt (search_query a)
    then
      match (if truthy_opt (searchText a) then Returned None
             else searchFieldValue a) with
      | Returned found =>
          Returned
            (SEARCH, "fill",
             with_value a
               (Some (or_default
                        (or_else (searchText a)
                           (or_else found (search_query a)))
                        "pizza")))
      | Raised message => Raised message
      end
    else Returned (HEADER, "click", a)
  else
    Returned
      (default EmptyString (selector a), default EmptyString (action a), a).

(** The action object as the block leaves it. *)
Definition normalized (a : Action) : Action :=
  match normalize a with
  | Returned (_, _, a') => a'
  | Raised _ => a
  end.

Definition networkidle_and_press (selector : string) : Run unit :=
  all2 (waitForLoadState "networkidle" (Some 20000%Z)) (press selector "Enter").

(** The press-Enter search. *)
Definition searchPressEnter (selector : string) : Run Outcome :=
  call (click HEADER true) ;;;
  call (waitForTimeout 1000) ;;;
  call (waitForSelector selector (Some "visible") 20000) ;;;
  call (click selector true) ;;;
  call (waitForTimeout 500) ;;;
  networkidle_and_press selector ;;;
  resultsVisible <- raceVisible ;;
  (if negb resultsVisible then
     call (click selector true) ;;;
     networkidle_and_press selector ;;;
     retryResultsVisible <- raceVisible ;;
     if negb retryResultsVisible
     then throw "Search failed to show results after retry"
     else ret tt
   else ret tt) ;;;
  ret succeeded.

(** The fill of the search input. *)
Definition searchFill (selector : string) (a : Action) : Run Outcome :=
  call (click HEADER true) ;;;
  call (waitForTimeout 1000) ;;;
  call (waitForSelector selector (Some "visible") 20000) ;;;
  call (click selector true) ;;;
  call (fill selector (or_default (value a) "pizza")) ;;;
  call (waitForTimeout 500) ;;;
  visible <- call (isVisible selector) ;;
  (if negb visible then
     call (click HEADER true) ;;;
     call (waitForTimeout 500) ;;;
     call (click selector true) ;;;
     ret tt
   else ret tt) ;;;
  ret succeeded.

(** The loop over the known checkbox selectors. *)
Fixpoint tryCheckboxes (selectors : list string) : Run Outcome :=
  match selectors with
  | [] => throw "No matching checkbox found"
  | s :: rest =>
      checkbox <- call (query s) ;;
      if checkbox then
        call (elementClick s true) ;;;
        call (waitForTimeout 500) ;;;
        ret succeeded
      else tryCheckboxes rest
  end.

Definition checkboxes : Run Outcome :=
  try_catch
    (tryCheckboxes [".search-businesses-header-checkbox"; ".checkbox-square";
                    ".list-item-checkbox"])
    (fun message => ret (failed message)).

(** [action.selector?.includes('checkbox') || action.type === 'checkbox'] *)
Definition checkboxLike (a : Action) : bool :=
  match selector a with
  | Some s => includes s "checkbox"
  | None => false
  end || bool_decide (type a = Some "checkbox").

(** "Handle non-search actions normally". *)
Definition generic (selector validAction : string) (a : Action) : Run Outcome :=
  call (waitForSelector selector (Some "visible") 20000) ;;;
  if (validAction =? "click")%string then
    call (click selector true) ;;;
    call (waitForTimeout 1000) ;;;
    ret succeeded
  else if (validAction =? "fill")%string then
    call (fill selector (default EmptyString (value a))) ;;;
    call (waitForTimeout 500) ;;;
    ret succeeded
  else if (validAction =? "press")%string then
    call (press selector (or_default (key a) "Enter")) ;;;
    call (waitForLoadState "networkidle" (Some 20000%Z)) ;;;
    ret succeeded
  else if (validAction =? "wait")%string then
    call (waitForTimeout (delayOf a)) ;;;
    ret succeeded
  else ret (failed ("Unknown action: " +:+ validAction)).

Definition afterSearch (selector validAction : string) (a : Action)
  : Run Outcome :=
  if checkboxLike a then checkboxes else generic selector validAction a.

(** The outer [catch]: screenshot, then the retry kept for the search input
    when the message mentions a hidden element. *)
Definition recover (selector validAction : string) (a : Action)
    (message : string) : Run Outcome :=
  call (screenshot "error") ;;;
  if (selector =? SEARCH)%string && includes message "hidden" then
    try_catch
      (call (click HEADER true) ;;;
       call (waitForTimeout 1000) ;;;
       call (click selector true) ;;;
       call (waitForTimeout 500) ;;;
       (if (validAction =? "fill")%string then
          call (fill selector (or_default (value a) "pizza")) ;;; ret tt
        else if (validAction =? "press")%string then
          networkidle_and_press selector ;;;
          resultsVisible <- raceVisible ;;
          if negb resultsVisible
          then throw "Search failed to show results after retry"
          else ret tt
        else ret tt) ;;;
       ret succeeded)
      (fun retryMessage => ret (failed retryMessage))
  else ret (failed message).

Definition executeAction (a : Action) : Run Outcome :=
  match normalize a with
  | Raised message => throw message
  | Returned (selector, validAction, a) =>
      try_catch
        (if (selector =? SEARCH)%string then
           if (validAction =? "press")%string
              && bool_decide (key a = Some "Enter")
           then searchPressEnter selector
           else if (validAction =? "fill")%string then searchFill selector a
           else afterSearch selector validAction a
         else afterSearch selector validAction a)
        (recover selector validAction a)
  end.

(** *** The [/run-campaign] handler *)

Record Request := {
  prompt : option string;
  saasUrl : option string;
  saasUsername : option string;
  saasPassword : option string
}.

(** An entry of [automationSteps]. *)
Record AutomationStep := {
  step : nat;
  step_action : Action;
  result : Outcome
}.

(** What [res.status(...).json(...)] sends; [None] is an absent property. *)
Record Response := {
  status : Z;
  res_success : bool;
  res_error : option string;
  message : option string;
  details : option (list AutomationStep)
}.

(** The state of one request: the calls made and the [automationSteps]
    array, which outlives an exception of the [try] block. *)
Record CampaignState := {
  trace : list Call;
  automationSteps : list AutomationStep
}.

Definition Campaign (A : Type) : Type :=
  Page -> CampaignState -> Result A * CampaignState.

Definition cret {A} (a : A) : Campaign A := fun _ st => (Returned a, st).

Definition cthrow {A} (msg : string) : Campaign A := fun _ st => (Raised msg, st).

Definition cbind {A B} (m : Campaign A) (k : A -> Campaign B) : Campaign B :=
  fun page st =>
    match m page st with
    | (Returned a, st') => k a page st'
    | (Raised msg, st') => (Raised msg, st')
    end.

(** A computation on the page, run inside a request. *)
Definition lift {A} (m : Run A) : Campaign A := fun page st =>
  let (r, tr) := m page (trace st) in
  (r, {| trace := tr; automationSteps := automationSteps st |}).

(** [automationSteps.push(entry)] *)
Definition push (entry : AutomationStep) : Campaign unit := fun _ st =>
  (Returned tt,
   {| trace := trace st;
      automationSteps := (automationSteps st ++ [entry])%list |}).

Declare Scope campaign_scope.
Delimit Scope campaign_scope with campaign.
Notation "x <- m ;; k" := (cbind m (fun x => k))
  (at level 100, m at next level, right associativity) : campaign_scope.
Notation "m ;;; k" := (cbind m (fun _ => k))
  (at level 100, right associativity) : campaign_scope.

(** A helper that catches its own errors and returns nothing of use
    ([showAgentStatus], [hideAgentStatus], [uploadScreenshot],
    [logMessage], [dismissTutorialOverlay]). *)
Definition quiet (c : Call) : Run unit := fun _ tr =>
  (Returned tt, (tr ++ [c])%list).

(** [getAssistantResponse], [safeJsonParse] and the multi-step rewriting.
    [getAssistantResponse] polls the run once a second for as long as its
    status is "queued" or "in_progress", without a bound.  The polling is
    one call here, answered by the page's [assistant]: a request in which
    the run never leaves these states is not answered by the handler and
    is no run of this model. *)
Definition askAssistant : Run (option Action) := fun page tr =>
  let tr' := (tr ++ [external "getAssistantResponse"])%list in
  match assistant page tr with
  | NoContent => (Returned None, tr')
  | Parsed a => (Returned (Some a), tr')
  | BadReply msg => (Raised msg, tr')
  end.

Definition quoted (s : string) : string :=
  String "034" s +:+ String "034" EmptyString.

Definition SEARCH_LINK : string := "text=" +:+ quoted "Search".

Definition validatePageState : Run bool :=
  try_catch
    (searchInput <- call (query SEARCH) ;;
     (if negb searchInput then
        call (click SEARCH_LINK false) ;;;
        call (waitForTimeout 2000) ;;;
        ret tt
      else ret tt) ;;;
     ret true)
    (fun _ => ret false).

(** The first occurrence of [pattern] removed ([replace] with a pattern
    without the [g] flag and an empty replacement). *)
Fixpoint removeFirst (pattern s : string) : string :=
  if startsWith s pattern then Url.drop (String.length pattern) s
  else match s with
       | EmptyString => EmptyString
       | String c s' => String c (removeFirst pattern s')
       end.

(** The scripted fallback. *)
Definition automateResquared (prompt : string) : Run bool :=
  try_catch
    (call (waitForLoadState "networkidle" (Some 20000%Z)) ;;;
     quiet (external "dismissTutorialOverlay") ;;;
     let searchTerm :=
       trim (removeFirst "places" (removeFirst "make a list of" (toLowerCase prompt))) in
     call (click HEADER true) ;;;
     call (waitForTimeout 1000) ;;;
     call (waitForSelector SEARCH (Some "visible") 20000) ;;;
     call (click SEARCH true) ;;;
     call (waitForTimeout 500) ;;;
     call (fill SEARCH searchTerm) ;;;
     call (waitForTimeout 500) ;;;
     inputVisible <- call (isVisible SEARCH) ;;
     (if negb inputVisible then
        call (click HEADER true) ;;;
        call (waitForTimeout 1000) ;;;
        call (click SEARCH true) ;;;
        call (waitForTimeout 500) ;;;
        ret tt
      else ret tt) ;;;
     call (press SEARCH "Enter") ;;;
     call (waitForLoadState "networkidle" (Some 20000%Z)) ;;;
     saveToListVisible <- call (isVisible SAVE_TO_LIST) ;;
     (if negb saveToListVisible then
        call (click SEARCH true) ;;;
        call (press SEARCH "Enter") ;;;
        call (waitForLoadState "networkidle" (Some 20000%Z)) ;;;
        ret tt
      else ret tt) ;;;
     call (waitForSelector SAVE_TO_LIST None 20000) ;;;
     call (click SAVE_TO_LIST true) ;;;
     call (waitForTimeout 2000) ;;;
     ret true)
    (fun _ => call (screenshot "fallback_error") ;;; ret false).

(** The special case of step 3: open the search page and expand the
    search section.  [true]: the input is visible. *)
Definition expandSearch : Run bool :=
  try_catch
    (onSearchPage <- call (external "url.includes('search-businesses')") ;;
     (if negb onSearchPage then
        call (click SEARCH_LINK false) ;;;
        call (waitForTimeout 1000) ;;;
        ret tt
      else ret tt) ;;;
     call (click HEADER true) ;;;
     call (waitForTimeout 1000) ;;;
     inputVisible <- call (isVisible SEARCH) ;;
     if inputVisible then ret true
     else throw "Search input not visible after expanding section")
    (fun _ => ret false).

Open Scope campaign_scope.

(** The rest of an iteration: ask the assistant for an action, execute it
    and record the step.  Returns the new [currentStep] and
    [consecutiveFailures]. *)
Definition askAndExecute (currentStep consecutiveFailures : nat)
  : Campaign (nat * nat) :=
  lift (call (external "getDetailedDomInfo")) ;;;
  lift (call (screenshot "step")) ;;;
  lift (quiet (external "uploadScreenshot")) ;;;
  lift (quiet (external "logMessage")) ;;;
  lift (call (external "messages.create")) ;;;
  lift (quiet (external "showAgentStatus")) ;;;
  lift (call (external "runs.create")) ;;;
  answer <- lift askAssistant ;;
  match answer with
  | None => cret (currentStep, S consecutiveFailures)
  | Some a =>
      lift (quiet (external "showAgentStatus")) ;;;
      result <- lift (executeAction a) ;;
      push {| step := currentStep; step_action := normalized a;
              result := result |} ;;;
      if success result then
        lift (call (waitForTimeout 1000)) ;;;
        cret (S currentStep, 0)
      else cret (currentStep, S consecutiveFailures)
  end.

(** One iteration of the main loop. *)
Definition iteration (currentStep consecutiveFailures : nat)
  : Campaign (nat * nat) :=
  valid <- lift validatePageState ;;
  if negb valid then cret (currentStep, S consecutiveFailures) else
  lift (quiet (external "showAgentStatus")) ;;;
  if (currentStep =? 3)%nat then
    lift (quiet (external "showAgentStatus")) ;;;
    lift (call (waitForTimeout 1000)) ;;;
    expanded <- lift expandSearch ;;
    if expanded then cret (S currentStep, consecutiveFailures)
    else askAndExecute currentStep (S consecutiveFailures)
  else askAndExecute currentStep consecutiveFailures.

(** [while (currentStep < 20 && consecutiveFailures < 3)], for at most
    [fuel] iterations; returns the final [consecutiveFailures], or [None]
    when the iterations are used up. *)
Fixpoint mainLoop (fuel : nat) (currentStep consecutiveFailures : nat)
  : Campaign (option nat) :=
  if (currentStep <? 20)%nat && (consecutiveFailures <? 3)%nat then
    match fuel with
    | 0 => cret None
    | S fuel' =>
        next <- iteration currentStep consecutiveFailures ;;
        mainLoop fuel' next.1 next.2
    end
  else cret (Some consecutiveFailures).

Definition loginSteps (saasUsername saasPassword : string) : list Action :=
  [ {| action := Some "fill";
       selector := Some ("input[type=" +:+ quoted "email" +:+ "], input[placeholder="
                         +:+ quoted "Email" +:+ "]");
       value := Some saasUsername; key := None; duration := None;
       searchText := None; inputFields := None; search_query := None;
       type := None |};
    {| action := Some "fill";
       selector := Some ("input[type=" +:+ quoted "password"
                         +:+ "], input[placeholder=" +:+ quoted "Password" +:+ "]");
       value := Some saasPassword; key := None; duration := None;
       searchText := None; inputFields := None; search_query := None;
       type := None |};
    {| action := Some "click";
       selector := Some ("button[type=" +:+ quoted "submit"
                         +:+ "], button:has-text(" +:+ quoted "Log in" +:+ ")");
       value := None; key := None; duration := None;
       searchText := None; inputFields := None; search_query := None;
       type := None |} ].

(** [for (const action of loginSteps)] *)
Fixpoint runLogin (actions : list Action) (currentStep : nat) : Campaign nat :=
  match actions with
  | [] => cret currentStep
  | a :: rest =>
      result <- lift (executeAction a) ;;
      push {| step := currentStep; step_action := normalized a;
              result := result |} ;;;
      lift (call (waitForTimeout 1000)) ;;;
      runLogin rest (S currentStep)
  end.

(** The [try] block of the handler; [None] when the loop ran out of
    iterations. *)
Definition campaign (fuel : nat) (prompt saasUrl saasUsername saasPassword : string)
  : Campaign (option unit) :=
  lift (call (external "connectOverCDP")) ;;;
  lift (call (external "newContext")) ;;;
  lift (call (external "newPage")) ;;;
  lift (call (goto (Url.ensureUrlProtocol saasUrl))) ;;;
  lift (call (waitForLoadState "domcontentloaded" None)) ;;;
  currentStep <- runLogin (loginSteps saasUsername saasPassword) 0 ;;
  lift (call (waitForLoadState "networkidle" None)) ;;;
  lift (call (external "assistants.retrieve")) ;;;
  lift (call (external "threads.create")) ;;;
  final <- mainLoop fuel currentStep 0 ;;
  match final with
  | None => cret None
  | Some consecutiveFailures =>
      lift (quiet (external "hideAgentStatus")) ;;;
      (if (3 <=? consecutiveFailures)%nat then
         automationSuccess <- lift (automateResquared prompt) ;;
         if negb automationSuccess
         then cthrow "Both AI and direct automation failed"
         else cret tt
       else cret tt) ;;;
      cret (Some tt)
  end.

(** The handler of [POST /run-campaign]: the response and the state the
    request ended in.  The [finally] block, which closes page, context and
    browser and swallows their errors, runs after the response is chosen
    and is left out.  100 iterations are more than the loop can make (see
    [mainLoop_enough]). *)
Definition runCampaign (req : Request) (page : Page)
  : option (Response * CampaignState) :=
  let start := {| trace := []; automationSteps := [] |} in
  if negb (truthy_opt (prompt req)) || negb (truthy_opt (saasUrl req))
     || negb (truthy_opt (saasUsername req))
     || negb (truthy_opt (saasPassword req))
  then
    Some ({| status := 400; res_success := false;
             res_error := Some "Missing required fields";
             message := None; details := None |}, start)
  else
    match campaign 100 (default EmptyString (prompt req))
            (default EmptyString (saasUrl req))
            (default EmptyString (saasUsername req))
            (default EmptyString (saasPassword req)) page start with
    | (Returned (Some _), st) =>
        Some ({| status := 200; res_success := true; res_error := None;
                 message := Some "Campaign completed successfully";
                 details := Some (automationSteps st) |}, st)
    | (Returned None, _) => None
    | (Raised _, st) =>
        Some ({| status := 500; res_success := false;
                 res_error := Some "Error starting campaign";
                 message := None; details := None |}, st)
    end.

End Exec.

(** ** Rewriting the assistant's answer (index.js) *)
Module Assistant.
Import Js.

(** The description of an element in the assistant's answer; [None] is an
    absent property.  The properties that are read are taken to hold
    strings. *)
Record ElementObj := {
  text : option string;
  type : option string;
  placeholder : option string;
  classes : option string
}.

(** A value handed to [guessSelector]: a string or an object. *)
Inductive Value :=
| Str (s : string)
| Obj (e : ElementObj).

(** A [target] property: a string, or an object with its own properties
    and, possibly, an [element] property. *)
Inductive TargetValue :=
| TStr (s : string)
| TObj (element : option Value) (e : ElementObj).

(** The object form of the [action] property. *)
Record Top := {
  top_type : option string;
  top_target : option TargetValue;
  top_value : option string;
  top_description : option string
}.

Inductive ActionValue :=
| AStr (s : string)
| AObj (top : Top).

(** The parsed answer. *)
Record Parsed := {
  action : option ActionValue;
  target : option TargetValue;
  value : option string;
  description : option string
}.



(** [classes.split(' ')[0]] *)
Fixpoint firstWord (s : string) : string :=
  match s with
  | EmptyString => EmptyString
  | String c s' =>
      if Ascii.eqb c " " then EmptyString else String c (firstWord s')
  end.

Definition guessSelector (elementObj : option Value) : option string :=
  match elementObj with
  | None => None
  | Some (Str _) => None      (* empty: falsy; else no property is defined *)
  | Some (Obj e) =>
      if truthy_opt (text e) then
        let t := default EmptyString (text e) in
        if bool_decide (type e = Some "link") then
          Some ("a:has-text(" +:+ Exec.quoted t +:+ ")")
        else if bool_decide (type e = Some "text") then
          Some ("input[placeholder=" +:+ Exec.quoted t +:+ "]")
        else Some ("text=" +:+ Exec.quoted t)
      else if truthy_opt (placeholder e) then
        Some ("input[placeholder="
              +:+ Exec.quoted (default EmptyString (placeholder e)) +:+ "]")
      else if truthy_opt (type e) && truthy_opt (classes e)
              && bool_decide (type e = Some "text") then
        Some ("input." +:+ firstWord (default EmptyString (classes e)))
      else None
  end.







End Assistant.

(** ** The recording parser (recordingParser.js) *)
Module Recording.
Import Js.

(** A step of a recording; [None] is an absent property. *)
Record RecordedStep := {
  type : option string;
  selectors : option (list (list string));
  value : option string
}.

Record Recording := {
  steps : option (list RecordedStep)
}.

Record ParsedStep := {
  index : nat;
  p_type : option string;
  p_selectors : list (list string);
  p_value : option string;
  description : string
}.

(** A string property inside a template literal. *)
Definition templated (o : option string) : string := default "undefined" o.

Definition parseStep (index : nat) (step : RecordedStep) : ParsedStep :=
  {| index := index;
     p_type := type step;
     p_selectors := default [] (selectors step);
     p_value := if truthy_opt (value step) then value step else None;
     description :=
       "Step " +:+ pretty (index + 1) +:+ ": " +:+ templated (type step)
       +:+ " event" |}.

(** [parseRecording] on a recording object (the string form goes through
    [JSON.parse] first). *)
Definition parseRecording (recording : Recording) : list ParsedStep :=
  imap parseStep (default [] (steps recording)).

End Recording.

(** ** The executor of grok.js *)
Module GrokExec.
Import Js.

Record Action := {
  action : option string;
  selector : option string;
  value : option string;
  key : option string;
  description : option string
}.

(** The browser calls of grok.js that are modelled; [evaluate] stands for
    a [page.evaluate] of the named script with its argument, [queryAll]
    for [page.$$] and [elementClick] for a click on the [i]-th element it
    found. *)
Inductive Call :=
| click (selector : string)
| fill (selector : option string) (value : option string)
| press (selector : string) (key : option string)
| evaluate (script : string) (arg : option string)
| queryAll (selector : string)
| elementClick (selector : string) (i : nat).

Definition Page : Type := list Call -> Call -> Exec.Reply.

Definition Run (A : Type) : Type :=
  Page -> list Call -> Exec.Result A * list Call.

Definition ret {A} (a : A) : Run A := fun _ tr => (Exec.Returned a, tr).

Definition throw {A} (message : string) : Run A :=
  fun _ tr => (Exec.Raised message, tr).

Definition bind {A B} (m : Run A) (k : A -> Run B) : Run B :=
  fun page tr =>
    match m page tr with
    | (Exec.Returned a, tr') => k a page tr'
    | (Exec.Raised message, tr') => (Exec.Raised message, tr')
    end.

Definition try_catch {A} (m : Run A) (handler : string -> Run A) : Run A :=
  fun page tr =>
    match m page tr with
    | (Exec.Returned a, tr') => (Exec.Returned a, tr')
    | (Exec.Raised message, tr') => handler message page tr'
    end.

Definition call (c : Call) : Run bool := fun page tr =>
  match page tr c with
  | Exec.Done v => (Exec.Returned v, (tr ++ [c])%list)
  | Exec.Thrown message => (Exec.Raised message, (tr ++ [c])%list)
  end.

Declare Scope grok_scope.
Delimit Scope grok_scope with grok.
Notation "x <- m ;; k" := (bind m (fun x => k))
  (at level 100, m at next level, right associativity) : grok_scope.
Notation "m ;;; k" := (bind m (fun _ => k))
  (at level 100, right associativity) : grok_scope.
Open Scope grok_scope.

(** The message of the [TypeError] of a method call on [undefined], as
    V8 words it. *)
Definition undefinedHas (method : string) : string :=
  "Cannot read properties of undefined (reading '" +:+ method +:+ "')".

(** A string property inside a template literal. *)
Definition interpolated (o : option string) : string := default "undefined" o.

(** [s.replace(/\s+/g, r)]: [skip] counts the bytes of the current white
    space character still to be passed over, [inRun] tells whether the
    run it belongs to has been replaced already. *)
Fixpoint replaceRuns (r : string) (skip : nat) (inRun : bool) (s : string)
  : string :=
  match s with
  | EmptyString => EmptyString
  | String c s' =>
      match skip with
      | S k => replaceRuns r k inRun s'
      | 0 =>
          match whiteSpaceLen s with
          | S k =>
              if inRun then replaceRuns r k true s'
              else r +:+ replaceRuns r k true s'
          | 0 => String c (replaceRuns r 0 false s')
          end
      end
  end.

(** [for (const selector of selectors) { try { await act(selector);
    return success } catch (e) { } }]: [true] when an attempt completed. *)
Fixpoint firstThatWorks {T} (act : T -> Call) (selectors : list T) : Run bool :=
  match selectors with
  | [] => ret false
  | s :: rest =>
      try_catch (call (act s) ;;; ret true)
        (fun _ => firstThatWorks act rest)
  end.

Definition clickSelectors (s : string) : list string :=
  [ s;
    "text=" +:+ s;
    "text=" +:+ Exec.quoted s;
    "[placeholder=" +:+ Exec.quoted s +:+ "]";
    "button:has-text(" +:+ Exec.quoted s +:+ ")";
    "div:has-text(" +:+ Exec.quoted s +:+ ")";
    "." +:+ replaceRuns "." 0 false s;
    "#" +:+ replaceRuns "_" 0 false s ].

Definition fillSelectors (selector : option string) : list (option string) :=
  [ selector;
    Some ("[placeholder=" +:+ Exec.quoted (interpolated selector) +:+ "]");
    Some ("input[placeholder=" +:+ Exec.quoted (interpolated selector) +:+ "]");
    Some ("textarea[placeholder=" +:+ Exec.quoted (interpolated selector) +:+ "]");
    Some ("input[type=" +:+ Exec.quoted "text" +:+ "]");
    Some ("input[type=" +:+ Exec.quoted "search" +:+ "]");
    Some "input:visible" ].

(** [action.selector.includes('Email') || action.description.includes('Email')] *)
Definition mentionsEmail (a : Action) : Run bool :=
  match selector a with
  | None => throw (undefinedHas "includes")
  | Some s =>
      if includes s "Email" then ret true
      else match description a with
           | None => throw (undefinedHas "includes")
           | Some d => ret (includes d "Email")
           end
  end.

Definition clickCase (a : Action) : Run Exec.Outcome :=
  email <- mentionsEmail a ;;
  emailClicked <- (if email then call (evaluate "clickEmail" None)
                   else ret false) ;;
  if emailClicked then ret Exec.succeeded else
  let s := default EmptyString (selector a) in
  clicked <- firstThatWorks click (clickSelectors s) ;;
  if clicked then ret Exec.succeeded else
  clickedByText <- call (evaluate "clickByText" (Some s)) ;;
  if clickedByText then ret Exec.succeeded
  else ret (Exec.failed ("Failed to click with any selector for: " +:+ s)).

Definition fillCase (a : Action) : Run Exec.Outcome :=
  filled <- firstThatWorks (fun s => fill s (value a))
              (fillSelectors (selector a)) ;;
  if filled then ret Exec.succeeded else
  filledByJS <- call (evaluate "fillByJS" (value a)) ;;
  if filledByJS then ret Exec.succeeded
  else ret (Exec.failed ("Failed to fill with any selector for: "
                         +:+ interpolated (selector a))).

Definition pressCase (a : Action) : Run Exec.Outcome :=
  try_catch
    (call (press (Exec.or_default (selector a) "body") (key a)) ;;;
     ret Exec.succeeded)
    (fun message => ret (Exec.failed message)).

Definition executeAction (a : option Action) : Run Exec.Outcome :=
  try_catch
    (match a with
     | None => ret (Exec.failed "Invalid action object")
     | Some a =>
         if negb (truthy_opt (action a))
         then ret (Exec.failed "Invalid action object")
         else
           let kind := default EmptyString (action a) in
           if (kind =? "click")%string then clickCase a
           else if (kind =? "fill")%string then fillCase a
           else if (kind =? "press")%string then pressCase a
           else ret (Exec.failed ("Unknown action type: " +:+ kind))
     end)
    (fun message => ret (Exec.failed message)).

(** What [safeJsonParse] returns when the answer is no JSON. *)
Definition parseFailure : Action :=
  {| action := Some "wait"; selector := None; value := None; key := None;
     description := Some "Waiting after JSON parse error" |}.

Definition searchSelectors : list string :=
  [ ".search-tab-filter-list-item-inner";
    ".search-tab-filters-list-item-header";
    "div.search-tab-filters-list-item-header";
    "div:has-text(" +:+ Exec.quoted "Search" +:+ ")";
    "div.search-tab-filter-list-item-inner:has-text("
      +:+ Exec.quoted "Search" +:+ ")" ].

Definition clickResquaredSearch : Run bool :=
  try_catch (firstThatWorks click searchSelectors) (fun _ => ret false).

Definition checkboxSelectors : list string :=
  [ ".checkbox-square";
    "input[type=" +:+ Exec.quoted "checkbox" +:+ "]";
    "[role=" +:+ Exec.quoted "checkbox" +:+ "]";
    "div.checkbox";
    "div:has-text(" +:+ Exec.quoted "Email" +:+ ")";
    "div:has-text(" +:+ Exec.quoted "Email" +:+ ") input";
    "div:has-text(" +:+ Exec.quoted "Email" +:+ ") .checkbox";
    "div:has-text(" +:+ Exec.quoted "Email" +:+ ") .checkbox-square" ].

(** The loop over the selectors of [clickEmailCheckbox]; [found] tells
    how many elements [page.$$] finds for a selector. *)
Fixpoint tryCheckboxes (found : list Call -> string -> nat)
    (selectors : list string) : Run bool :=
  match selectors with
  | [] => ret false
  | s :: rest =>
      clicked <-
        try_catch
          (call (queryAll s) ;;;
           fun page tr =>
             firstThatWorks (elementClick s) (seq 0 (found tr s)) page tr)
          (fun _ => ret false) ;;
      if clicked then ret true else tryCheckboxes found rest
  end.

Definition clickEmailCheckbox (found : list Call -> string -> nat) : Run bool :=
  try_catch
    (clicked <- tryCheckboxes found checkboxSelectors ;;
     if clicked then ret true else
     try_catch (call (evaluate "clickAllEmail" None) ;;; ret true)
       (fun _ => ret false))
    (fun _ => ret false).

Close Scope grok_scope.

End GrokExec.

(** ** Properties of the snapshot builder *)
Module DomFacts.
Import Js Dom.

(** *** Handles *)

(** Handles of different counters, or of different kinds, differ. *)
Lemma text_handle_inj n k : text_handle n = text_handle k -> n = k.
Proof.
  unfold text_handle. intros H. cbn in H.
  injection H as H. by apply (inj pretty).
Qed.

Lemma element_handle_inj n k : element_handle n = element_handle k -> n = k.
Proof.
  unfold element_handle. intros H. cbn in H.
  injection H as H. by apply (inj pretty).
Qed.

Lemma text_element_handle n k : text_handle n <> element_handle k.
Proof. unfold text_handle, element_handle. cbn. discriminate. Qed.

Definition is_handle (k : nat) (h : string) : Prop :=
  h = text_handle k \/ h = element_handle k.

Lemma is_handle_inj k1 k2 h : is_handle k1 h -> is_handle k2 h -> k1 = k2.
Proof.
  intros [-> | ->] [H | H].
  - by apply text_handle_inj.
  - by apply text_element_handle in H.
  - symmetry in H. by apply text_element_handle in H.
  - by apply element_handle_inj.
Qed.

(** No handle numbered [i] or above is a key of [m]: the next handles that
    [ID.current++] produces are new keys. *)
Definition fresh (i : nat) (m : gmap string NodeRecord) : Prop :=
  forall k h, i <= k -> is_handle k h -> m !! h = None.

(** *** Reference notions on the document and on the snapshot *)

(** An element that [buildDomTree] drops with its subtree. *)
Definition excluded (e : Element) : bool :=
  (el_id e =? "playwright-highlight-container")%string ||
  has ["script"; "style"; "noscript"] (toLowerCase (el_tagName e)).

(** The elements of the document that the traversal records, in document
    pre-order: those not excluded (nor below an excluded element) and at
    depth 20 at most, when the walk starts at [depth]. *)
Fixpoint kept_elements (node : Node) (depth : nat) : list Element :=
  match node with
  | ElementNode e cs =>
      if excluded e then []
      else e :: (if (depth <? 20)%nat
                 then flat_map (fun c => kept_elements c (S depth)) cs
                 else [])
  | _ => []
  end.

(** The record [r] is the one [buildDomTree] computes for element [e]. *)
Definition derived (e : Element) (r : ElementRecord) : Prop :=
  tagName r = toLowerCase (el_tagName e) /\
  attributes r = getElementAttributes e /\
  isVisible r = isElementVisible e /\
  isInteractive r =
    (if isElementVisible e then Some (isInteractiveElement e) else None) /\
  (is_Some (highlightIndex r) <->
   isElementVisible e = true /\ isInteractiveElement e = true).

(** [h] is a key of [m'] that [m] does not have. *)
Definition added (m m' : gmap string NodeRecord) (h : string) : Prop :=
  m !! h = None /\ is_Some (m' !! h).

(** The element records met on a pre-order walk of the snapshot below
    handle [h], following [children] for at most [n] levels. *)
Fixpoint records (m : gmap string NodeRecord) (n : nat) (h : string)
  : list ElementRecord :=
  match n with
  | 0 => []
  | S n' =>
      match m !! h with
      | Some (ELEMENT r) => r :: flat_map (records m n') (children r)
      | _ => []
      end
  end.

(** The highlight indices met on that walk. *)
Definition highlights (m : gmap string NodeRecord) (n : nat)
    (ids : list string) : list nat :=
  omap highlightIndex (flat_map (records m n) ids).

(** The snapshot below [h] has no missing record and at most [n] levels. *)
Fixpoint within (m : gmap string NodeRecord) (n : nat) (h : string) : Prop :=
  match n with
  | 0 => False
  | S n' =>
      match m !! h with
      | Some (ELEMENT r) => Forall (within m n') (children r)
      | Some _ => True
      | None => False
      end
  end.

Lemma records_S m n h :
  records m (S n) h =
  match m !! h with
  | Some (ELEMENT r) => r :: flat_map (records m n) (children r)
  | _ => []
  end.
Proof. reflexivity. Qed.

Lemma flat_map_singleton {A B} (f : A -> list B) (a : A) :
  flat_map f [a] = f a.
Proof. apply app_nil_r. Qed.

Lemma within_weaken m m' n h : m ⊆ m' -> within m n h -> within m' n h.
Proof.
  intros Hsub. revert h. induction n as [|n IH]; intros h; [done|].
  simpl. destruct (m !! h) as [rec|] eqn:Hm; [|done].
  rewrite (lookup_weaken _ _ _ _ Hm Hsub).
  destruct rec; [|done..].
  intros Hall. eapply Forall_impl; [exact Hall|exact IH].
Qed.

Lemma records_weaken m m' n h :
  m ⊆ m' -> within m n h -> records m' n h = records m n h.
Proof.
  intros Hsub. revert h. induction n as [|n IH]; intros h; [done|].
  simpl. destruct (m !! h) as [rec|] eqn:Hm; [|done].
  rewrite (lookup_weaken _ _ _ _ Hm Hsub).
  destruct rec; [|done..].
  intros Hall. f_equal.
  induction Hall as [|c cs Hc _ IHcs]; [done|].
  simpl. by rewrite IH, IHcs.
Qed.

Lemma flat_map_records_weaken m m' n ids :
  m ⊆ m' -> Forall (within m n) ids ->
  flat_map (records m' n) ids = flat_map (records m n) ids.
Proof.
  intros Hsub Hall. induction Hall as [|c cs Hc _ IH]; [done|].
  simpl. by rewrite (records_weaken m m'), IH.
Qed.

(** *** The invariant of the traversal *)

(** What one stretch of the traversal does to the builder's state: it goes
    from counters [i], [hi] and map [m] to [i'], [hi'] and [m'], and [ids]
    are the handles it returned, in order.  [els] are the elements the
    stretch recorded, in document pre-order, and [n] bounds the levels
    below [ids]. *)
Record Step (els : list Element) (n : nat)
    (i hi : nat) (m : gmap string NodeRecord) (ids : list string)
    (i' hi' : nat) (m' : gmap string NodeRecord) : Prop := {
  step_ID : i <= i';
  step_hi : hi <= hi';
  step_sub : m ⊆ m';
  step_keys : forall h, added m m' h -> exists k, i <= k < i' /\ is_handle k h;
  step_recs : forall h r,
      m !! h = None -> m' !! h = Some (ELEMENT r) ->
      (exists e, e ∈ els /\ derived e r) /\
      Forall (added m m') (children r) /\
      (forall x, highlightIndex r = Some x -> hi <= x < hi');
  step_noerr : forall h msg, m !! h = None -> m' !! h <> Some (ERROR msg);
  step_ids : Forall (added m m') ids;
  step_pre : Forall2 derived els (flat_map (records m' n) ids);
  step_walk : highlights m' n ids = seq hi (hi' - hi);
  step_within : Forall (within m' n) ids;
  step_uniq : forall h1 h2 r1 r2 x,
      m !! h1 = None -> m !! h2 = None ->
      m' !! h1 = Some (ELEMENT r1) -> m' !! h2 = Some (ELEMENT r2) ->
      highlightIndex r1 = Some x -> highlightIndex r2 = Some x -> h1 = h2
}.

Lemma added_l m m1 m2 h : m1 ⊆ m2 -> added m m1 h -> added m m2 h.
Proof.
  intros Hsub [Hn [x Hx]]. split; [done|].
  exists x. by eapply lookup_weaken.
Qed.

Lemma added_r m m1 m2 h : m ⊆ m1 -> added m1 m2 h -> added m m2 h.
Proof.
  intros Hsub [Hn Hs]. split; [|done]. by eapply lookup_weaken_None.
Qed.

Lemma Step_refl n i hi m : Step [] n i hi m [] i hi m.
Proof.
  split.
  - done.
  - done.
  - done.
  - intros h [Hn [x Hx]]. congruence.
  - intros h r Hn Hs. congruence.
  - intros h msg Hn. congruence.
  - constructor.
  - constructor.
  - unfold highlights. simpl. by rewrite Nat.sub_diag.
  - constructor.
  - intros h1 h2 r1 r2 x Hn. congruence.
Qed.

Lemma Step_fresh els n i hi m ids i' hi' m' :
  fresh i m -> Step els n i hi m ids i' hi' m' -> fresh i' m'.
Proof.
  intros Hf HS k h Hk Hh.
  destruct (m' !! h) as [rec|] eqn:Hm'; [|done].
  exfalso.
  assert (m !! h = None) as Hm.
  { apply (Hf k); [|done]. pose proof (step_ID _ _ _ _ _ _ _ _ _ HS). lia. }
  destruct (step_keys _ _ _ _ _ _ _ _ _ HS h) as (k' & Hk' & Hh').
  { split; [done|]. by exists rec. }
  assert (k = k') by (by eapply is_handle_inj). lia.
Qed.

Lemma Step_trans els1 els2 n i hi m ids1 i1 hi1 m1 ids2 i2 hi2 m2 :
  Step els1 n i hi m ids1 i1 hi1 m1 ->
  Step els2 n i1 hi1 m1 ids2 i2 hi2 m2 ->
  Step (els1 ++ els2) n i hi m (ids1 ++ ids2) i2 hi2 m2.
Proof.
  intros [A1 A2 A3 A4 A5 A5' A6 Ap A7 A8 A9] [B1 B2 B3 B4 B5 B5' B6 Bp B7 B8 B9].
  assert (flat_map (records m2 n) (ids1 ++ ids2) =
          (flat_map (records m1 n) ids1 ++ flat_map (records m2 n) ids2)%list)
    as Hflat.
  { by rewrite flat_map_app, (flat_map_records_weaken m1 m2). }
  split.
  - lia.
  - lia.
  - by etrans.
  - intros h [Hn Hs]. destruct (m1 !! h) as [rec|] eqn:Hm1.
    + destruct (A4 h) as (k & Hk & Hh); [split; [done|by exists rec]|].
      exists k. split; [lia|done].
    + destruct (B4 h) as (k & Hk & Hh); [by split|].
      exists k. split; [lia|done].
  - intros h r Hn Hs. destruct (m1 !! h) as [rec|] eqn:Hm1.
    + assert (rec = ELEMENT r) as ->.
      { pose proof (lookup_weaken _ _ _ _ Hm1 B3). congruence. }
      destruct (A5 h r Hn Hm1) as ((e & He & Hd) & Hc & Hx). split.
      { exists e. split; [|done]. apply elem_of_app. by left. }
      split.
      * eapply Forall_impl; [exact Hc|]. intros c. by apply added_l.
      * intros x Hr. specialize (Hx x Hr). lia.
    + destruct (B5 h r Hm1 Hs) as ((e & He & Hd) & Hc & Hx). split.
      { exists e. split; [|done]. apply elem_of_app. by right. }
      split.
      * eapply Forall_impl; [exact Hc|]. intros c. by apply added_r.
      * intros x Hr. specialize (Hx x Hr). lia.
  - intros h msg Hn Hs. destruct (m1 !! h) as [rec|] eqn:Hm1.
    + pose proof (lookup_weaken _ _ _ _ Hm1 B3) as Hw.
      apply (A5' h msg Hn). congruence.
    + by apply (B5' h msg Hm1).
  - apply Forall_app. split.
    + eapply Forall_impl; [exact A6|]. intros c. by apply added_l.
    + eapply Forall_impl; [exact B6|]. intros c. by apply added_r.
  - rewrite Hflat. by apply Forall2_app.
  - unfold highlights in *. rewrite Hflat, omap_app, A7, B7.
    replace (hi2 - hi) with ((hi1 - hi) + (hi2 - hi1)) by lia.
    rewrite seq_app. do 2 f_equal. lia.
  - apply Forall_app. split; [|done].
    eapply Forall_impl; [exact A8|]. intros c. by apply within_weaken.
  - intros h1 h2 r1 r2 x Hn1 Hn2 Hs1 Hs2 Hx1 Hx2.
    destruct (m1 !! h1) as [rec1|] eqn:Hm1; destruct (m1 !! h2) as [rec2|] eqn:Hm2.
    + assert (rec1 = ELEMENT r1) as ->.
      { pose proof (lookup_weaken _ _ _ _ Hm1 B3). congruence. }
      assert (rec2 = ELEMENT r2) as ->.
      { pose proof (lookup_weaken _ _ _ _ Hm2 B3). congruence. }
      by eapply A9.
    + assert (rec1 = ELEMENT r1) as ->.
      { pose proof (lookup_weaken _ _ _ _ Hm1 B3). congruence. }
      destruct (A5 h1 r1 Hn1 Hm1) as (_ & _ & Hx).
      destruct (B5 h2 r2 Hm2 Hs2) as (_ & _ & Hy).
      specialize (Hx x Hx1). specialize (Hy x Hx2). lia.
    + assert (rec2 = ELEMENT r2) as ->.
      { pose proof (lookup_weaken _ _ _ _ Hm2 B3). congruence. }
      destruct (A5 h2 r2 Hn2 Hm2) as (_ & _ & Hx).
      destruct (B5 h1 r1 Hm1 Hs1) as (_ & _ & Hy).
      specialize (Hx x Hx2). specialize (Hy x Hx1). lia.
    + by eapply B9.
Qed.

Lemma Step_text n i hi m t :
  fresh i m ->
  Step [] (S n) i hi m [text_handle i] (S i) hi (<[text_handle i := TEXT_NODE t]> m).
Proof.
  intros Hf.
  assert (m !! text_handle i = None) as Hnew.
  { apply (Hf i); [lia|by left]. }
  split.
  - lia.
  - lia.
  - by apply insert_subseteq.
  - intros h [Hn [x Hx]]. exists i. split; [lia|].
    destruct (decide (text_handle i = h)) as [<-|Hne]; [by left|].
    rewrite lookup_insert_ne in Hx by done. congruence.
  - intros h r Hn Hs.
    destruct (decide (text_handle i = h)) as [<-|Hne].
    + rewrite lookup_insert_eq in Hs. discriminate.
    + rewrite lookup_insert_ne in Hs by done. congruence.
  - intros h msg Hn Hs.
    destruct (decide (text_handle i = h)) as [<-|Hne].
    + rewrite lookup_insert_eq in Hs. discriminate.
    + rewrite lookup_insert_ne in Hs by done. congruence.
  - constructor; [|done]. split; [done|]. rewrite lookup_insert_eq. by eexists.
  - cbn [flat_map records]. rewrite lookup_insert_eq. constructor.
  - unfold highlights. cbn [flat_map records].
    rewrite lookup_insert_eq, Nat.sub_diag. done.
  - constructor; [|done]. cbn [within]. by rewrite lookup_insert_eq.
  - intros h1 h2 r1 r2 x Hn1 _ Hs1.
    destruct (decide (text_handle i = h1)) as [<-|Hne].
    + rewrite lookup_insert_eq in Hs1. discriminate.
    + rewrite lookup_insert_ne in Hs1 by done. congruence.
Qed.

Lemma Step_close els n i hi m kids i2 hi1 hi2 m2 e r :
  fresh i m ->
  Step els n i hi1 m kids i2 hi2 m2 ->
  (hi1 = hi /\ highlightIndex r = None) \/
  (hi1 = S hi /\ highlightIndex r = Some hi) ->
  children r = kids ->
  derived e r ->
  Step (e :: els) (S n) i hi m [element_handle i2] (S i2) hi2
       (<[element_handle i2 := ELEMENT r]> m2).
Proof.
  intros Hf HS Hhl Hkids Hd.
  pose proof (Step_fresh _ _ _ _ _ _ _ _ _ Hf HS) as Hf2.
  destruct HS as [A1 A2 A3 A4 A5 A5' A6 Ap A7 A8 A9].
  set (id := element_handle i2).
  assert (m2 !! id = None) as Hnew2.
  { apply (Hf2 i2); [lia|by right]. }
  assert (m !! id = None) as Hnew by (by eapply lookup_weaken_None).
  assert (m2 ⊆ <[id := ELEMENT r]> m2) as Hsub23 by (by apply insert_subseteq).
  assert (flat_map (records (<[id := ELEMENT r]> m2) (S n)) [id] =
          r :: flat_map (records m2 n) kids) as Hflat.
  { cbn [flat_map records]. rewrite lookup_insert_eq, app_nil_r, Hkids.
    by rewrite (flat_map_records_weaken m2). }
  split.
  - lia.
  - lia.
  - by etrans.
  - intros h [Hn [x Hx]].
    destruct (decide (id = h)) as [<-|Hne].
    + exists i2. split; [lia|by right].
    + rewrite lookup_insert_ne in Hx by done.
      destruct (A4 h) as (k & Hk & Hh); [split; [done|by exists x]|].
      exists k. split; [lia|done].
  - intros h r' Hn Hs.
    destruct (decide (id = h)) as [<-|Hne].
    + rewrite lookup_insert_eq in Hs. injection Hs as <-.
      split; [exists e; split; [by left|done]|]. split.
      * rewrite Hkids. eapply Forall_impl; [exact A6|].
        intros c. by apply added_l.
      * intros x Hx. destruct Hhl as [[-> Hr]|[-> Hr]]; [congruence|].
        assert (x = hi) as -> by congruence. lia.
    + rewrite lookup_insert_ne in Hs by done.
      destruct (A5 h r' Hn Hs) as ((e' & He' & Hd') & Hc & Hx). split.
      { exists e'. split; [by right|done]. }
      split.
      * eapply Forall_impl; [exact Hc|]. intros c. by apply added_l.
      * intros x Hr. specialize (Hx x Hr). lia.
  - intros h msg Hn Hs.
    destruct (decide (id = h)) as [<-|Hne].
    + rewrite lookup_insert_eq in Hs. discriminate.
    + rewrite lookup_insert_ne in Hs by done. by apply (A5' h msg Hn).
  - constructor; [|done]. split; [done|]. rewrite lookup_insert_eq. by eexists.
  - rewrite Hflat. by constructor.
  - unfold highlights in *. rewrite Hflat. cbn [omap list_omap].
    fold (omap highlightIndex (flat_map (records m2 n) kids)). rewrite A7.
    destruct Hhl as [[-> ->]|[-> ->]]; [done|].
    replace (hi2 - hi) with (S (hi2 - S hi)) by lia. done.
  - constructor; [|done]. cbn [within]. rewrite lookup_insert_eq, Hkids.
    eapply Forall_impl; [exact A8|]. intros c. by apply within_weaken.
  - intros h1 h2 r1 r2 x Hn1 Hn2 Hs1 Hs2 Hx1 Hx2.
    destruct (decide (id = h1)) as [E1|Hne1];
      destruct (decide (id = h2)) as [E2|Hne2]; [congruence|..].
    + subst h1. rewrite lookup_insert_eq in Hs1. injection Hs1 as <-.
      rewrite lookup_insert_ne in Hs2 by done.
      destruct (A5 h2 r2 Hn2 Hs2) as (_ & _ & Hy). specialize (Hy x Hx2).
      destruct Hhl as [[-> Hr]|[-> Hr]]; [congruence|].
      assert (x = hi) as -> by congruence. lia.
    + subst h2. rewrite lookup_insert_eq in Hs2. injection Hs2 as <-.
      rewrite lookup_insert_ne in Hs1 by done.
      destruct (A5 h1 r1 Hn1 Hs1) as (_ & _ & Hy). specialize (Hy x Hx1).
      destruct Hhl as [[-> Hr]|[-> Hr]]; [congruence|].
      assert (x = hi) as -> by congruence. lia.
    + rewrite lookup_insert_ne in Hs1, Hs2 by done. by eapply A9.
Qed.

(** *** [buildDomTree] satisfies the invariant *)

(** Structural induction on DOM trees. *)
Lemma Node_ind' (P : Node -> Prop) :
  (forall e cs, Forall P cs -> P (ElementNode e cs)) ->
  (forall s, P (TextNode s)) ->
  P OtherNode ->
  forall node, P node.
Proof.
  intros HE HT HO.
  fix IH 1. intros [e cs|s|].
  - apply HE. induction cs as [|c cs IHcs]; constructor; [apply IH|exact IHcs].
  - apply HT.
  - apply HO.
Qed.

(** The classification block of [buildDomTree] (visibility, interactivity,
    highlight index) and its final block (handle, map entry, root). *)
Definition classify (args : Args) (e : Element)
  : Build (option bool * option nat) :=
  if isElementVisible e then
    let interactive := isInteractiveElement e in
    if interactive then
      i <- next_highlightIndex ;;
      (if doHighlightElements args then
         if (focusHighlightIndex args <? 0)%Z
            || (focusHighlightIndex args =? Z.of_nat i)%Z
         then console_log ("Highlighting element: " +:+ toLowerCase (el_tagName e)
                             +:+ "#" +:+ el_id e)
         else ret tt
       else ret tt) ;;;
      ret (Some interactive, Some i)
    else ret (Some interactive, None)
  else ret (None, None).

Definition finish (e : Element) (flags : option bool * option nat)
    (kids : list string) : Build (option string) :=
  n <- next_ID ;;
  let id := element_handle n in
  store id (ELEMENT {| tagName := toLowerCase (el_tagName e);
                       attributes := getElementAttributes e;
                       children := kids;
                       isVisible := isElementVisible e;
                       isInteractive := fst flags;
                       highlightIndex := snd flags |}) ;;;
  (if (toLowerCase (el_tagName e) =? "body")%string
   then set_rootId (Some id) else ret tt) ;;;
  ret (Some id).

Lemma buildDomTree_ElementNode args parentTag e cs depth :
  buildDomTree args parentTag (ElementNode e cs) depth =
  if excluded e then ret None else
    flags <- classify args e ;;
    kids <- (if (depth <? 20)%nat then
               forChildren
                 (fun child => buildDomTree args (Some (toLowerCase (el_tagName e)))
                                 child (S depth)) cs []
             else ret []) ;;
    finish e flags kids.
Proof.
  unfold excluded, has. cbn [buildDomTree existsb].
  destruct (el_id e =? "playwright-highlight-container")%string; [done|].
  cbn [orb]. rewrite orb_false_r, orb_assoc.
  by destruct (_ || _ || _).
Qed.

Lemma classify_spec args e st :
  let res := classify args e st in
  st_ID res.2 = st_ID st /\
  st_map res.2 = st_map st /\
  res.1.1 = (if isElementVisible e then Some (isInteractiveElement e) else None) /\
  ((st_highlightIndex res.2 = st_highlightIndex st /\ res.1.2 = None /\
    isElementVisible e && isInteractiveElement e = false) \/
   (st_highlightIndex res.2 = S (st_highlightIndex st) /\
    res.1.2 = Some (st_highlightIndex st) /\
    isElementVisible e = true /\ isInteractiveElement e = true)).
Proof.
  unfold classify.
  destruct (isElementVisible e); [|cbn; auto 10].
  destruct (isInteractiveElement e); [|cbn; auto 10].
  unfold bind, next_highlightIndex.
  destruct (doHighlightElements args); [|cbn; auto 10].
  destruct (_ || _); cbn; auto 10.
Qed.

Lemma finish_spec e flags kids st :
  let res := finish e flags kids st in
  res.1 = Some (element_handle (st_ID st)) /\
  st_ID res.2 = S (st_ID st) /\
  st_highlightIndex res.2 = st_highlightIndex st /\
  st_map res.2 =
    <[element_handle (st_ID st) :=
        ELEMENT {| tagName := toLowerCase (el_tagName e);
                   attributes := getElementAttributes e;
                   children := kids;
                   isVisible := isElementVisible e;
                   isInteractive := flags.1;
                   highlightIndex := flags.2 |}]> (st_map st).
Proof.
  unfold finish, bind, next_ID, store.
  destruct (_ =? "body")%string; cbn; auto.
Qed.

(** The invariant between two states of the builder. *)
Definition runs (els : list Element) (n : nat) (st : BuildState)
    (ids : list string) (st' : BuildState) : Prop :=
  Step els n (st_ID st) (st_highlightIndex st) (st_map st) ids
       (st_ID st') (st_highlightIndex st') (st_map st').

Definition fresh_state (st : BuildState) : Prop := fresh (st_ID st) (st_map st).

Lemma forChildren_runs (els : Node -> list Element) n visit cs :
  Forall (fun c => forall st, fresh_state st ->
            runs (els c) n st (option_list (visit c st).1) (visit c st).2) cs ->
  forall acc st, fresh_state st ->
    exists ids,
      (forChildren visit cs acc st).1 = (acc ++ ids)%list /\
      runs (flat_map els cs) n st ids (forChildren visit cs acc st).2.
Proof.
  induction 1 as [|c cs Hc _ IH]; intros acc st Hf.
  - exists []. cbn. rewrite app_nil_r. split; [done|apply Step_refl].
  - cbn [forChildren flat_map]. unfold bind.
    specialize (Hc st Hf).
    destruct (visit c st) as [r st1] eqn:Hv. cbn [fst snd] in Hc.
    assert (fresh_state st1) as Hf1 by (by eapply Step_fresh).
    destruct (IH (match r with Some id => (acc ++ [id])%list | None => acc end)
                 st1 Hf1) as (ids & Hids & Hrun).
    exists (option_list r ++ ids)%list. split.
    + rewrite Hids. destruct r; cbn; [by rewrite <- app_assoc|done].
    + by eapply Step_trans.
Qed.

(** The main invariant: from a state whose next handles are new, a call of
    [buildDomTree] at [depth <= 20] records the kept elements of the
    visited tree in document pre-order, in a snapshot of at most
    [21 - depth] levels. *)
Lemma buildDomTree_runs args node :
  forall n depth parentTag st,
    depth + n = 20 ->
    fresh_state st ->
    runs (kept_elements node depth) (S n) st
         (option_list (buildDomTree args parentTag node depth st).1)
         (buildDomTree args parentTag node depth st).2.
Proof.
  induction node as [e cs IH|s|] using Node_ind';
    intros n depth parentTag st Hd Hf.
  - rewrite buildDomTree_ElementNode. cbn [kept_elements].
    destruct (excluded e); [apply Step_refl|].
    unfold bind.
    pose proof (classify_spec args e st) as Hcl.
    destruct (classify args e st) as [flags st1]. cbn [fst snd] in Hcl.
    destruct Hcl as (HI1 & HM1 & Hfl & Hhl).
    assert (fresh_state st1) as Hf1.
    { unfold fresh_state. by rewrite HI1, HM1. }
    assert (exists kids st2,
      (if (depth <? 20)%nat then
         forChildren
           (fun child => buildDomTree args (Some (toLowerCase (el_tagName e)))
                           child (S depth)) cs []
       else ret []) st1 = (kids, st2) /\
      runs (if (depth <? 20)%nat
            then flat_map (fun c => kept_elements c (S depth)) cs
            else []) n st1 kids st2)
      as (kids & st2 & -> & Hrun).
    { destruct (depth <? 20)%nat eqn:Hlt.
      - apply Nat.ltb_lt in Hlt. destruct n as [|n]; [lia|].
        destruct (forChildren_runs (fun c => kept_elements c (S depth)) (S n)
          (fun child => buildDomTree args (Some (toLowerCase (el_tagName e)))
                          child (S depth)) cs) with (acc := @nil string) (st := st1)
          as (ids & Hids & Hrun); [|done|].
        + apply Forall_forall. intros c Hcin st' Hf'.
          rewrite Forall_forall in IH.
          apply (IH c Hcin); [lia|done].
        + eexists _, _. split; [apply surjective_pairing|]. by rewrite Hids in *.
      - exists [], st1. split; [done|]. apply Step_refl. }
    pose proof (finish_spec e flags kids st2) as Hfin.
    destruct (finish e flags kids st2) as [r st3]. cbn [fst snd] in Hfin |- *.
    destruct Hfin as (-> & HI3 & HH3 & HM3).
    unfold runs in *. rewrite HI3, HH3, HM3. cbn [option_list].
    rewrite HI1, HM1 in Hrun.
    eapply Step_close; [done|exact Hrun| |done|].
    + cbn [highlightIndex]. destruct Hhl as [(-> & -> & _)|(-> & -> & _)]; auto.
    + unfold derived.
      cbn -[toLowerCase getElementAttributes isElementVisible isInteractiveElement].
      split; [done|]. split; [done|]. split; [done|]. split; [done|].
      destruct Hhl as [(_ & Hn & Hb)|(_ & Hs & Hv & Hi)]; rewrite ?Hn, ?Hs.
      * split; [intros [? ?]; discriminate|].
        intros [Hv Hi]. rewrite Hv, Hi in Hb. discriminate.
      * split; [done|]. intros _. by eexists.
  - cbn [buildDomTree kept_elements]. destruct (truthy (trim s)); [|apply Step_refl].
    unfold bind, next_ID, store, runs. cbn. by apply Step_text.
  - apply Step_refl.
Qed.

(** *** The snapshot as a whole *)

Lemma fresh_init : fresh_state init_state.
Proof. intros k h _ _. apply lookup_empty. Qed.

(** With a body, the returned map and root come from one traversal that
    starts at depth 0 with an empty map. *)
Lemma snapshot_Step args b :
  let s := buildAdvancedDomSnapshot args {| body := Some b |} in
  exists i k,
    Step (kept_elements b 0) 21 0 0 ∅ (option_list (rootId s)) i k (snap_map s).
Proof.
  pose proof (buildDomTree_runs args b 20 0 None init_state eq_refl fresh_init)
    as Hrun.
  unfold buildAdvancedDomSnapshot. cbn [body].
  destruct (buildDomTree args None b 0 init_state) as [r st] eqn:Hb.
  cbn [fst snd] in Hrun. unfold runs in Hrun. cbn in Hrun.
  exists (st_ID st), (st_highlightIndex st).
  destruct (debugMode args); cbn; exact Hrun.
Qed.

(** Without a body, the map holds the error record only. *)
Lemma snapshot_no_body args :
  let s := buildAdvancedDomSnapshot args {| body := None |} in
  rootId s = Some "root_0" /\
  snap_map s = {[ "root_0" := ERROR "No document.body available" ]}.
Proof. unfold buildAdvancedDomSnapshot. destruct (debugMode args); by cbn. Qed.

Lemma no_body_no_element args h r :
  snap_map (buildAdvancedDomSnapshot args {| body := None |}) !! h
    <> Some (ELEMENT r).
Proof.
  destruct (snapshot_no_body args) as [_ ->]. intros H.
  apply lookup_singleton_Some in H as [_ H]. discriminate.
Qed.

(** Every element record of a snapshot was added by the traversal. *)
Lemma snapshot_record args b h r :
  let s := buildAdvancedDomSnapshot args {| body := Some b |} in
  snap_map s !! h = Some (ELEMENT r) ->
  exists i k,
    Step (kept_elements b 0) 21 0 0 ∅ (option_list (rootId s)) i k (snap_map s) /\
    (exists e, e ∈ kept_elements b 0 /\ derived e r) /\
    Forall (fun c => is_Some (snap_map s !! c)) (children r) /\
    (forall x, highlightIndex r = Some x -> x < k).
Proof.
  intros s Hh. destruct (snapshot_Step args b) as (i & k & HS).
  exists i, k. split; [exact HS|].
  destruct (step_recs _ _ _ _ _ _ _ _ _ HS h r (lookup_empty _) Hh)
    as (He & Hc & Hx).
  split; [done|]. split.
  - eapply Forall_impl; [exact Hc|]. by intros c [_ ?].
  - intros x Hr. specialize (Hx x Hr). lia.
Qed.

(** A node that [buildDomTree] skips: another node type, a text node that
    is empty once trimmed, or an excluded element. *)
Definition dropped (node : Node) : bool :=
  match node with
  | OtherNode => true
  | TextNode s => negb (truthy (trim s))
  | ElementNode e _ => excluded e
  end.

Lemma buildDomTree_dropped args parentTag node depth st :
  dropped node = true ->
  buildDomTree args parentTag node depth st = (None, st).
Proof.
  destruct node as [e cs|s|]; intros Hd.
  - rewrite buildDomTree_ElementNode. cbn in Hd. by rewrite Hd.
  - cbn in *. by destruct (truthy (trim s)).
  - done.
Qed.

Lemma buildDomTree_stored args parentTag node depth st id :
  (buildDomTree args parentTag node depth st).1 = Some id ->
  dropped node = false /\
  is_Some (st_map (buildDomTree args parentTag node depth st).2 !! id).
Proof.
  destruct node as [e cs|s|].
  - rewrite buildDomTree_ElementNode. cbn [dropped].
    destruct (excluded e); [done|]. unfold bind.
    destruct (classify args e st) as [flags st1].
    destruct (_ st1) as [kids st2].
    pose proof (finish_spec e flags kids st2) as Hfin.
    destruct (finish e flags kids st2) as [r st3]. cbn [fst snd] in *.
    destruct Hfin as (-> & _ & _ & ->). intros [= <-].
    split; [done|]. rewrite lookup_insert_eq. by eexists.
  - cbn [buildDomTree dropped]. destruct (truthy (trim s)); [|done].
    unfold bind, next_ID, store. cbn. intros [= <-].
    split; [done|]. rewrite lookup_insert_eq. by eexists.
  - done.
Qed.

(** A sample document: a body holding a text, a button with a label, a
    script, a comment, and a hidden button next to a link inside a div. *)
Definition shown : Style :=
  {| visibility := "visible"; display := "block"; opacity := "1" |}.

Definition hidden : Style :=
  {| visibility := "visible"; display := "none"; opacity := "1" |}.

Definition elem (tag : string) (sty : Style) : Element :=
  {| el_id := EmptyString; el_tagName := tag; el_attributes := [];
     offsetWidth := 10; offsetHeight := 10; el_style := sty;
     el_onclick := false |}.

Definition sample_body : Node :=
  ElementNode (elem "BODY" shown)
    [ TextNode " hi ";
      ElementNode (elem "BUTTON" shown) [TextNode "ok"];
      ElementNode (elem "SCRIPT" shown) [TextNode "var x;"];
      OtherNode;
      ElementNode (elem "DIV" shown)
        [ ElementNode (elem "BUTTON" hidden) [];
          ElementNode (elem "A" shown) [] ] ].

Definition sample_document : Document := {| body := Some sample_body |}.

Definition sample_snapshot : Snapshot :=
  buildAdvancedDomSnapshot default_args sample_document.

Definition sample_root : ElementRecord :=
  {| tagName := "body"; attributes := ∅;
     children := ["text_0"; "element_2"; "element_5"];
     isVisible := true; isInteractive := Some false; highlightIndex := None |}.

Definition sample_hidden_button : ElementRecord :=
  {| tagName := "button"; attributes := ∅; children := [];
     isVisible := false; isInteractive := None; highlightIndex := None |}.

Definition sample_link : ElementRecord :=
  {| tagName := "a"; attributes := ∅; children := [];
     isVisible := true; isInteractive := Some true; highlightIndex := Some 1 |}.

Example sample_snapshot_root :
  rootId sample_snapshot = Some "element_6" /\
  snap_map sample_snapshot !! "element_6" = Some (ELEMENT sample_root).
Proof. split; vm_compute; reflexivity. Qed.

Example sample_snapshot_hidden :
  snap_map sample_snapshot !! "element_3" = Some (ELEMENT sample_hidden_button).
Proof. vm_compute; reflexivity. Qed.

Example sample_snapshot_link :
  snap_map sample_snapshot !! "element_4" = Some (ELEMENT sample_link).
Proof. vm_compute; reflexivity. Qed.

(** C1. Snapshot completeness: in the map returned by
    [buildAdvancedDomSnapshot], every handle listed in the [children] of an
    element record is itself a key of the map.  The mechanism: a call of
    [buildDomTree] that returns a handle has stored that handle's record
    first, and a skipped node (other node type, empty text, excluded
    element) returns no handle and leaves the map as it was. *)
Theorem snapshot_no_dangling_handles (args : Args) :
  (forall document h r c,
     snap_map (buildAdvancedDomSnapshot args document) !! h = Some (ELEMENT r) ->
     c ∈ children r ->
     is_Some (snap_map (buildAdvancedDomSnapshot args document) !! c)) /\
  (forall parentTag node depth st id,
     (buildDomTree args parentTag node depth st).1 = Some id ->
     is_Some (st_map (buildDomTree args parentTag node depth st).2 !! id)) /\
  (forall parentTag node depth st,
     dropped node = true ->
     buildDomTree args parentTag node depth st = (None, st)).
Proof.
  split; [|split].
  - intros [[b|]] h r c Hh Hc.
    + destruct (snapshot_record args b h r Hh) as (_ & _ & _ & _ & Hall & _).
      rewrite Forall_forall in Hall. by apply Hall.
    + by apply no_body_no_element in Hh.
  - intros parentTag node depth st id Hid.
    by apply buildDomTree_stored in Hid as [_ ?].
  - intros. by apply buildDomTree_dropped.
Qed.

Lemma snapshot_no_dangling_handles_witness :
  snap_map sample_snapshot !! "element_6" = Some (ELEMENT sample_root) /\
  "element_5" ∈ children sample_root /\
  is_Some (snap_map sample_snapshot !! "element_5").
Proof.
  assert (snap_map sample_snapshot !! "element_6" = Some (ELEMENT sample_root))
    as H1 by (vm_compute; reflexivity).
  assert ("element_5" ∈ children sample_root) as H2.
  { cbn. apply list_elem_of_In. cbn. auto. }
  split; [exact H1|]. split; [exact H2|].
  exact (proj1 (snapshot_no_dangling_handles default_args)
           sample_document "element_6" sample_root "element_5" H1 H2).
Defined.

(** *** Highlight indices *)

Lemma derived_shape e r :
  derived e r ->
  (is_Some (highlightIndex r) <->
   isVisible r = true /\ isInteractive r = Some true) /\
  (isVisible r = false -> isInteractive r = None /\ highlightIndex r = None) /\
  (isVisible r = true -> exists b, isInteractive r = Some b).
Proof.
  intros (_ & _ & Hv & Hi & Hh). rewrite Hv, Hi.
  destruct (isElementVisible e) eqn:Ev.
  - split; [|split].
    + rewrite Hh. split; [by intros [_ ->]|]. by intros [_ [= ->]].
    + done.
    + intros _. by eexists.
  - split; [|split].
    + rewrite Hh. split; intros [? ?]; done.
    + intros _. split; [done|].
      destruct (highlightIndex r) as [x|]; [|done].
      destruct Hh as [Hh _]. destruct Hh as [? _]; [by exists x|done].
    + done.
Qed.

Lemma records_lookup m n h r :
  r ∈ records m n h -> exists h', m !! h' = Some (ELEMENT r).
Proof.
  revert h. induction n as [|n IH]; intros h; cbn [records].
  - by intros ?%elem_of_nil.
  - destruct (m !! h) as [[r'| |]|] eqn:Hm; try by intros ?%elem_of_nil.
    intros [->|Hin]%elem_of_cons; [by exists h|].
    apply list_elem_of_In, in_flat_map in Hin as (c & _ & Hin).
    apply list_elem_of_In in Hin. by eapply IH.
Qed.

Lemma display_none_invisible e :
  display (el_style e) = "none" -> isElementVisible e = false.
Proof.
  intros H. unfold isElementVisible. rewrite H. cbn.
  by rewrite andb_false_r.
Qed.

(** The elements the traversal of a document records, in document
    pre-order. *)
Definition kept_of (document : Document) : list Element :=
  match body document with
  | Some b => kept_elements b 0
  | None => []
  end.

(** The element records of a snapshot in the pre-order of its own tree,
    from the root handle down. *)
Definition preorder (s : Snapshot) : list ElementRecord :=
  flat_map (records (snap_map s) 21) (option_list (rootId s)).

(** C2. Highlight indices.  Walking a snapshot from its root in pre-order
    meets, one for one, the records of the document's kept elements in
    document pre-order, and the highlight indices met on the way are
    exactly 0, 1, ..., k-1 in this order.  A record has a highlight index
    exactly when it is visible and interactive (as decided on its
    element); every index is below [k] and no two records share one; every
    index below [k] is held by a record.  A record that fails the
    visibility test, such as one of an element with [display: none]
    whatever its tag, has neither [isInteractive = true] nor a highlight
    index. *)
Theorem highlight_indices_dense_preorder (args : Args) (document : Document) :
  let s := buildAdvancedDomSnapshot args document in
  exists k,
    Forall2 derived (kept_of document) (preorder s) /\
    omap highlightIndex (preorder s) = seq 0 k /\
    (forall h r, snap_map s !! h = Some (ELEMENT r) ->
       (is_Some (highlightIndex r) <->
        isVisible r = true /\ isInteractive r = Some true) /\
       (exists e, e ∈ kept_of document /\ derived e r) /\
       (forall x, highlightIndex r = Some x -> x < k)) /\
    (forall h1 h2 r1 r2 x,
       snap_map s !! h1 = Some (ELEMENT r1) ->
       snap_map s !! h2 = Some (ELEMENT r2) ->
       highlightIndex r1 = Some x -> highlightIndex r2 = Some x -> h1 = h2) /\
    (forall x, x < k ->
       exists h r, snap_map s !! h = Some (ELEMENT r) /\
                   highlightIndex r = Some x) /\
    (forall h r, snap_map s !! h = Some (ELEMENT r) ->
       isVisible r = false ->
       isInteractive r <> Some true /\ highlightIndex r = None) /\
    (forall e r, derived e r -> display (el_style e) = "none" ->
       isVisible r = false /\ isInteractive r <> Some true /\
       highlightIndex r = None).
Proof.
  destruct document as [[b|]]; intros s.
  - destruct (snapshot_Step args b) as (i & k & HS). fold s in HS.
    exists k. unfold kept_of, preorder. cbn [body].
    pose proof (step_walk _ _ _ _ _ _ _ _ _ HS) as Hwalk.
    unfold highlights in Hwalk. rewrite Nat.sub_0_r in Hwalk.
    split; [exact (step_pre _ _ _ _ _ _ _ _ _ HS)|].
    split; [exact Hwalk|].
    split; [|split; [|split; [|split]]].
    + intros h r Hh.
      destruct (step_recs _ _ _ _ _ _ _ _ _ HS h r (lookup_empty _) Hh)
        as ((e & He & Hd) & _ & Hx).
      split; [by apply (derived_shape e)|]. split; [by exists e|].
      intros x Hr. specialize (Hx x Hr). lia.
    + intros h1 h2 r1 r2 x H1 H2.
      by apply (step_uniq _ _ _ _ _ _ _ _ _ HS h1 h2 r1 r2 x).
    + intros x Hx.
      assert (x ∈ seq 0 k) as Hin by (apply elem_of_seq; lia).
      rewrite <- Hwalk in Hin.
      apply list_elem_of_omap in Hin as (r & Hr & Hrx).
      apply list_elem_of_In, in_flat_map in Hr as (c & _ & Hr).
      apply list_elem_of_In, records_lookup in Hr as (h & Hh).
      by exists h, r.
    + intros h r Hh Hv.
      destruct (step_recs _ _ _ _ _ _ _ _ _ HS h r (lookup_empty _) Hh)
        as ((e & He & Hd) & _ & _).
      destruct (derived_shape e r Hd) as (_ & Hinv & _).
      destruct (Hinv Hv) as [-> ->]. done.
    + intros e r Hd Hnone.
      assert (isVisible r = false) as Hv.
      { destruct Hd as (_ & _ & -> & _). by apply display_none_invisible. }
      destruct (derived_shape e r Hd) as (_ & Hinv & _).
      destruct (Hinv Hv) as [-> ->]. done.
  - exists 0. destruct (snapshot_no_body args) as [Hroot Hmap]. fold s in Hroot, Hmap.
    unfold kept_of, preorder. cbn [body]. rewrite Hroot, Hmap.
    assert (flat_map (records {[ "root_0" := ERROR "No document.body available" ]} 21)
              (option_list (Some "root_0")) = []) as ->.
    { change (option_list (Some "root_0")) with ["root_0"].
      rewrite (flat_map_singleton (records _ 21)).
      by rewrite (records_S _ 20), lookup_singleton_eq. }
    split; [constructor|]. split; [done|].
    split; [|split; [|split; [|split]]].
    + intros h r [_ H]%lookup_singleton_Some. discriminate.
    + intros h1 h2 r1 r2 x [_ H]%lookup_singleton_Some. discriminate.
    + intros x Hx. lia.
    + intros h r [_ H]%lookup_singleton_Some. discriminate.
    + intros e r Hd Hnone.
      assert (isVisible r = false) as Hv.
      { destruct Hd as (_ & _ & -> & _). by apply display_none_invisible. }
      destruct (derived_shape e r Hd) as (_ & Hinv & _).
      destruct (Hinv Hv) as [-> ->]. done.
Qed.

Lemma highlight_indices_dense_preorder_witness :
  omap highlightIndex (preorder sample_snapshot) = [0; 1] /\
  snap_map sample_snapshot !! "element_3" = Some (ELEMENT sample_hidden_button) /\
  isVisible sample_hidden_button = false /\
  isInteractive sample_hidden_button <> Some true /\
  highlightIndex sample_hidden_button = None.
Proof.
  destruct (highlight_indices_dense_preorder default_args sample_document)
    as (k & _ & Hseq & _ & _ & _ & Hgate & _).
  assert (snap_map sample_snapshot !! "element_3"
          = Some (ELEMENT sample_hidden_button)) as H3
    by (vm_compute; reflexivity).
  split; [vm_compute; reflexivity|].
  split; [exact H3|]. split; [reflexivity|].
  exact (Hgate "element_3" sample_hidden_button H3 eq_refl).
Defined.

(** C10. Shape of the records.  A recorded element that fails the
    visibility test has no [isInteractive] and no [highlightIndex] property
    at all, while a visible one always carries an [isInteractive] boolean;
    both shapes occur in one snapshot. *)
Theorem invisible_records_lack_fields :
  (forall args document h r,
     snap_map (buildAdvancedDomSnapshot args document) !! h = Some (ELEMENT r) ->
     (isVisible r = false ->
      isInteractive r = None /\ highlightIndex r = None) /\
     (isVisible r = true -> exists b, isInteractive r = Some b)) /\
  (exists args document h1 r1 h2 r2,
     snap_map (buildAdvancedDomSnapshot args document) !! h1 = Some (ELEMENT r1) /\
     snap_map (buildAdvancedDomSnapshot args document) !! h2 = Some (ELEMENT r2) /\
     isVisible r1 = false /\ isInteractive r1 = None /\
     highlightIndex r1 = None /\
     isVisible r2 = true /\ isInteractive r2 = Some true).
Proof.
  split.
  - intros args [[b|]] h r Hh.
    + destruct (snapshot_record args b h r Hh) as (_ & _ & _ & (e & _ & Hd) & _).
      by destruct (derived_shape e r Hd) as (_ & ? & ?).
    + by apply no_body_no_element in Hh.
  - exists default_args, sample_document, "element_3", sample_hidden_button,
           "element_4", sample_link.
    repeat split; vm_compute; reflexivity.
Qed.

Lemma invisible_records_lack_fields_witness :
  snap_map sample_snapshot !! "element_3" = Some (ELEMENT sample_hidden_button) /\
  isVisible sample_hidden_button = false /\
  isInteractive sample_hidden_button = None /\
  highlightIndex sample_hidden_button = None.
Proof.
  assert (snap_map sample_snapshot !! "element_3"
          = Some (ELEMENT sample_hidden_button)) as H3
    by (vm_compute; reflexivity).
  split; [exact H3|]. split; [reflexivity|].
  exact (proj1 (proj1 invisible_records_lack_fields
                  default_args sample_document "element_3"
                  sample_hidden_button H3) eq_refl).
Defined.

(** *** The depth bound *)

(** [h'] is reached from [h] by following [children] entries [k] times. *)
Inductive reach (m : gmap string NodeRecord) : string -> nat -> string -> Prop :=
| reach_here h : reach m h 0 h
| reach_child h r c k h' :
    m !! h = Some (ELEMENT r) -> c ∈ children r -> reach m c k h' ->
    reach m h (S k) h'.

Lemma within_reach m h k h' :
  reach m h k h' -> forall n, within m n h -> k < n.
Proof.
  induction 1 as [h|h r c k h' Hh Hc _ IH]; intros [|n] Hw; try done.
  - lia.
  - cbn [within] in Hw. rewrite Hh in Hw. rewrite Forall_forall in Hw.
    specialize (IH n (Hw c Hc)). lia.
Qed.

Lemma buildDomTree_kept args parentTag node depth st :
  dropped node = false ->
  is_Some (buildDomTree args parentTag node depth st).1.
Proof.
  destruct node as [e cs|s|]; intros Hd.
  - rewrite buildDomTree_ElementNode. cbn in Hd. rewrite Hd. unfold bind.
    destruct (classify args e st) as [flags st1].
    destruct (_ st1) as [kids st2].
    destruct (finish_spec e flags kids st2) as (-> & _). by eexists.
  - cbn in *. destruct (truthy (trim s)); [|done].
    unfold bind, next_ID, store. cbn. by eexists.
  - done.
Qed.

(** The loop appends one handle per child that is not skipped. *)
Lemma forChildren_length args parentTag depth cs :
  forall acc st,
    length (forChildren (fun child => buildDomTree args parentTag child depth)
              cs acc st).1
    = length acc + length (filter (fun c => negb (dropped c)) cs).
Proof.
  induction cs as [|c cs IH]; intros acc st.
  - cbn. lia.
  - cbn [forChildren]. rewrite filter_cons. unfold bind.
    destruct (dropped c) eqn:Hd; cbn [negb].
    + rewrite (buildDomTree_dropped _ _ _ _ _ Hd). rewrite IH.
      destruct (decide (Is_true false)) as [[]|_]. done.
    + pose proof (buildDomTree_kept args parentTag c depth st Hd) as [id Hid].
      destruct (buildDomTree args parentTag c depth st) as [r st1].
      cbn in Hid. subst r. rewrite IH.
      destruct (decide (Is_true true)) as [_|[]]; [|done].
      rewrite length_app. cbn. lia.
Qed.

(** [k + 1] nested [div] elements. *)
Fixpoint nested (k : nat) : Node :=
  match k with
  | 0 => ElementNode (elem "DIV" shown) []
  | S k' => ElementNode (elem "DIV" shown) [nested k']
  end.

(** A document nested 30 levels deep below its body. *)
Definition deep_document : Document :=
  {| body := Some (ElementNode (elem "BODY" shown) [nested 29]) |}.

Definition leaf_record : ElementRecord :=
  {| tagName := "div"; attributes := ∅; children := [];
     isVisible := true; isInteractive := Some false; highlightIndex := None |}.

(** C4. Depth bound.  At depth 20 or more [buildDomTree] does not visit
    the children of an element: it stores one record, with an empty
    [children] list, and nothing else.  Below depth 20 it visits them all:
    the record lists one handle per child that is not skipped.  Hence in a
    snapshot no handle is more than 20 [children] steps away from the
    root; a document nested 30 levels deep below its body yields 21
    records, the deepest with no children. *)
Theorem depth_bound_20 (args : Args) :
  (forall parentTag e cs depth st,
     excluded e = false -> 20 <= depth ->
     let res := buildDomTree args parentTag (ElementNode e cs) depth st in
     exists r,
       res.1 = Some (element_handle (st_ID st)) /\
       st_ID res.2 = S (st_ID st) /\
       st_map res.2 = <[element_handle (st_ID st) := ELEMENT r]> (st_map st) /\
       children r = []) /\
  (forall parentTag e cs depth st,
     excluded e = false -> depth < 20 ->
     let res := buildDomTree args parentTag (ElementNode e cs) depth st in
     exists id r,
       res.1 = Some id /\ st_map res.2 !! id = Some (ELEMENT r) /\
       length (children r) = length (filter (fun c => negb (dropped c)) cs)) /\
  (forall document root k h,
     rootId (buildAdvancedDomSnapshot args document) = Some root ->
     reach (snap_map (buildAdvancedDomSnapshot args document)) root k h ->
     k <= 20) /\
  size (snap_map (buildAdvancedDomSnapshot default_args deep_document)) = 21 /\
  snap_map (buildAdvancedDomSnapshot default_args deep_document) !! "element_0"
    = Some (ELEMENT leaf_record).
Proof.
  split; [|split; [|split; [|split]]].
  - intros parentTag e cs depth st Hex Hd res. subst res.
    rewrite buildDomTree_ElementNode, Hex. unfold bind.
    pose proof (classify_spec args e st) as Hcl.
    destruct (classify args e st) as [flags st1]. cbn [fst snd] in Hcl.
    destruct Hcl as (HI1 & HM1 & _).
    assert ((depth <? 20)%nat = false) as -> by (apply Nat.ltb_ge; lia).
    cbn [ret].
    pose proof (finish_spec e flags [] st1) as Hfin.
    destruct (finish e flags [] st1) as [r st3]. cbn [fst snd] in Hfin |- *.
    destruct Hfin as (-> & -> & _ & ->). rewrite HI1, HM1.
    eexists. split; [done|]. split; [done|]. split; [done|]. done.
  - intros parentTag e cs depth st Hex Hd res. subst res.
    rewrite buildDomTree_ElementNode, Hex. unfold bind.
    destruct (classify args e st) as [flags st1].
    assert ((depth <? 20)%nat = true) as -> by (apply Nat.ltb_lt; lia).
    pose proof (forChildren_length args (Some (toLowerCase (el_tagName e)))
                  (S depth) cs [] st1) as Hlen.
    destruct (forChildren _ cs [] st1) as [kids st2]. cbn [fst snd] in Hlen.
    pose proof (finish_spec e flags kids st2) as Hfin.
    destruct (finish e flags kids st2) as [r st3]. cbn [fst snd] in Hfin |- *.
    destruct Hfin as (-> & _ & _ & ->).
    eexists _, _. split; [done|]. rewrite lookup_insert_eq. split; [done|].
    cbn [children]. rewrite Hlen. done.
  - intros [[b|]] root k h Hroot Hreach.
    + destruct (snapshot_Step args b) as (i & x & HS).
      pose proof (step_within _ _ _ _ _ _ _ _ _ HS) as Hw.
      rewrite Hroot in Hw. cbn [option_list] in Hw.
      apply Forall_cons in Hw as [Hw _].
      pose proof (within_reach _ _ _ _ Hreach 21 Hw). lia.
    + destruct (snapshot_no_body args) as [_ Hmap].
      destruct Hreach as [h|h r c k h' Hh _ _]; [lia|].
      rewrite Hmap in Hh. apply lookup_singleton_Some in Hh as [_ Hh].
      discriminate.
  - vm_compute. reflexivity.
  - vm_compute. reflexivity.
Qed.

Lemma depth_bound_20_witness :
  exists r,
    (buildDomTree default_args None (nested 3) 20 init_state).1
      = Some "element_0" /\
    st_ID (buildDomTree default_args None (nested 3) 20 init_state).2 = 1 /\
    st_map (buildDomTree default_args None (nested 3) 20 init_state).2
      = <["element_0" := ELEMENT r]> ∅ /\
    children r = [].
Proof.
  exact (proj1 (depth_bound_20 default_args) None (elem "DIV" shown)
           [nested 2] 20 init_state eq_refl (le_n 20)).
Defined.

(** *** Metrics *)

Definition debug_args : Args :=
  {| doHighlightElements := false; focusHighlightIndex := (-1)%Z;
     viewportExpansion := 0%Z; debugMode := true |}.

(** Whatever the traversal did, the metrics returned in debug mode are the
    zeros they were initialised with. *)
Lemma perfMetrics_constant args document :
  perfMetrics (buildAdvancedDomSnapshot args document) =
  if debugMode args then
    Some {| nodeMetrics := {| totalNodes := 0; processedNodes := 0;
                              skippedNodes := 0 |} |}
  else None.
Proof. unfold buildAdvancedDomSnapshot. by destruct (debugMode args). Qed.

(** C8. Metrics in debug mode.  On the sample document the traversal keeps
    seven nodes in the map (and skips a script and a comment), yet
    [perfMetrics.nodeMetrics] reports 0 total, 0 processed and 0 skipped
    nodes: the counters are never incremented. *)
Theorem perfMetrics_not_counted :
  size (snap_map (buildAdvancedDomSnapshot debug_args sample_document)) = 7 /\
  perfMetrics (buildAdvancedDomSnapshot debug_args sample_document) =
    Some {| nodeMetrics := {| totalNodes := 0; processedNodes := 0;
                              skippedNodes := 0 |} |}.
Proof. split; vm_compute; reflexivity. Qed.

(** *** Text records *)

Lemma whiteSpaceLen_app s y k :
  whiteSpaceLen s = S k -> whiteSpaceLen (s +:+ y) = S k.
Proof.
  destruct s as [|c1 [|c2 [|c3 s]]]; [done|..];
    destruct y as [|d1 [|d2 y]]; cbv [String.append whiteSpaceLen];
    repeat case_match; congruence.
Qed.

Lemma whiteSpaceLen_length s : whiteSpaceLen s <= String.length s.
Proof.
  destruct s as [|c1 [|c2 [|c3 s]]]; unfold whiteSpaceLen;
    repeat case_match; cbn; lia.
Qed.

Lemma dropWhiteSpace_clean s :
  forall skip, whiteSpaceLen (dropWhiteSpace skip s) = 0.
Proof.
  induction s as [|c s IH]; intros skip; [done|].
  cbn [dropWhiteSpace]. destruct skip as [|k]; [|apply IH].
  destruct (whiteSpaceLen (String c s)) eqn:E; [done|apply IH].
Qed.

Lemma trimStart_fixed s : whiteSpaceLen s = 0 -> trimStart s = s.
Proof.
  destruct s as [|c s]; [done|]. unfold trimStart. cbn [dropWhiteSpace].
  by intros ->.
Qed.

(** [s] splits into [trimEnd s] and white space. *)
Lemma trimEnd_split s :
  exists y, s = trimEnd s +:+ y /\ trimStart y = EmptyString.
Proof.
  induction s as [|c s (y & Hs & Hy)]; [by exists EmptyString|].
  cbn [trimEnd]. destruct (trimStart (String c s)) eqn:E.
  - by exists (String c s).
  - exists y. split; [|done].
    change (String c (trimEnd s) +:+ y) with (String c (trimEnd s +:+ y)).
    by rewrite <- Hs.
Qed.

Lemma dropWhiteSpace_app s y :
  trimStart y = EmptyString ->
  forall skip,
    skip <= String.length s ->
    dropWhiteSpace skip s = EmptyString ->
    dropWhiteSpace skip (s +:+ y) = EmptyString.
Proof.
  intros Hy. induction s as [|c s IH]; intros skip Hlen.
  - cbn in Hlen. assert (skip = 0) as -> by lia. done.
  - change (String c s +:+ y) with (String c (s +:+ y)).
    cbn [dropWhiteSpace String.length] in *.
    destruct skip as [|k]; [|apply IH; lia].
    change (String c (s +:+ y)) with (String c s +:+ y).
    pose proof (whiteSpaceLen_length (String c s)) as Hl.
    destruct (whiteSpaceLen (String c s)) as [|k] eqn:E; [done|].
    rewrite (whiteSpaceLen_app _ y k E). apply IH. cbn in Hl. lia.
Qed.

Lemma trimEnd_idempotent s : trimEnd (trimEnd s) = trimEnd s.
Proof.
  induction s as [|c s IH]; [done|].
  cbn [trimEnd]. destruct (trimStart (String c s)) eqn:E; [done|].
  cbn [trimEnd]. rewrite IH.
  destruct (trimStart (String c (trimEnd s))) eqn:E'; [|done].
  destruct (trimEnd_split s) as (y & Hs & Hy).
  pose proof (dropWhiteSpace_app (String c (trimEnd s)) y Hy 0
                ltac:(lia) E') as H.
  change (String c (trimEnd s) +:+ y) with (String c (trimEnd s +:+ y)) in H.
  rewrite <- Hs in H.
  unfold trimStart in E. by rewrite H in E.
Qed.

Lemma trimEnd_clean s : whiteSpaceLen s = 0 -> whiteSpaceLen (trimEnd s) = 0.
Proof.
  intros Hs. destruct (trimEnd_split s) as (y & Hsplit & _).
  destruct (whiteSpaceLen (trimEnd s)) as [|k] eqn:E; [done|].
  rewrite Hsplit, (whiteSpaceLen_app _ y k E) in Hs. done.
Qed.

Lemma trim_idempotent s : trim (trim s) = trim s.
Proof.
  unfold trim.
  rewrite (trimStart_fixed (trimEnd (trimStart s))).
  - apply trimEnd_idempotent.
  - apply trimEnd_clean, dropWhiteSpace_clean.
Qed.

(** A no-break space (U+00A0), an em space (U+2003) and an e with acute
    accent (U+00E9). *)
Definition nbsp : string := String "194" (String "160" EmptyString).

Definition emsp : string :=
  String "226" (String "128" (String "131" EmptyString)).

Definition eacute : string := String "195" (String "169" EmptyString).

Example trim_beyond_ascii :
  trim (nbsp +:+ " hi" +:+ emsp +:+ " ") = "hi" /\
  trim (emsp +:+ nbsp) = EmptyString /\
  trim (" caf" +:+ eacute +:+ nbsp) = "caf" +:+ eacute.
Proof. repeat split. Qed.

Lemma truthy_nonempty s : truthy s = true -> s <> EmptyString.
Proof. intros H ->. done. Qed.

(** Whatever holds of every record [buildDomTree] can store, and of the
    records of the map it starts from, holds of the records of the map it
    ends with. *)
Lemma buildDomTree_records (P : NodeRecord -> Prop) args node :
  (forall s p, truthy (trim s) = true ->
     P (TEXT_NODE {| text := trim s; parentElement := p |})) ->
  (forall e kids flags, excluded e = false ->
     P (ELEMENT {| tagName := toLowerCase (el_tagName e);
                   attributes := getElementAttributes e;
                   children := kids;
                   isVisible := isElementVisible e;
                   isInteractive := flags.1;
                   highlightIndex := flags.2 |})) ->
  forall parentTag depth st,
    map_Forall (fun _ => P) (st_map st) ->
    map_Forall (fun _ => P) (st_map (buildDomTree args parentTag node depth st).2).
Proof.
  intros HT HE.
  induction node as [e cs IH|s|] using Node_ind'; intros parentTag depth st Hst.
  - rewrite buildDomTree_ElementNode.
    destruct (excluded e) eqn:Hex; [done|]. unfold bind.
    pose proof (classify_spec args e st) as Hcl.
    destruct (classify args e st) as [flags st1]. cbn [fst snd] in Hcl.
    destruct Hcl as (_ & HM1 & _).
    assert (forall acc st0, map_Forall (fun _ => P) (st_map st0) ->
      map_Forall (fun _ => P)
        (st_map (forChildren
           (fun child => buildDomTree args (Some (toLowerCase (el_tagName e)))
                           child (S depth)) cs acc st0).2)) as Hloop.
    { clear Hst HM1. induction IH as [|c cs Hc _ IHcs]; intros acc st0 H0; [done|].
      cbn [forChildren]. unfold bind.
      specialize (Hc (Some (toLowerCase (el_tagName e))) (S depth) st0 H0).
      destruct (buildDomTree _ _ c _ st0) as [r st'].
      by apply IHcs. }
    assert (map_Forall (fun _ => P) (st_map st1)) as H1 by (by rewrite HM1).
    assert (exists kids st2,
      (if (depth <? 20)%nat then
         forChildren
           (fun child => buildDomTree args (Some (toLowerCase (el_tagName e)))
                           child (S depth)) cs []
       else ret []) st1 = (kids, st2) /\
      map_Forall (fun _ => P) (st_map st2)) as (kids & st2 & -> & H2).
    { destruct (depth <? 20)%nat.
      - eexists _, _. split; [apply surjective_pairing|]. by apply Hloop.
      - by exists [], st1. }
    pose proof (finish_spec e flags kids st2) as Hfin.
    destruct (finish e flags kids st2) as [r st3]. cbn [fst snd] in Hfin |- *.
    destruct Hfin as (_ & _ & _ & ->).
    apply map_Forall_insert_2; [by apply HE|done].
  - cbn [buildDomTree]. destruct (truthy (trim s)) eqn:Ht; [|done].
    unfold bind, next_ID, store. cbn.
    apply map_Forall_insert_2; [by apply HT|done].
  - done.
Qed.

(** X1.  Text records.  Every text record of a snapshot holds a non-empty
    text that is already trimmed, and every element record a tag that is
    none of script, style and noscript. *)
Theorem snapshot_text_trimmed (args : Args) (document : Document)
    (h : string) :
  match snap_map (buildAdvancedDomSnapshot args document) !! h with
  | Some (TEXT_NODE t) => text t <> EmptyString /\ trim (text t) = text t
  | Some (ELEMENT r) =>
      tagName r <> "script" /\ tagName r <> "style" /\ tagName r <> "noscript"
  | _ => True
  end.
Proof.
  set (P := fun rec =>
    match rec with
    | TEXT_NODE t => text t <> EmptyString /\ trim (text t) = text t
    | ELEMENT r =>
        tagName r <> "script" /\ tagName r <> "style" /\ tagName r <> "noscript"
    | ERROR _ => True
    end).
  assert (map_Forall (fun _ => P)
            (snap_map (buildAdvancedDomSnapshot args document))) as Hall.
  { destruct document as [[b|]].
    - assert (map_Forall (fun _ => P)
                (st_map (buildDomTree args None b 0 init_state).2)) as Hb.
      { apply buildDomTree_records.
        - intros s p Ht. split; [by apply truthy_nonempty|apply trim_idempotent].
        - intros e kids flags Hex. cbn [P tagName].
          unfold excluded in Hex. apply orb_false_elim in Hex as [_ Hex].
          unfold has in Hex. cbn [existsb] in Hex.
          repeat (apply orb_false_elim in Hex as [? Hex]).
          repeat split; intros Heq; rewrite Heq in *; discriminate.
        - apply map_Forall_empty. }
      unfold buildAdvancedDomSnapshot. cbn [body].
      destruct (buildDomTree args None b 0 init_state) as [r st].
      by destruct (debugMode args).
    - destruct (snapshot_no_body args) as [_ ->].
      by apply map_Forall_singleton. }
  destruct (snap_map _ !! h) as [rec|] eqn:Hh; [|done].
  specialize (Hall h rec Hh). by destruct rec.
Qed.

(** *** What the traversal never looks at *)

(** The document without the subtrees the traversal skips: the children
    that are dropped (other node types, empty texts, excluded elements)
    and everything below depth 20. *)
Fixpoint prune (node : Node) (depth : nat) : Node :=
  match node with
  | ElementNode e cs =>
      ElementNode e
        (if (depth <? 20)%nat then
           (fix go (l : list Node) : list Node :=
              match l with
              | [] => []
              | c :: l' => if dropped c then go l' else prune c (S depth) :: go l'
              end) cs
         else [])
  | other => other
  end.

Definition prune_children (depth : nat) : list Node -> list Node :=
  fix go (l : list Node) : list Node :=
    match l with
    | [] => []
    | c :: l' => if dropped c then go l' else prune c (S depth) :: go l'
    end.

Lemma prune_ElementNode e cs depth :
  prune (ElementNode e cs) depth =
  ElementNode e (if (depth <? 20)%nat then prune_children depth cs else []).
Proof. reflexivity. Qed.

Lemma buildDomTree_prune args node :
  forall parentTag depth st,
    buildDomTree args parentTag (prune node depth) depth st =
    buildDomTree args parentTag node depth st.
Proof.
  induction node as [e cs IH|s|] using Node_ind'; intros parentTag depth st;
    [|done..].
  rewrite prune_ElementNode, !buildDomTree_ElementNode.
  destruct (excluded e); [done|]. unfold bind.
  destruct (classify args e st) as [flags st1].
  destruct (depth <? 20)%nat eqn:Hd.
  - assert (forall acc st0,
      forChildren
        (fun child => buildDomTree args (Some (toLowerCase (el_tagName e)))
                        child (S depth)) (prune_children depth cs) acc st0 =
      forChildren
        (fun child => buildDomTree args (Some (toLowerCase (el_tagName e)))
                        child (S depth)) cs acc st0) as ->; [|done].
    induction IH as [|c cs Hc _ IHcs]; intros acc st0; [done|].
    cbn [prune_children forChildren]. destruct (dropped c) eqn:Hdrop.
    + unfold bind. rewrite (buildDomTree_dropped _ _ _ _ _ Hdrop).
      apply IHcs.
    + cbn [forChildren]. unfold bind. rewrite Hc.
      destruct (buildDomTree _ _ c _ st0) as [r st']. apply IHcs.
  - done.
Qed.

(** X2.  Skipped parts.  Two documents whose bodies differ only in what the
    traversal skips (dropped children with their subtrees, and everything
    below depth 20) have the same snapshot. *)
Theorem snapshot_ignores_skipped (args : Args) (b1 b2 : Node) :
  prune b1 0 = prune b2 0 ->
  buildAdvancedDomSnapshot args {| body := Some b1 |} =
  buildAdvancedDomSnapshot args {| body := Some b2 |}.
Proof.
  intros Hp. unfold buildAdvancedDomSnapshot. cbn [body].
  rewrite <- (buildDomTree_prune args b1 None 0 init_state).
  rewrite <- (buildDomTree_prune args b2 None 0 init_state).
  by rewrite Hp.
Qed.

(** The sample body with another script, one more comment, a style sheet
    and two texts of white space only. *)
Definition sample_body_noisy : Node :=
  ElementNode (elem "BODY" shown)
    [ TextNode " hi ";
      OtherNode;
      TextNode (nbsp +:+ emsp);
      ElementNode (elem "BUTTON" shown) [TextNode "ok"; TextNode "   "];
      ElementNode (elem "SCRIPT" shown) [TextNode "let y = 2;"];
      ElementNode (elem "STYLE" shown) [TextNode "p { margin: 0 }"];
      ElementNode (elem "DIV" shown)
        [ ElementNode (elem "BUTTON" hidden) [];
          ElementNode (elem "A" shown) [] ] ].

Lemma snapshot_ignores_skipped_witness :
  buildAdvancedDomSnapshot default_args {| body := Some sample_body |} =
  buildAdvancedDomSnapshot default_args {| body := Some sample_body_noisy |}.
Proof. apply snapshot_ignores_skipped. reflexivity. Defined.

(** *** Size of the map, keys and root *)

(** The number of nodes the traversal keeps when it starts at [depth]. *)
Fixpoint kept_nodes (node : Node) (depth : nat) : nat :=
  match node with
  | ElementNode e cs =>
      if excluded e then 0
      else S (if (depth <? 20)%nat
              then list_sum (List.map (fun c => kept_nodes c (S depth)) cs)
              else 0)
  | TextNode s => if truthy (trim s) then 1 else 0
  | OtherNode => 0
  end.

Lemma list_sum_cons x l : list_sum (x :: l) = x + list_sum l.
Proof. reflexivity. Qed.

Lemma buildDomTree_count args node :
  forall n depth parentTag st,
    depth + n = 20 ->
    fresh_state st ->
    st_ID (buildDomTree args parentTag node depth st).2
      = st_ID st + kept_nodes node depth /\
    size (st_map (buildDomTree args parentTag node depth st).2)
      = size (st_map st) + kept_nodes node depth.
Proof.
  induction node as [e cs IH|s|] using Node_ind';
    intros n depth parentTag st Hd Hf.
  - rewrite buildDomTree_ElementNode. cbn [kept_nodes].
    destruct (excluded e); [cbn; lia|]. unfold bind.
    pose proof (classify_spec args e st) as Hcl.
    destruct (classify args e st) as [flags st1]. cbn [fst snd] in Hcl.
    destruct Hcl as (HI1 & HM1 & _).
    assert (fresh_state st1) as Hf1.
    { unfold fresh_state. by rewrite HI1, HM1. }
    set (visit := fun child =>
           buildDomTree args (Some (toLowerCase (el_tagName e))) child (S depth)).
    set (inner := if (depth <? 20)%nat
                  then list_sum (List.map (fun c => kept_nodes c (S depth)) cs)
                  else 0).
    assert (exists kids st2,
      (if (depth <? 20)%nat then forChildren visit cs [] else ret []) st1
        = (kids, st2) /\
      fresh_state st2 /\
      st_ID st2 = st_ID st1 + inner /\
      size (st_map st2) = size (st_map st1) + inner)
      as (kids & st2 & -> & Hf2 & HI2 & HS2).
    { subst inner. destruct (depth <? 20)%nat eqn:Hlt.
      - apply Nat.ltb_lt in Hlt.
        assert (forall acc st0, fresh_state st0 ->
          fresh_state (forChildren visit cs acc st0).2 /\
          st_ID (forChildren visit cs acc st0).2
            = st_ID st0 + list_sum (List.map (fun c => kept_nodes c (S depth)) cs) /\
          size (st_map (forChildren visit cs acc st0).2)
            = size (st_map st0)
              + list_sum (List.map (fun c => kept_nodes c (S depth)) cs))
          as Hloop.
        { clear Hf1 HI1 HM1. induction IH as [|c cs Hc _ IHcs]; intros acc st0 H0.
          - cbn. split; [done|]. lia.
          - cbn [forChildren List.map list_sum]. unfold bind.
            destruct n as [|n]; [lia|].
            specialize (Hc n (S depth) (Some (toLowerCase (el_tagName e))) st0
                          ltac:(lia) H0).
            pose proof (buildDomTree_runs args c n (S depth)
                          (Some (toLowerCase (el_tagName e))) st0 ltac:(lia) H0)
              as Hrun.
            fold (visit c) in Hc, Hrun.
            destruct (visit c st0) as [r st'] eqn:Hv. cbn [fst snd] in Hc, Hrun.
            assert (fresh_state st') as Hf' by (by eapply Step_fresh).
            destruct (IHcs (match r with
                            | Some id => (acc ++ [id])%list
                            | None => acc
                            end) st' Hf') as (? & ? & ?).
            cbv beta iota. rewrite list_sum_cons.
            split; [done|]. split; lia. }
        destruct (Hloop [] st1 Hf1) as (? & ? & ?).
        eexists _, _. split; [apply surjective_pairing|]. done.
      - exists [], st1. split; [done|]. split; [done|]. lia. }
    pose proof (finish_spec e flags kids st2) as Hfin.
    destruct (finish e flags kids st2) as [r st3]. cbn [fst snd] in Hfin |- *.
    destruct Hfin as (_ & -> & _ & ->).
    rewrite map_size_insert_None.
    + fold inner. rewrite HM1 in HS2. split; lia.
    + apply (Hf2 (st_ID st2)); [lia|by right].
  - cbn [buildDomTree kept_nodes]. destruct (truthy (trim s)); [|cbn; lia].
    unfold bind, next_ID, store. cbn.
    rewrite map_size_insert_None; [lia|].
    apply (Hf (st_ID st)); [lia|by left].
  - cbn. lia.
Qed.

Lemma snapshot_map_body args b :
  snap_map (buildAdvancedDomSnapshot args {| body := Some b |}) =
  st_map (buildDomTree args None b 0 init_state).2.
Proof.
  unfold buildAdvancedDomSnapshot. cbn [body].
  destruct (buildDomTree args None b 0 init_state) as [r st].
  by destruct (debugMode args).
Qed.

Lemma snapshot_rootId_body args b :
  rootId (buildAdvancedDomSnapshot args {| body := Some b |}) =
  (buildDomTree args None b 0 init_state).1.
Proof.
  unfold buildAdvancedDomSnapshot. cbn [body].
  destruct (buildDomTree args None b 0 init_state) as [r st].
  by destruct (debugMode args).
Qed.

Lemma snapshot_map_size (args : Args) (b : Node) :
  size (snap_map (buildAdvancedDomSnapshot args {| body := Some b |}))
    = kept_nodes b 0.
Proof.
  pose proof (buildDomTree_count args b 20 0 None init_state eq_refl fresh_init)
    as [HI HS].
  rewrite snapshot_map_body.
  destruct (buildDomTree args None b 0 init_state) as [r st].
  cbn [fst snd] in *. cbn in HS. rewrite map_size_empty in HS. lia.
Qed.

(** X3.  One entry per kept node.  The map of the snapshot of a document
    with a body has exactly as many entries as the traversal keeps nodes
    (elements and non-empty texts, to depth 20), and each key is [text_k]
    or [element_k] for a counter [k] below that number.  The map of the
    snapshot of a document without a body has one entry, under the key
    "root_0". *)
Theorem snapshot_size (args : Args) (document : Document) :
  let s := buildAdvancedDomSnapshot args document in
  match body document with
  | Some b =>
      size (snap_map s) = kept_nodes b 0 /\
      (forall h, is_Some (snap_map s !! h) ->
         exists k, k < kept_nodes b 0 /\
                   (h = text_handle k \/ h = element_handle k))
  | None =>
      size (snap_map s) = 1 /\
      (forall h, is_Some (snap_map s !! h) -> h = "root_0")
  end.
Proof.
  destruct document as [[b|]]; cbn [body]; cbv zeta.
  - pose proof (buildDomTree_count args b 20 0 None init_state eq_refl fresh_init)
      as [HI HS].
    pose proof (buildDomTree_runs args b 20 0 None init_state eq_refl fresh_init)
      as Hrun.
    rewrite snapshot_map_body.
    destruct (buildDomTree args None b 0 init_state) as [r st].
    cbn [fst snd] in *. unfold runs in Hrun. cbn in HI, HS, Hrun.
    rewrite map_size_empty in HS.
    split; [lia|].
    intros h Hh.
    destruct (step_keys _ _ _ _ _ _ _ _ _ Hrun h) as (k & Hk & Hhk).
    { split; [apply lookup_empty|done]. }
    exists k. split; [lia|done].
  - destruct (snapshot_no_body args) as [_ ->].
    split; [apply map_size_singleton|].
    intros h [rec Hh]. by apply lookup_singleton_Some in Hh as [<- _].
Qed.

Lemma snapshot_size_witness :
  size (snap_map sample_snapshot) = 7 /\
  exists k, k < 7 /\ ("element_6" = text_handle k \/ "element_6" = element_handle k).
Proof.
  destruct (snapshot_size default_args sample_document) as [Hsize Hkeys].
  split; [exact Hsize|].
  apply (Hkeys "element_6"). vm_compute. by eexists.
Defined.

(** X4.  The root.  When the body is an element that is not excluded, the
    root handle is the last handle issued, [element_(n-1)] for a map of
    [n] entries, and its record is the body's.  When the body is skipped
    the snapshot has no root and an empty map; without a body it holds the
    single error record under the root "root_0". *)
Theorem snapshot_root (args : Args) :
  (forall e cs,
     excluded e = false ->
     let b := ElementNode e cs in
     let s := buildAdvancedDomSnapshot args {| body := Some b |} in
     rootId s = Some (element_handle (size (snap_map s) - 1)) /\
     exists r, snap_map s !! element_handle (size (snap_map s) - 1)
                 = Some (ELEMENT r) /\
               derived e r) /\
  (forall b,
     dropped b = true ->
     let s := buildAdvancedDomSnapshot args {| body := Some b |} in
     rootId s = None /\ snap_map s = ∅) /\
  (let s := buildAdvancedDomSnapshot args {| body := None |} in
   rootId s = Some "root_0" /\
   snap_map s = {[ "root_0" := ERROR "No document.body available" ]}).
Proof.
  split; [|split].
  - intros e cs Hex b s. subst s.
    pose proof (snapshot_map_size args b) as Hsize.
    pose proof (buildDomTree_count args b 20 0 None init_state eq_refl fresh_init)
      as [HI _].
    rewrite Hsize, snapshot_rootId_body, snapshot_map_body.
    subst b. revert HI. rewrite buildDomTree_ElementNode, Hex. unfold bind.
    pose proof (classify_spec args e init_state) as Hcl.
    destruct (classify args e init_state) as [flags st1]. cbn [fst snd] in Hcl.
    destruct Hcl as (_ & _ & Hfl & Hhl).
    match goal with
    | |- context [let (_, _) := ?m st1 in _] => destruct (m st1) as [kids st2]
    end.
    pose proof (finish_spec e flags kids st2) as Hfin.
    destruct (finish e flags kids st2) as [r st3]. cbn [fst snd] in Hfin |- *.
    destruct Hfin as (-> & -> & _ & ->). cbn [st_ID init_state]. intros HI.
    replace (kept_nodes (ElementNode e cs) 0 - 1) with (st_ID st2) by lia.
    split; [done|]. eexists. rewrite lookup_insert_eq. split; [done|].
    unfold derived.
    cbn -[toLowerCase getElementAttributes isElementVisible isInteractiveElement].
    split; [done|]. split; [done|]. split; [done|]. split; [done|].
    destruct Hhl as [(_ & Hn & Hb)|(_ & Hs & Hv & Hi)]; rewrite ?Hn, ?Hs.
    + split; [intros [? ?]; discriminate|].
      intros [Hv Hi]. rewrite Hv, Hi in Hb. discriminate.
    + split; [done|]. intros _. by eexists.
  - intros b Hb s. subst s.
    rewrite snapshot_rootId_body, snapshot_map_body.
    by rewrite (buildDomTree_dropped _ _ _ _ _ Hb).
  - apply snapshot_no_body.
Qed.

Lemma snapshot_root_witness :
  rootId sample_snapshot = Some (element_handle (size (snap_map sample_snapshot) - 1)) /\
  (let s := buildAdvancedDomSnapshot default_args
              {| body := Some (ElementNode (elem "SCRIPT" shown) []) |} in
   rootId s = None /\ snap_map s = ∅).
Proof.
  split.
  - exact (proj1 (proj1 (snapshot_root default_args) (elem "BODY" shown) _ eq_refl)).
  - exact (proj1 (proj2 (snapshot_root default_args))
             (ElementNode (elem "SCRIPT" shown) []) eq_refl).
Defined.

(** *** The arguments *)

(** The part of the state that ends up in the snapshot. *)
Definition core (st : BuildState) : nat * nat * gmap string NodeRecord * option string :=
  (st_highlightIndex st, st_ID st, st_map st, st_rootId st).

Lemma classify_core args1 args2 e st1 st2 :
  core st1 = core st2 ->
  (classify args1 e st1).1 = (classify args2 e st2).1 /\
  core (classify args1 e st1).2 = core (classify args2 e st2).2.
Proof.
  unfold core. intros [= Hh Hi Hm Hr]. unfold classify.
  destruct (isElementVisible e); [|cbn; by rewrite Hh, Hi, Hm, Hr].
  destruct (isInteractiveElement e); [|cbn; by rewrite Hh, Hi, Hm, Hr].
  unfold bind, next_highlightIndex.
  destruct (doHighlightElements args1), (doHighlightElements args2);
    repeat match goal with |- context [if ?b then _ else _] => destruct b end;
    cbn; by rewrite Hh, Hi, Hm, Hr.
Qed.

Lemma finish_core e flags kids st1 st2 :
  core st1 = core st2 ->
  (finish e flags kids st1).1 = (finish e flags kids st2).1 /\
  core (finish e flags kids st1).2 = core (finish e flags kids st2).2.
Proof.
  unfold core. intros [= Hh Hi Hm Hr]. unfold finish, bind, next_ID, store.
  destruct (_ =? "body")%string; cbn; by rewrite Hh, Hi, Hm, ?Hr.
Qed.

Lemma buildDomTree_core args1 args2 node :
  forall parentTag depth st1 st2,
    core st1 = core st2 ->
    (buildDomTree args1 parentTag node depth st1).1
      = (buildDomTree args2 parentTag node depth st2).1 /\
    core (buildDomTree args1 parentTag node depth st1).2
      = core (buildDomTree args2 parentTag node depth st2).2.
Proof.
  induction node as [e cs IH|s|] using Node_ind';
    intros parentTag depth st1 st2 Hst.
  - rewrite !buildDomTree_ElementNode. destruct (excluded e); [done|].
    unfold bind.
    destruct (classify_core args1 args2 e st1 st2 Hst) as [Hf Hc].
    destruct (classify args1 e st1) as [flags1 s1].
    destruct (classify args2 e st2) as [flags2 s2].
    cbn [fst snd] in Hf, Hc. subst flags2.
    assert (forall acc t1 t2, core t1 = core t2 ->
      (forChildren (fun child => buildDomTree args1 (Some (toLowerCase (el_tagName e)))
                                   child (S depth)) cs acc t1).1 =
      (forChildren (fun child => buildDomTree args2 (Some (toLowerCase (el_tagName e)))
                                   child (S depth)) cs acc t2).1 /\
      core (forChildren (fun child => buildDomTree args1 (Some (toLowerCase (el_tagName e)))
                                   child (S depth)) cs acc t1).2 =
      core (forChildren (fun child => buildDomTree args2 (Some (toLowerCase (el_tagName e)))
                                   child (S depth)) cs acc t2).2) as Hloop.
    { clear Hst Hc. induction IH as [|c cs Hc _ IHcs]; intros acc t1 t2 Ht; [done|].
      cbn [forChildren]. unfold bind.
      destruct (Hc (Some (toLowerCase (el_tagName e))) (S depth) t1 t2 Ht)
        as [Hr Hcore].
      destruct (buildDomTree args1 _ c _ t1) as [r1 u1].
      destruct (buildDomTree args2 _ c _ t2) as [r2 u2].
      cbn [fst snd] in Hr, Hcore. subst r2. by apply IHcs. }
    assert (exists kids u1 u2,
      (if (depth <? 20)%nat then
         forChildren (fun child => buildDomTree args1 (Some (toLowerCase (el_tagName e)))
                                   child (S depth)) cs []
       else ret []) s1 = (kids, u1) /\
      (if (depth <? 20)%nat then
         forChildren (fun child => buildDomTree args2 (Some (toLowerCase (el_tagName e)))
                                   child (S depth)) cs []
       else ret []) s2 = (kids, u2) /\ core u1 = core u2)
      as (kids & u1 & u2 & -> & -> & Hu).
    { destruct (depth <? 20)%nat.
      - destruct (Hloop [] s1 s2 Hc) as [Hk Hcore].
        destruct (forChildren _ cs [] s1) as [k1 u1].
        destruct (forChildren _ cs [] s2) as [k2 u2].
        cbn [fst snd] in Hk, Hcore. subst k2. by exists k1, u1, u2.
      - by exists [], s1, s2. }
    by apply finish_core.
  - cbn [buildDomTree]. destruct (truthy (trim s)); [|done].
    unfold core in *. injection Hst as Hh Hi Hm Hr.
    unfold bind, next_ID, store. cbn. by rewrite Hh, Hi, Hm, Hr.
  - done.
Qed.

(** X5.  The arguments.  The root handle and the map of a snapshot do not
    depend on the arguments: highlighting and debug mode change neither;
    the metrics are present exactly in debug mode. *)
Theorem snapshot_independent_of_args (args1 args2 : Args) (document : Document) :
  rootId (buildAdvancedDomSnapshot args1 document)
    = rootId (buildAdvancedDomSnapshot args2 document) /\
  snap_map (buildAdvancedDomSnapshot args1 document)
    = snap_map (buildAdvancedDomSnapshot args2 document) /\
  match perfMetrics (buildAdvancedDomSnapshot args1 document) with
  | Some _ => debugMode args1 = true
  | None => debugMode args1 = false
  end.
Proof.
  split; [|split].
  - destruct document as [[b|]].
    + rewrite !snapshot_rootId_body.
      by destruct (buildDomTree_core args1 args2 b None 0 init_state init_state
                     eq_refl).
    + by rewrite (proj1 (snapshot_no_body args1)), (proj1 (snapshot_no_body args2)).
  - destruct document as [[b|]].
    + rewrite !snapshot_map_body.
      destruct (buildDomTree_core args1 args2 b None 0 init_state init_state
                  eq_refl) as [_ Hc].
      unfold core in Hc. by injection Hc.
    + by rewrite (proj2 (snapshot_no_body args1)), (proj2 (snapshot_no_body args2)).
  - rewrite perfMetrics_constant. by destruct (debugMode args1).
Qed.

(** *** Highlighting *)

(** The number of console lines written for the highlight indices from
    [lo] up to [hi], [hi] left out. *)
Definition logged (args : Args) (lo hi : nat) : nat :=
  if doHighlightElements args then
    if (focusHighlightIndex args <? 0)%Z then hi - lo
    else if (Z.of_nat lo <=? focusHighlightIndex args)%Z
            && (focusHighlightIndex args <? Z.of_nat hi)%Z
         then 1 else 0
  else 0.

Lemma logged_add args lo mid hi :
  lo <= mid -> mid <= hi ->
  logged args lo mid + logged args mid hi = logged args lo hi.
Proof.
  intros H1 H2. unfold logged. destruct (doHighlightElements args); [|done].
  destruct (focusHighlightIndex args <? 0)%Z; [lia|].
  repeat match goal with
         | |- context [(?a <=? ?b)%Z] => destruct (Z.leb_spec a b)
         | |- context [(?a <? ?b)%Z] => destruct (Z.ltb_spec a b)
         end; cbn; lia.
Qed.

Lemma classify_console args e st :
  st_highlightIndex st <= st_highlightIndex (classify args e st).2 /\
  length (st_console (classify args e st).2) =
    length (st_console st)
    + logged args (st_highlightIndex st) (st_highlightIndex (classify args e st).2).
Proof.
  unfold classify, logged.
  destruct (isElementVisible e);
    [|cbn; rewrite Nat.sub_diag; split; [lia|];
      repeat match goal with |- context [if ?b then _ else _] => destruct b eqn:? end;
      lia].
  destruct (isInteractiveElement e);
    [|cbn; rewrite Nat.sub_diag; split; [lia|];
      repeat match goal with |- context [if ?b then _ else _] => destruct b eqn:? end;
      lia].
  unfold bind, next_highlightIndex.
  destruct (doHighlightElements args); [|cbn; lia].
  destruct (focusHighlightIndex args <? 0)%Z eqn:Hneg; cbn [orb].
  - cbn. rewrite length_app. cbn. lia.
  - destruct (Z.eqb_spec (focusHighlightIndex args) (Z.of_nat (st_highlightIndex st)))
      as [Heq|Hne]; cbn.
    + rewrite length_app. cbn. split; [lia|].
      rewrite Heq.
      destruct (Z.leb_spec (Z.of_nat (st_highlightIndex st))
                  (Z.of_nat (st_highlightIndex st))); [|lia].
      destruct (Z.ltb_spec (Z.of_nat (st_highlightIndex st))
                  (Z.of_nat (S (st_highlightIndex st)))); [|lia].
      cbn. lia.
    + split; [lia|].
      destruct (Z.leb_spec (Z.of_nat (st_highlightIndex st))
                  (focusHighlightIndex args));
        destruct (Z.ltb_spec (focusHighlightIndex args)
                    (Z.of_nat (S (st_highlightIndex st)))); cbn; lia.
Qed.

Lemma buildDomTree_console args node :
  forall parentTag depth st,
    st_highlightIndex st
      <= st_highlightIndex (buildDomTree args parentTag node depth st).2 /\
    length (st_console (buildDomTree args parentTag node depth st).2) =
      length (st_console st)
      + logged args (st_highlightIndex st)
          (st_highlightIndex (buildDomTree args parentTag node depth st).2).
Proof.
  assert (forall st, logged args (st_highlightIndex st) (st_highlightIndex st) = 0)
    as Hzero.
  { intros st. unfold logged.
    repeat match goal with |- context [if ?b then _ else _] => destruct b eqn:? end;
      lia. }
  induction node as [e cs IH|s|] using Node_ind'; intros parentTag depth st.
  - rewrite buildDomTree_ElementNode.
    destruct (excluded e); [cbn; rewrite Hzero; lia|]. unfold bind.
    pose proof (classify_console args e st) as [Hh1 Hc1].
    destruct (classify args e st) as [flags st1]. cbn [fst snd] in Hh1, Hc1.
    set (visit := fun child =>
           buildDomTree args (Some (toLowerCase (el_tagName e))) child (S depth)).
    assert (forall acc st0,
      st_highlightIndex st0 <= st_highlightIndex (forChildren visit cs acc st0).2 /\
      length (st_console (forChildren visit cs acc st0).2) =
        length (st_console st0)
        + logged args (st_highlightIndex st0)
            (st_highlightIndex (forChildren visit cs acc st0).2)) as Hloop.
    { induction IH as [|c cs Hc _ IHcs]; intros acc st0.
      - cbn. rewrite Hzero. lia.
      - cbn [forChildren]. unfold bind.
        specialize (Hc (Some (toLowerCase (el_tagName e))) (S depth) st0).
        fold (visit c) in Hc. destruct (visit c st0) as [r st']. cbn [snd] in Hc.
        destruct Hc as [Ha Hb].
        destruct (IHcs (match r with
                        | Some id => (acc ++ [id])%list
                        | None => acc
                        end) st') as [Hc' Hd'].
        split; [lia|]. rewrite Hd', Hb, <- (logged_add args _ _ _ Ha Hc'). lia. }
    assert (exists kids st2,
      (if (depth <? 20)%nat then forChildren visit cs [] else ret []) st1
        = (kids, st2) /\
      st_highlightIndex st1 <= st_highlightIndex st2 /\
      length (st_console st2) =
        length (st_console st1)
        + logged args (st_highlightIndex st1) (st_highlightIndex st2))
      as (kids & st2 & -> & Hh2 & Hc2).
    { destruct (depth <? 20)%nat.
      - destruct (Hloop [] st1) as [? ?].
        eexists _, _. split; [apply surjective_pairing|]. done.
      - exists [], st1. split; [done|]. rewrite Hzero. lia. }
    assert (st_highlightIndex (finish e flags kids st2).2 = st_highlightIndex st2 /\
            st_console (finish e flags kids st2).2 = st_console st2) as [Hh3 Hc3].
    { unfold finish, bind, next_ID, store. by destruct (_ =? "body")%string. }
    destruct (finish e flags kids st2) as [r st3]. cbn [snd] in *.
    rewrite Hh3, Hc3. split; [lia|].
    rewrite Hc2, Hc1, <- (logged_add args _ _ _ Hh1 Hh2). lia.
  - cbn [buildDomTree]. destruct (truthy (trim s)); cbn; rewrite Hzero; lia.
  - cbn. rewrite Hzero. lia.
Qed.

(** X6.  Highlighting.  The traversal of a body writes to the console only
    when highlighting is requested: one line per highlight index when no
    focus index is given (a negative one), and otherwise a single line if
    the focus index is one of the indices assigned, none if it is not.
    The indices assigned are those the snapshot shows. *)
Theorem highlight_console_lines (args : Args) (b : Node) :
  let st := (buildDomTree args None b 0 init_state).2 in
  let k := st_highlightIndex st in
  omap highlightIndex
    (preorder (buildAdvancedDomSnapshot args {| body := Some b |})) = seq 0 k /\
  length (st_console st) =
    if doHighlightElements args then
      if (focusHighlightIndex args <? 0)%Z then k
      else if (focusHighlightIndex args <? Z.of_nat k)%Z then 1 else 0
    else 0.
Proof.
  cbv zeta. split.
  - pose proof (buildDomTree_runs args b 20 0 None init_state eq_refl fresh_init)
      as Hrun.
    pose proof (step_walk _ _ _ _ _ _ _ _ _ Hrun) as Hwalk.
    unfold highlights in Hwalk. cbn [st_highlightIndex init_state] in Hwalk.
    rewrite Nat.sub_0_r in Hwalk. unfold preorder.
    by rewrite snapshot_rootId_body, snapshot_map_body.
  - destruct (buildDomTree_console args b None 0 init_state) as [_ Hc].
    rewrite Hc. cbn [st_console init_state st_highlightIndex length].
    unfold logged. destruct (doHighlightElements args); [|done].
    destruct (focusHighlightIndex args <? 0)%Z eqn:Hneg; [lia|].
    apply Z.ltb_ge in Hneg.
    destruct (Z.leb_spec (Z.of_nat 0) (focusHighlightIndex args)); [|lia].
    by destruct (focusHighlightIndex args <? _)%Z.
Qed.

End DomFacts.

(** ** Properties of the URL normalisation *)
Module UrlFacts.
Import Js Url.

Example ensureUrlProtocol_double_colon :
  ensureUrlProtocol "http:://app.example.com" = "https://app.example.com".
Proof. reflexivity. Qed.

Example ensureUrlProtocol_mixed :
  ensureUrlProtocol "http://https://app.example.com" = "https://app.example.com".
Proof. reflexivity. Qed.

Example ensureUrlProtocol_triple :
  ensureUrlProtocol "https://https://https://a.io" = "https://https://a.io".
Proof. reflexivity. Qed.

(** No match of the pattern anywhere in [s]. *)
Fixpoint no_match (matchAt : string -> option (nat * string)) (s : string)
  : bool :=
  match matchAt s with
  | Some _ => false
  | None =>
      match s with
      | EmptyString => true
      | String _ s' => no_match matchAt s'
      end
  end.

Lemma replaceAll_no_match matchAt s :
  no_match matchAt s = true -> replaceAll matchAt 0 s = s.
Proof.
  induction s as [|c s IH]; [done|].
  cbn [no_match replaceAll].
  destruct (matchAt (String c s)); [done|].
  intros H. by rewrite IH.
Qed.

(** A URL of index.js's [ensureUrlProtocol] that holds neither a doubled
    colon scheme nor a duplicated scheme is returned as it is when it
    starts with a scheme, and with [https://] in front otherwise. *)
Lemma ensureUrlProtocol_well_formed url :
  no_match doubleColon url = true ->
  no_match duplicate url = true ->
  ensureUrlProtocol url =
    if startsWith url "http://" || startsWith url "https://"
    then url else "https://" +:+ url.
Proof.
  intros H1 H2. unfold ensureUrlProtocol.
  rewrite (replaceAll_no_match _ _ H1), (replaceAll_no_match _ _ H2).
  by destruct (startsWith url "http://"), (startsWith url "https://").
Qed.

(** grok.js's helper returns every URL that starts with a scheme as it
    is. *)
Lemma Grok_ensureUrlProtocol_keeps url :
  startsWith url "http://" || startsWith url "https://" = true ->
  Grok.ensureUrlProtocol url = url.
Proof.
  unfold Grok.ensureUrlProtocol.
  by destruct (startsWith url "http://"), (startsWith url "https://").
Qed.

(** C5.  index.js's [ensureUrlProtocol] collapses the duplicated scheme of
    "https://https://app.example.com", puts a scheme before
    "app.example.com" and leaves "https://app.example.com" alone.
    grok.js's [ensureUrlProtocol] also adds the missing scheme, but returns
    "https://https://app.example.com" with its duplicated scheme. *)
Theorem ensureUrlProtocol_examples :
  ensureUrlProtocol "https://https://app.example.com" = "https://app.example.com" /\
  ensureUrlProtocol "app.example.com" = "https://app.example.com" /\
  ensureUrlProtocol "https://app.example.com" = "https://app.example.com" /\
  ensureUrlProtocol "http://app.example.com" = "http://app.example.com" /\
  Grok.ensureUrlProtocol "app.example.com" = "https://app.example.com" /\
  Grok.ensureUrlProtocol "https://https://app.example.com"
    = "https://https://app.example.com".
Proof. repeat split. Qed.

(** *** What the two replacements do *)

Lemma replaceAll_keep matchAt c s :
  matchAt (String c s) = None ->
  replaceAll matchAt 0 (String c s) = String c (replaceAll matchAt 0 s).
Proof. cbn [replaceAll]. by intros ->. Qed.

Lemma replaceAll_hit matchAt c s len replacement :
  matchAt (String c s) = Some (S len, replacement) ->
  replaceAll matchAt 0 (String c s) = replacement +:+ replaceAll matchAt len s.
Proof. cbn [replaceAll]. by intros ->. Qed.

Lemma replaceAll_skip matchAt k c s :
  replaceAll matchAt (S k) (String c s) = replaceAll matchAt k s.
Proof. reflexivity. Qed.

Definition schemes : list string := ["http://"; "https://"].

(** [s] does not start with a scheme. *)
Definition schemeless (s : string) : Prop :=
  startsWith s "http://" = false /\ startsWith s "https://" = false.

(** A URL free of both patterns. *)
Definition clean (s : string) : Prop :=
  no_match doubleColon s = true /\ no_match duplicate s = true.

Lemma duplicate_pair (p1 p2 rest : string) :
  In p1 schemes -> In p2 schemes ->
  duplicate (p1 +:+ p2 +:+ rest)
    = Some (String.length p1 + String.length p2, p2).
Proof.
  intros [<-|[<-|[]]] [<-|[<-|[]]]; cbv; by destruct rest.
Qed.

(** X7.  A duplicated scheme.  Of two schemes in a row at the start of a URL
    index.js's [ensureUrlProtocol] keeps the second, whatever the first
    was.  What follows the pair goes through the two replacements on its
    own: a third scheme right behind the pair survives, a duplicated
    scheme further on is collapsed as well, and a rest that holds neither
    pattern is left as it is. *)
Theorem ensureUrlProtocol_keeps_second_scheme (p1 p2 rest : string) :
  In p1 schemes -> In p2 schemes ->
  ensureUrlProtocol (p1 +:+ p2 +:+ rest)
    = p2 +:+ replaceAll duplicate 0 (replaceAll doubleColon 0 rest) /\
  (clean rest -> ensureUrlProtocol (p1 +:+ p2 +:+ rest) = p2 +:+ rest).
Proof.
  intros H1 H2.
  assert (ensureUrlProtocol (p1 +:+ p2 +:+ rest)
            = p2 +:+ replaceAll duplicate 0 (replaceAll doubleColon 0 rest))
    as Hgen.
  { unfold ensureUrlProtocol.
    assert (replaceAll doubleColon 0 (p1 +:+ p2 +:+ rest)
              = p1 +:+ p2 +:+ replaceAll doubleColon 0 rest) as ->.
    { destruct H1 as [<-|[<-|[]]]; destruct H2 as [<-|[<-|[]]];
        cbv [String.append];
        repeat (rewrite (replaceAll_keep doubleColon) by (cbv; by destruct rest));
        reflexivity. }
    generalize (replaceAll doubleColon 0 rest). intros rest'.
    pose proof (duplicate_pair p1 p2 rest' H1 H2) as Hdup.
    destruct H1 as [<-|[<-|[]]]; destruct H2 as [<-|[<-|[]]];
      cbv [String.append String.length Nat.add] in Hdup |- *;
      rewrite (replaceAll_hit duplicate _ _ _ _ Hdup);
      repeat rewrite replaceAll_skip;
      generalize (replaceAll duplicate 0 rest'); intros rest'';
      cbv; by destruct rest''. }
  split; [exact Hgen|].
  intros [Hc Hd]. rewrite Hgen.
  by rewrite (replaceAll_no_match _ rest Hc), (replaceAll_no_match _ rest Hd).
Qed.

Lemma ensureUrlProtocol_keeps_second_scheme_witness :
  ensureUrlProtocol ("https://" +:+ "http://" +:+ "a.io/?u=http://http://b")
    = "http://a.io/?u=http://b".
Proof.
  apply (ensureUrlProtocol_keeps_second_scheme
           "https://" "http://" "a.io/?u=http://http://b").
  - right. left. reflexivity.
  - left. reflexivity.
Defined.

Lemma startsWith_nil s : startsWith s EmptyString = true.
Proof. by destruct s. Qed.

Lemma startsWith_cons a b s p :
  startsWith (String b s) (String a p) = Ascii.eqb a b && startsWith s p.
Proof. reflexivity. Qed.

(** A scheme followed by something that is no scheme is no duplicate. *)
Lemma duplicate_single (p rest : string) :
  In p schemes -> schemeless rest -> duplicate (p +:+ rest) = None.
Proof.
  intros Hp [Hs1 Hs2].
  destruct Hp as [<-|[<-|[]]];
    cbv [duplicate scheme_then String.append String.length Nat.add];
    rewrite ?startsWith_cons, ?startsWith_nil;
    cbn [Ascii.eqb Bool.eqb andb Url.drop];
    by rewrite Hs1, Hs2.
Qed.

Lemma doubleColon_hit (p rest : string) :
  In p ["http:://"; "https:://"] ->
  doubleColon (p +:+ rest) = Some (String.length p, "https://").
Proof. intros [<-|[<-|[]]]; cbv; by destruct rest. Qed.

(** X8.  A doubled colon.  A URL that starts with [http:://] or [https:://]
    comes out as the URL with [https://] in that place does: the
    plain-http scheme is not kept, and what follows decides the rest (a
    scheme right behind it makes the [https://] a duplicate, which is
    dropped).  When what follows holds neither pattern and starts with no
    scheme, the result is [https://] and what follows. *)
Theorem ensureUrlProtocol_double_colon_to_https (p rest : string) :
  In p ["http:://"; "https:://"] ->
  ensureUrlProtocol (p +:+ rest) = ensureUrlProtocol ("https://" +:+ rest) /\
  (clean rest -> schemeless rest ->
   ensureUrlProtocol (p +:+ rest) = "https://" +:+ rest).
Proof.
  intros Hp.
  assert (replaceAll doubleColon 0 (p +:+ rest)
            = "https://" +:+ replaceAll doubleColon 0 rest) as H1.
  { pose proof (doubleColon_hit p rest Hp) as Hhit.
    destruct Hp as [<-|[<-|[]]];
      cbv [String.append String.length] in Hhit |- *;
      rewrite (replaceAll_hit doubleColon _ _ _ _ Hhit);
      by repeat rewrite replaceAll_skip. }
  assert (replaceAll doubleColon 0 ("https://" +:+ rest)
            = "https://" +:+ replaceAll doubleColon 0 rest) as H2.
  { cbv [String.append].
    repeat (rewrite (replaceAll_keep doubleColon) by (cbv; by destruct rest)).
    reflexivity. }
  split.
  { unfold ensureUrlProtocol. by rewrite H1, H2. }
  intros [Hc Hd] Hs.
  pose proof (duplicate_single "https://" rest ltac:(cbn; tauto) Hs) as Hone.
  unfold ensureUrlProtocol. rewrite H1, (replaceAll_no_match _ rest Hc).
  cbv [String.append] in Hone |- *.
  rewrite (replaceAll_keep duplicate _ _ Hone).
  repeat (rewrite (replaceAll_keep duplicate) by reflexivity).
  rewrite (replaceAll_no_match _ rest Hd).
  cbv; by destruct rest.
Qed.

Lemma ensureUrlProtocol_double_colon_to_https_witness :
  ensureUrlProtocol ("https:://" +:+ "http://a.io") = "http://a.io" /\
  ensureUrlProtocol ("http:://" +:+ "shop.example.com")
    = "https://" +:+ "shop.example.com".
Proof.
  split.
  - apply (ensureUrlProtocol_double_colon_to_https "https:://" "http://a.io").
    right. left. reflexivity.
  - apply ensureUrlProtocol_double_colon_to_https.
    + left. reflexivity.
    + split; reflexivity.
    + split; reflexivity.
Defined.

Lemma startsWith_app p s : startsWith (p +:+ s) p = true.
Proof.
  induction p as [|c p IH]; [by destruct s|].
  change (String c p +:+ s) with (String c (p +:+ s)).
  by rewrite startsWith_cons, Ascii.eqb_refl, IH.
Qed.

(** X9.  The result has a scheme.  Both helpers return a URL that starts
    with [http://] or [https://], and grok.js's helper leaves its own
    results alone. *)
Theorem ensureUrlProtocol_has_scheme (url : string) :
  startsWith (ensureUrlProtocol url) "http://"
    || startsWith (ensureUrlProtocol url) "https://" = true /\
  startsWith (Grok.ensureUrlProtocol url) "http://"
    || startsWith (Grok.ensureUrlProtocol url) "https://" = true /\
  Grok.ensureUrlProtocol (Grok.ensureUrlProtocol url) = Grok.ensureUrlProtocol url.
Proof.
  assert (forall u,
    startsWith (if negb (startsWith u "http://") && negb (startsWith u "https://")
                then "https://" +:+ u else u) "http://"
    || startsWith (if negb (startsWith u "http://") && negb (startsWith u "https://")
                   then "https://" +:+ u else u) "https://" = true) as H.
  { intros u. destruct (startsWith u "http://") eqn:E1; cbn [negb andb];
      [by rewrite E1|].
    destruct (startsWith u "https://") eqn:E2; cbn [negb andb].
    - rewrite E1, E2. reflexivity.
    - rewrite (startsWith_app "https://" u). apply orb_true_r. }
  split; [apply H|]. split; [apply H|].
  apply Grok_ensureUrlProtocol_keeps, H.
Qed.

(** X10.  The two helpers.  On a URL that holds neither a doubled-colon
    scheme nor a duplicated scheme, index.js's helper and grok.js's helper
    return the same URL. *)
Theorem ensureUrlProtocol_agree (url : string) :
  clean url -> ensureUrlProtocol url = Grok.ensureUrlProtocol url.
Proof.
  intros [Hc Hd]. rewrite (ensureUrlProtocol_well_formed url Hc Hd).
  unfold Grok.ensureUrlProtocol.
  by destruct (startsWith url "http://"), (startsWith url "https://").
Qed.

Lemma ensureUrlProtocol_agree_witness :
  ensureUrlProtocol "app.example.com/login?next=/search"
    = Grok.ensureUrlProtocol "app.example.com/login?next=/search".
Proof. apply ensureUrlProtocol_agree. split; reflexivity. Defined.

End UrlFacts.

(** ** Properties of the executor and of the handler *)
Module ExecFacts.
Import Js Exec.

(** *** Sample actions and pages *)

Definition blank : Action :=
  {| action := None; selector := None; value := None; key := None;
     duration := None; searchText := None; inputFields := None;
     search_query := None; type := None |}.

Definition make (kind sel : string) : Action :=
  {| action := Some kind; selector := Some sel; value := None; key := None;
     duration := None; searchText := None; inputFields := None;
     search_query := None; type := None |}.

Definition pressEnter : Action :=
  {| action := Some "press"; selector := Some SEARCH; value := None;
     key := Some "Enter"; duration := None; searchText := None;
     inputFields := None; search_query := None; type := None |}.

(** One of the two verification waits of the press-Enter search. *)
Definition isVerification (c : Call) : bool :=
  match c with
  | waitForSelector s None _ => (s =? SAVE_TO_LIST)%string || (s =? NO_RESULTS)%string
  | _ => false
  end.

Definition isPress (c : Call) : bool :=
  match c with
  | press _ _ => true
  | _ => false
  end.

(** A click on the header of the collapsible search section. *)
Definition isExpand (c : Call) : bool :=
  match c with
  | click s _ => (s =? HEADER)%string
  | _ => false
  end.

(** A page on which every call completes. *)
Definition calm : Page :=
  {| reply := fun _ _ => Done true; firstSettles := fun _ => true;
     assistant := fun _ => NoContent |}.

(** A page on which neither verification signal ever shows, while every
    other call completes. *)
Definition stuck : Page :=
  {| reply := fun _ c =>
       if isVerification c then Thrown "Timeout 5000ms exceeded" else Done true;
     firstSettles := fun _ => true;
     assistant := fun _ => NoContent |}.

(** A page with no element at all: queries find nothing and visibility
    waits time out. *)
Definition bare : Page :=
  {| reply := fun _ c =>
       match c with
       | query _ => Done false
       | waitForSelector _ _ _ => Thrown "Timeout 20000ms exceeded"
       | _ => Done true
       end;
     firstSettles := fun _ => true;
     assistant := fun _ => NoContent |}.

(** Neither the results nor the no-results indicator becomes visible. *)
Definition neverVerifies (page : Page) : Prop :=
  forall tr c, isVerification c = true -> exists m, reply page tr c = Thrown m.

(** Every other call completes. *)
Definition otherwiseCompletes (page : Page) : Prop :=
  forall tr c, isVerification c = false -> exists v, reply page tr c = Done v.

Lemma bind_returned {A B} (m : Run A) (k : A -> Run B) page tr a tr' :
  m page tr = (Returned a, tr') -> bind m k page tr = k a page tr'.
Proof. unfold bind. by intros ->. Qed.

Lemma bind_raised {A B} (m : Run A) (k : A -> Run B) page tr message tr' :
  m page tr = (Raised message, tr') -> bind m k page tr = (Raised message, tr').
Proof. unfold bind. by intros ->. Qed.

Lemma bind_assoc {A B C} (m : Run A) (k1 : A -> Run B) (k2 : B -> Run C)
    page tr :
  bind (bind m k1) k2 page tr = bind m (fun x => bind (k1 x) k2) page tr.
Proof. unfold bind. by destruct (m page tr) as [[a|msg] tr']. Qed.

Lemma call_done page tr c v :
  reply page tr c = Done v -> call c page tr = (Returned v, (tr ++ [c])%list).
Proof. unfold call. by intros ->. Qed.

Lemma call_thrown page tr c m :
  reply page tr c = Thrown m -> call c page tr = (Raised m, (tr ++ [c])%list).
Proof. unfold call. by intros ->. Qed.

Lemma call_completes page tr c :
  otherwiseCompletes page -> isVerification c = false ->
  exists v, call c page tr = (Returned v, (tr ++ [c])%list).
Proof.
  intros Hcalm Hc. destruct (Hcalm tr c Hc) as [v Hv].
  exists v. by apply call_done.
Qed.

Lemma all2_completes page tr c1 c2 :
  otherwiseCompletes page ->
  isVerification c1 = false -> isVerification c2 = false ->
  all2 c1 c2 page tr = (Returned tt, (tr ++ [c1; c2])%list).
Proof.
  intros Hcalm H1 H2. unfold all2.
  destruct (Hcalm tr c1 H1) as [v1 ->].
  by destruct (Hcalm (tr ++ [c1])%list c2 H2) as [v2 ->].
Qed.

Lemma raceVisible_never page tr :
  neverVerifies page ->
  raceVisible page tr =
    (Returned false,
     (tr ++ [waitForSelector SAVE_TO_LIST None 5000;
             waitForSelector NO_RESULTS None 5000])%list).
Proof.
  intros Hstuck. unfold raceVisible, settles.
  destruct (Hstuck tr (waitForSelector SAVE_TO_LIST None 5000) eq_refl)
    as [m1 ->].
  destruct (Hstuck (tr ++ [waitForSelector SAVE_TO_LIST None 5000])%list
              (waitForSelector NO_RESULTS None 5000) eq_refl) as [m2 ->].
  rewrite <- app_assoc. cbn [app]. by destruct (firstSettles _ _).
Qed.

(** One step of a run: the next call completes, by [Hcalm]. *)
Ltac step_call Hcalm :=
  rewrite ?bind_assoc;
  match goal with
  | |- context [bind (call ?c) ?k ?p ?tr] =>
      let v := fresh "v" in
      let H := fresh "H" in
      destruct (call_completes p tr c Hcalm eq_refl) as [v H];
      rewrite (bind_returned (call c) k p tr v _ H); cbv beta
  end.

Ltac step_all2 Hcalm :=
  rewrite ?bind_assoc;
  match goal with
  | |- context [bind (all2 ?c1 ?c2) ?k ?p ?tr] =>
      rewrite (bind_returned (all2 c1 c2) k p tr tt _
                 (all2_completes p tr c1 c2 Hcalm eq_refl eq_refl)); cbv beta
  end.

Ltac step_race Hstuck :=
  rewrite ?bind_assoc;
  match goal with
  | |- context [bind raceVisible ?k ?p ?tr] =>
      rewrite (bind_returned raceVisible k p tr false _
                 (raceVisible_never p tr Hstuck)); cbv beta
  end.

(** The calls of the press-Enter search when both verifications fail. *)
Definition failedSearchTrace : list Call :=
  [ click HEADER true;
    waitForTimeout 1000;
    waitForSelector SEARCH (Some "visible") 20000;
    click SEARCH true;
    waitForTimeout 500;
    waitForLoadState "networkidle" (Some 20000%Z);
    press SEARCH "Enter";
    waitForSelector SAVE_TO_LIST None 5000;
    waitForSelector NO_RESULTS None 5000;
    click SEARCH true;
    waitForLoadState "networkidle" (Some 20000%Z);
    press SEARCH "Enter";
    waitForSelector SAVE_TO_LIST None 5000;
    waitForSelector NO_RESULTS None 5000;
    screenshot "error" ].

(** C3 (as amended).  For a press-Enter action on the search input, when
    neither the results nor the no-results indicator becomes visible and
    every other call completes, the executor presses Enter, verifies,
    retries once by clicking the input and pressing Enter again (the
    section header is not expanded a second time), verifies again and
    returns the failure "Search failed to show results after retry": two
    presses and one expansion in all. *)
Theorem press_enter_retries_once (page : Page) (a : Action) :
  selector a = Some SEARCH ->
  action a = Some "press" ->
  key a = Some "Enter" ->
  neverVerifies page ->
  otherwiseCompletes page ->
  executeAction a page [] =
    (Returned (failed "Search failed to show results after retry"),
     failedSearchTrace) /\
  length (filter isPress (executeAction a page []).2) = 2 /\
  length (filter isExpand (executeAction a page []).2) = 1.
Proof.
  intros Hsel Hact Hkey Hstuck Hcalm.
  assert (searchPressEnter SEARCH page [] =
    (Raised "Search failed to show results after retry",
     firstn 14 failedSearchTrace)) as Hsearch.
  { unfold searchPressEnter, networkidle_and_press.
    do 5 step_call Hcalm. step_all2 Hcalm. step_race Hstuck. cbn [negb].
    step_call Hcalm. step_all2 Hcalm. step_race Hstuck. cbn [negb].
    reflexivity. }
  assert (executeAction a page [] =
    (Returned (failed "Search failed to show results after retry"),
     failedSearchTrace)) as Hrun.
  { unfold executeAction.
    assert (normalize a = Returned (SEARCH, "press", a)) as ->.
    { unfold normalize. by rewrite Hsel, Hact. }
    cbv beta iota. rewrite Hkey.
    change ((SEARCH =? SEARCH)%string) with true.
    change (("press" =? "press")%string) with true.
    rewrite bool_decide_eq_true_2 by done. cbn [andb].
    unfold try_catch. rewrite Hsearch.
    unfold recover. step_call Hcalm. reflexivity. }
  rewrite Hrun. repeat split.
Qed.

Lemma press_enter_retries_once_witness :
  executeAction pressEnter stuck [] =
    (Returned (failed "Search failed to show results after retry"),
     failedSearchTrace) /\
  length (filter isPress (executeAction pressEnter stuck []).2) = 2 /\
  length (filter isExpand (executeAction pressEnter stuck []).2) = 1.
Proof.
  apply (press_enter_retries_once stuck pressEnter); try reflexivity.
  - intros tr c Hc. cbn. rewrite Hc. by eexists.
  - intros tr c Hc. cbn. rewrite Hc. by eexists.
Defined.

(** The claim as the specification words it: on such a failed search the
    whole expand, click, press cycle is run a second time, so that the
    header is expanded twice.  It does not hold. *)
Lemma press_enter_retry_not_full_cycle :
  ~ (forall (page : Page) (a : Action),
       selector a = Some SEARCH -> action a = Some "press" ->
       key a = Some "Enter" ->
       neverVerifies page -> otherwiseCompletes page ->
       length (filter isExpand (executeAction a page []).2) = 2).
Proof.
  intros H.
  specialize (H stuck pressEnter eq_refl eq_refl eq_refl).
  assert (neverVerifies stuck) as H1.
  { intros tr c Hc. cbn. rewrite Hc. by eexists. }
  assert (otherwiseCompletes stuck) as H2.
  { intros tr c Hc. cbn. rewrite Hc. by eexists. }
  specialize (H H1 H2). vm_compute in H. discriminate.
Qed.

(** *** Malformed actions *)

(** The guard of the normalisation block. *)
Definition malformed (a : Action) : bool :=
  negb (truthy_opt (selector a)) || negb (recognized (action a)).




(** The two safe defaults, as well-formed actions. *)
Definition clickHeader : Action := make "click" HEADER.







(** A page on which every call completes but no checkbox exists. *)
Definition plain : Page :=
  {| reply := fun _ c =>
       match c with
       | query _ => Done false
       | _ => Done true
       end;
     firstSettles := fun _ => true;
     assistant := fun _ => NoContent |}.

(** A malformed action that asks for a checkbox. *)
Definition toggleCheckbox : Action :=
  {| action := Some "toggle"; selector := None; value := None; key := None;
     duration := None; searchText := None; inputFields := None;
     search_query := None; type := Some "checkbox" |}.

(** An action whose [inputFields] is an object, not an array. *)
Definition fieldsObject : Action :=
  {| action := None; selector := None; value := None; key := None;
     duration := None; searchText := None;
     inputFields := Some (notArray true); search_query := None;
     type := None |}.






Example malformed_checkbox_fails :
  executeAction toggleCheckbox plain [] =
    (Returned (failed "No matching checkbox found"),
     [query ".search-businesses-header-checkbox"; query ".checkbox-square";
      query ".list-item-checkbox"]).
Proof. reflexivity. Qed.

(** *** Wait actions *)

Lemma normalize_wellformed a s k :
  selector a = Some s -> truthy s = true ->
  action a = Some k -> recognized (Some k) = true ->
  normalize a = Returned (s, k, a).
Proof.
  intros Hs Ht Hk Hr. unfold normalize. rewrite Hs, Hk. cbn [truthy_opt].
  by rewrite Ht, Hr.
Qed.

(** A wait for a spinner, with a duration. *)
Definition waitSpinner : Action :=
  {| action := Some "wait"; selector := Some "#spinner"; value := None;
     key := None; duration := Some "1500"; searchText := None;
     inputFields := None; search_query := None; type := None |}.

(** A wait without selector, as the example reply
    [{"action": "wait", "duration": "2000", ...}] of the assistant's
    instructions in index.js has it. *)
Definition waitOnly (duration : option string) : Action :=
  {| action := Some "wait"; selector := None; value := None; key := None;
     duration := duration; searchText := None; inputFields := None;
     search_query := None; type := None |}.

(** A page on which every call completes, apart from the wait for the
    search input, which fails because the input is hidden. *)
Definition collapsed : Page :=
  {| reply := fun _ c =>
       match c with
       | waitForSelector _ (Some _) _ =>
           Thrown "Timeout 20000ms exceeded: element is hidden"
       | _ => Done true
       end;
     firstSettles := fun _ => true;
     assistant := fun _ => NoContent |}.

Example parseInt_samples :
  parseInt "1500" = Some (integer 1500) /\
  parseInt "  12px" = Some (integer 12) /\
  parseInt "-0" = Some (integer 0) /\
  parseInt "soon" = None /\
  parseInt "0x10" = Some (integer 16) /\
  parseInt "99999999999999999999999"
    = Some (integer 99999999999999991611392).
Proof. repeat split. Qed.

(** A wait action with a non-empty selector that is not checkbox-like
    first waits, for 20 s at most, until the selector is visible.  If that
    succeeds it delays for [parseInt(duration)] milliseconds, 2000 when
    the duration is missing, not a number or zero, and returns success.
    If the selector does not become visible no delay is made: the outcome
    is a failure carrying the error message (after the diagnostic
    screenshot), unless the selector is the search input and the message
    mentions "hidden"; then the header and the input are clicked and the
    outcome is a success. *)
Lemma wait_with_selector (a : Action) (page : Page)
    (tr : list Call) (s : string) :
  action a = Some "wait" ->
  selector a = Some s -> truthy s = true ->
  checkboxLike a = false ->
  let shown := waitForSelector s (Some "visible") 20000 in
  (forall v1 v2,
     reply page tr shown = Done v1 ->
     reply page (tr ++ [shown])%list (waitForTimeout (delayOf a)) = Done v2 ->
     executeAction a page tr =
       (Returned succeeded, (tr ++ [shown; waitForTimeout (delayOf a)])%list)) /\
  (forall m v,
     reply page tr shown = Thrown m ->
     (s =? SEARCH)%string && includes m "hidden" = false ->
     reply page (tr ++ [shown])%list (screenshot "error") = Done v ->
     executeAction a page tr =
       (Returned (failed m), (tr ++ [shown; screenshot "error"])%list)) /\
  (forall m,
     reply page tr shown = Thrown m ->
     (s =? SEARCH)%string && includes m "hidden" = true ->
     (forall tr' c, isVerification c = false -> c <> shown ->
                    exists v, reply page tr' c = Done v) ->
     executeAction a page tr =
       (Returned succeeded,
        (tr ++ [shown; screenshot "error"; click HEADER true;
                waitForTimeout 1000; click s true; waitForTimeout 500])%list)) /\
  (duration a = None -> delayOf a = 2000%Z) /\
  (forall d, duration a = Some d -> parseInt d = None -> delayOf a = 2000%Z) /\
  (forall d, duration a = Some d -> parseInt d = Some (integer 0) ->
             delayOf a = 2000%Z) /\
  (forall d n, duration a = Some d -> parseInt d = Some n ->
               n <> integer 0 -> delayOf a = n).
Proof.
  intros Hk Hs Ht Hcb shown.
  assert (executeAction a page tr =
          try_catch (generic s "wait" a) (recover s "wait" a) page tr) as Hrun.
  { unfold executeAction. rewrite (normalize_wellformed a s "wait" Hs Ht Hk eq_refl).
    cbv beta iota. change (("wait" =? "press")%string) with false.
    change (("wait" =? "fill")%string) with false. cbn [andb].
    unfold afterSearch. rewrite Hcb. by destruct (s =? SEARCH)%string. }
  rewrite Hrun. unfold try_catch, generic. fold shown.
  change (("wait" =? "click")%string) with false.
  change (("wait" =? "fill")%string) with false.
  change (("wait" =? "press")%string) with false.
  change (("wait" =? "wait")%string) with true. cbv iota.
  split; [|split; [|split; [|split; [|split; [|split]]]]].
  - intros v1 v2 H1 H2.
    rewrite (bind_returned _ _ _ _ _ _ (call_done _ _ _ _ H1)).
    rewrite (bind_returned _ _ _ _ _ _ (call_done _ _ _ _ H2)).
    unfold ret. by rewrite <- app_assoc.
  - intros m v H1 Hhid H2.
    rewrite (bind_raised _ _ _ _ _ _ (call_thrown _ _ _ _ H1)).
    unfold recover.
    rewrite (bind_returned _ _ _ _ _ _ (call_done _ _ _ _ H2)).
    rewrite Hhid. unfold ret. by rewrite <- app_assoc.
  - intros m H1 Hhid Hrest.
    rewrite (bind_raised _ _ _ _ _ _ (call_thrown _ _ _ _ H1)).
    unfold recover. rewrite Hhid.
    change (("wait" =? "fill")%string) with false.
    change (("wait" =? "press")%string) with false. cbv iota.
    assert (forall tr' c, isVerification c = false -> c <> shown ->
              exists v, call c page tr' = (Returned v, (tr' ++ [c])%list))
      as Hcall.
    { intros tr' c Hv Hc. destruct (Hrest tr' c Hv Hc) as [v Hv'].
      exists v. by apply call_done. }
    destruct (Hcall (tr ++ [shown])%list (screenshot "error") eq_refl
                ltac:(done)) as [v0 H0].
    rewrite (bind_returned _ _ _ _ _ _ H0). unfold try_catch.
    rewrite ?bind_assoc.
    destruct (Hcall (tr ++ [shown] ++ [screenshot "error"])%list
                (click HEADER true) eq_refl ltac:(done)) as [v1 H1'].
    rewrite app_assoc in H1'. rewrite (bind_returned _ _ _ _ _ _ H1').
    destruct (Hcall ((tr ++ [shown]) ++ [screenshot "error"]
                       ++ [click HEADER true])%list
                (waitForTimeout 1000) eq_refl ltac:(done)) as [v2 H2'].
    rewrite !app_assoc in H2'. rewrite (bind_returned _ _ _ _ _ _ H2').
    destruct (Hcall ((((tr ++ [shown]) ++ [screenshot "error"])
                       ++ [click HEADER true]) ++ [waitForTimeout 1000])%list
                (click s true) eq_refl ltac:(done)) as [v3 H3'].
    rewrite (bind_returned _ _ _ _ _ _ H3').
    destruct (Hcall (((((tr ++ [shown]) ++ [screenshot "error"])
                        ++ [click HEADER true]) ++ [waitForTimeout 1000])
                       ++ [click s true])%list
                (waitForTimeout 500) eq_refl ltac:(done)) as [v4 H4'].
    rewrite (bind_returned _ _ _ _ _ _ H4').
    unfold bind, ret. by rewrite <- !app_assoc.
  - unfold delayOf. by intros ->.
  - unfold delayOf. by intros d -> ->.
  - unfold delayOf. by intros d -> ->.
  - unfold delayOf. intros d n -> -> Hn.
    destruct n as [[|z|z]|neg]; done.
Qed.

Example wait_with_selector_runs :
  executeAction waitSpinner calm [] =
    (Returned succeeded,
     [waitForSelector "#spinner" (Some "visible") 20000; waitForTimeout 1500]) /\
  executeAction waitSpinner bare [] =
    (Returned (failed "Timeout 20000ms exceeded"),
     [waitForSelector "#spinner" (Some "visible") 20000; screenshot "error"]) /\
  executeAction (make "wait" SEARCH) collapsed [] =
    (Returned succeeded,
     [waitForSelector SEARCH (Some "visible") 20000; screenshot "error";
      click HEADER true; waitForTimeout 1000; click SEARCH true;
      waitForTimeout 500]).
Proof. repeat split. Qed.

(** C7.  The wait without selector, which the assistant's instructions in
    index.js give as an example reply, is never run as a wait: whatever
    its duration and whatever the page, [executeAction] runs it exactly as
    the click on the search-section header.  On a page where every call
    completes it waits for the header, clicks it and pauses for 1000 ms,
    not for the duration asked for; on a page without the header it
    returns a failure. *)
Theorem wait_without_selector_clicks_header (duration : option string)
    (page : Page) (tr : list Call) :
  executeAction (waitOnly duration) page tr =
    executeAction clickHeader page tr /\
  executeAction (waitOnly (Some "2000")) calm [] =
    (Returned succeeded,
     [waitForSelector HEADER (Some "visible") 20000; click HEADER true;
      waitForTimeout 1000]) /\
  executeAction (waitOnly (Some "2000")) bare [] =
    (Returned (failed "Timeout 20000ms exceeded"),
     [waitForSelector HEADER (Some "visible") 20000; screenshot "error"]).
Proof. repeat split. Qed.

(** *** The loop ends; shape of the responses *)

(** Whenever [m] returns, its value satisfies [Q]. *)
Definition ensures {A} (m : Campaign A) (Q : A -> Prop) : Prop :=
  forall page st,
    match (m page st).1 with
    | Returned a => Q a
    | Raised _ => True
    end.

Lemma ensures_cret {A} (a : A) (Q : A -> Prop) : Q a -> ensures (cret a) Q.
Proof. by intros H page st. Qed.

Lemma ensures_cbind {A B} (m : Campaign A) (k : A -> Campaign B)
    (P : A -> Prop) (Q : B -> Prop) :
  ensures m P -> (forall a, P a -> ensures (k a) Q) -> ensures (cbind m k) Q.
Proof.
  intros Hm Hk page st. unfold cbind. specialize (Hm page st).
  destruct (m page st) as [[a|msg] st']; [|done].
  by apply Hk.
Qed.

Lemma ensures_any {A} (m : Campaign A) : ensures m (fun _ => True).
Proof. intros page st. by destruct (m page st).1. Qed.

Lemma ensures_after {A B} (m : Campaign A) (k : A -> Campaign B)
    (Q : B -> Prop) :
  (forall a, ensures (k a) Q) -> ensures (cbind m k) Q.
Proof.
  intros Hk. apply (ensures_cbind m k (fun _ => True)); [apply ensures_any|].
  intros a _. apply Hk.
Qed.

(** The quantity that decreases with every iteration. *)
Definition remaining (currentStep consecutiveFailures : nat) : nat :=
  5 * (20 - currentStep) + (5 - consecutiveFailures).

Lemma askAndExecute_decreases cs cf bound :
  cs < 20 -> cf < 4 -> remaining cs cf <= bound ->
  ensures (askAndExecute cs cf) (fun next => remaining next.1 next.2 < bound).
Proof.
  intros Hcs Hcf Hb. unfold askAndExecute, remaining in *.
  do 7 (apply ensures_after; intros _).
  apply ensures_after. intros [a|].
  - apply ensures_after; intros _.
    apply ensures_after; intros res.
    apply ensures_after; intros _.
    destruct (success res).
    + apply ensures_after; intros _. apply ensures_cret. cbn. lia.
    + apply ensures_cret. cbn. lia.
  - apply ensures_cret. cbn. lia.
Qed.

Lemma iteration_decreases cs cf :
  cs < 20 -> cf < 3 ->
  ensures (iteration cs cf)
    (fun next => remaining next.1 next.2 < remaining cs cf).
Proof.
  intros Hcs Hcf. unfold iteration.
  apply ensures_after. intros valid. destruct valid; cbn [negb].
  - apply ensures_after; intros _.
    destruct (cs =? 3)%nat.
    + do 2 (apply ensures_after; intros _).
      apply ensures_after. intros [|].
      * apply ensures_cret. unfold remaining. cbn. lia.
      * apply askAndExecute_decreases; [done|lia|unfold remaining; lia].
    + apply askAndExecute_decreases; [done|lia|done].
  - apply ensures_cret. unfold remaining. cbn. lia.
Qed.

(** Enough fuel: the loop never uses up its iterations. *)
Lemma mainLoop_enough fuel :
  forall cs cf,
    remaining cs cf <= fuel ->
    ensures (mainLoop fuel cs cf) (fun final => final <> None).
Proof.
  induction fuel as [|fuel IH]; intros cs cf Hfuel; cbn [mainLoop].
  - destruct ((cs <? 20)%nat && (cf <? 3)%nat) eqn:Hc.
    + apply andb_prop in Hc as [H1%Nat.ltb_lt H2%Nat.ltb_lt].
      unfold remaining in Hfuel. lia.
    + by apply ensures_cret.
  - destruct ((cs <? 20)%nat && (cf <? 3)%nat) eqn:Hc.
    + apply andb_prop in Hc as [H1%Nat.ltb_lt H2%Nat.ltb_lt].
      eapply ensures_cbind; [by apply iteration_decreases|].
      intros next Hnext. apply IH. cbv beta in Hnext. lia.
    + by apply ensures_cret.
Qed.

Lemma runLogin_steps actions :
  forall cs, ensures (runLogin actions cs) (fun final => final = cs + length actions).
Proof.
  induction actions as [|a rest IH]; intros cs; cbn [runLogin length].
  - apply ensures_cret. lia.
  - apply ensures_after; intros res.
    do 2 (apply ensures_after; intros _).
    intros page st. specialize (IH (S cs) page st).
    destruct (runLogin rest (S cs) page st).1; [lia|done].
Qed.

Lemma campaign_returns prompt url user password :
  ensures (campaign 100 prompt url user password) (fun r => r <> None).
Proof.
  unfold campaign.
  do 5 (apply ensures_after; intros _).
  eapply ensures_cbind; [apply runLogin_steps|]. intros cs ->.
  do 3 (apply ensures_after; intros _).
  eapply ensures_cbind.
  { apply mainLoop_enough. unfold remaining. cbn. lia. }
  intros [cf|] Hf; [|done].
  do 2 (apply ensures_after; intros _). by apply ensures_cret.
Qed.

(** A page on which the wait for network idle after the login fails. *)
Definition offline : Page :=
  {| reply := fun _ c =>
       match c with
       | waitForLoadState state None =>
           if (state =? "networkidle")%string
           then Thrown "Timeout 30000ms exceeded" else Done true
       | _ => Done true
       end;
     firstSettles := fun _ => true;
     assistant := fun _ => NoContent |}.

Definition sample_request : Request :=
  {| prompt := Some "make a list of pizza places";
     saasUrl := Some "app.example.com";
     saasUsername := Some "user@example.com";
     saasPassword := Some "secret" |}.

(** C9 (as amended).  The handler always answers.  A failure response is
    either the status 400 with the error "Missing required fields" or the
    status 500 with the fixed error "Error starting campaign"; in both
    cases it carries a single error message and no step log.  Only the
    success response carries the ordered step log, as [details]. *)
Theorem failure_response_has_no_step_log (req : Request) (page : Page) :
  exists resp st,
    runCampaign req page = Some (resp, st) /\
    ((res_success resp = false /\ details resp = None /\ message resp = None /\
      ((status resp = 400%Z /\ res_error resp = Some "Missing required fields" /\
        automationSteps st = []) \/
       (status resp = 500%Z /\ res_error resp = Some "Error starting campaign"))) \/
     (res_success resp = true /\ status resp = 200%Z /\ res_error resp = None /\
      details resp = Some (automationSteps st))).
Proof.
  unfold runCampaign.
  destruct (_ || _ || _ || _).
  - eexists _, _. split; [done|]. left. cbn. auto 10.
  - pose proof (campaign_returns (default EmptyString (prompt req))
                  (default EmptyString (saasUrl req))
                  (default EmptyString (saasUsername req))
                  (default EmptyString (saasPassword req)) page
                  {| trace := []; automationSteps := [] |}) as Hret.
    destruct (campaign 100 _ _ _ _ page _) as [[[u|]|msg] st]; cbn in Hret.
    + eexists _, _. split; [done|]. right. cbn. auto.
    + done.
    + eexists _, _. split; [done|]. left. cbn. auto 10.
Qed.

(** The claim as the specification words it: a failure response includes
    the accumulated step log.  When the wait after the login fails, three
    steps have been recorded and the response has none of them. *)
Lemma failure_response_omits_steps :
  ~ (forall (req : Request) (page : Page) resp st,
       runCampaign req page = Some (resp, st) ->
       res_success resp = false ->
       details resp = Some (automationSteps st)).
Proof.
  intros H.
  assert (exists resp st,
    runCampaign sample_request offline = Some (resp, st) /\
    res_success resp = false /\ details resp = None) as (resp & st & Hrun & Hs & Hd).
  { eexists _, _. split; [vm_compute; reflexivity|]. split; reflexivity. }
  specialize (H sample_request offline resp st Hrun Hs). congruence.
Qed.

Example failure_after_three_steps :
  exists resp st,
    runCampaign sample_request offline = Some (resp, st) /\
    status resp = 500%Z /\ details resp = None /\
    length (automationSteps st) = 3.
Proof.
  eexists _, _. split; [vm_compute; reflexivity|].
  split; [reflexivity|]. split; reflexivity.
Qed.

(** *** What every run of [executeAction] has in common *)

Lemma or_default_truthy o d : truthy d = true -> truthy (or_default o d) = true.
Proof.
  intros Hd. unfold or_default. destruct o as [s|]; [|done].
  by destruct (truthy s) eqn:E.
Qed.

(** X11.  The normalisation block.  Whatever the action object holds, when
    the block completes the executor goes on with a non-empty selector
    and with one of the kinds click, fill, press and wait, so the
    [default] branch of its [switch] ("Unknown action") is never taken;
    and an action object that the block changed has a non-empty [value]
    and is run as a fill of the search input.  The block fails to
    complete only in the look-up in [inputFields], with an empty
    [searchText]. *)
Theorem normalize_valid (a : Action) :
  match normalize a with
  | Returned (s, k, a') =>
      truthy s = true /\
      In k ["click"; "fill"; "press"; "wait"] /\
      (a' = a \/
       ((s, k) = (SEARCH, "fill") /\ truthy_opt (value a') = true)) /\
      forall page tr,
        match (generic s k a' page tr).1 with
        | Returned o => o = succeeded
        | Raised _ => True
        end
  | Raised _ =>
      malformed a = true /\ truthy_opt (searchText a) = false /\
      inputFields a <> None
  end.
Proof.
  assert (match normalize a with
          | Returned (s, k, a') =>
              truthy s = true /\
              In k ["click"; "fill"; "press"; "wait"] /\
              (a' = a \/
               ((s, k) = (SEARCH, "fill") /\ truthy_opt (value a') = true))
          | Raised _ =>
              malformed a = true /\ truthy_opt (searchText a) = false /\
              inputFields a <> None
          end) as H.
  { unfold normalize, malformed.
    destruct (negb (truthy_opt (selector a)) || negb (recognized (action a)))
      eqn:Hbad.
    - destruct (_ || _ || _).
      + destruct (truthy_opt (searchText a)) eqn:Ht.
        * split; [done|]. split; [cbn; tauto|]. right. split; [done|].
          by apply or_default_truthy.
        * unfold searchFieldValue.
          destruct (inputFields a) as [[fields|t]|].
          -- destruct (findSearch fields) as [found|message]; [|done].
             split; [done|]. split; [cbn; tauto|]. right. split; [done|].
             by apply or_default_truthy.
          -- done.
          -- split; [done|]. split; [cbn; tauto|]. right. split; [done|].
             by apply or_default_truthy.
      + split; [done|]. split; [cbn; tauto|]. by left.
    - apply orb_false_elim in Hbad as [H1%negb_false_iff H2%negb_false_iff].
      destruct (selector a) as [s|]; [|done].
      destruct (action a) as [k|]; [|done].
      cbn [default from_option id]. split; [done|]. split; [|by left].
      cbn in H2. repeat (apply orb_prop in H2 as [H2|H2]); try done;
        apply String.eqb_eq in H2 as <-; cbn; tauto. }
  destruct (normalize a) as [[[s k] a']|message]; [|done].
  destruct H as (Hs & Hk & Ha).
  split; [done|]. split; [done|]. split; [done|].
  intros page tr. unfold generic, bind, call.
  destruct (reply page tr _); [|done].
  destruct Hk as [<-|[<-|[<-|[<-|[]]]]]; cbn -[delayOf or_default];
    repeat match goal with
           | |- context [reply ?p ?t ?c] => destruct (reply p t c); [|done]
           end; done.
Qed.

(** The outcome objects the executor returns: [{ success: true }] or
    [{ success: false, error }]. *)
Definition wellFormed (o : Outcome) : Prop :=
  o = succeeded \/ exists m, o = failed m.

(** Whenever [m] returns, the outcome is one of the two. *)
Definition shaped (m : Run Outcome) : Prop :=
  forall page tr,
    match (m page tr).1 with
    | Returned o => wellFormed o
    | Raised _ => True
    end.

Lemma shaped_ret o : wellFormed o -> shaped (ret o).
Proof. by intros H page tr. Qed.

Lemma shaped_throw m : shaped (throw m).
Proof. by intros page tr. Qed.

Lemma shaped_bind {A} (m : Run A) (k : A -> Run Outcome) :
  (forall a, shaped (k a)) -> shaped (bind m k).
Proof.
  intros Hk page tr. unfold bind.
  destruct (m page tr) as [[a|msg] tr']; [apply Hk|done].
Qed.

Lemma shaped_try_catch (m : Run Outcome) (h : string -> Run Outcome) :
  shaped m -> (forall msg, shaped (h msg)) -> shaped (try_catch m h).
Proof.
  intros Hm Hh page tr. unfold try_catch. specialize (Hm page tr).
  destruct (m page tr) as [[o|msg] tr']; [done|apply Hh].
Qed.

Lemma wellFormed_succeeded : wellFormed succeeded.
Proof. by left. Qed.

Lemma wellFormed_failed m : wellFormed (failed m).
Proof. right. by exists m. Qed.

Ltac shaped_steps :=
  repeat first
    [ apply shaped_ret; first [apply wellFormed_succeeded | apply wellFormed_failed]
    | apply shaped_throw
    | apply shaped_bind; intros ?; cbv beta
    | apply shaped_try_catch; [|intros ?; cbv beta]
    | match goal with
      | |- shaped (if ?b then _ else _) => destruct b
      end ].

Lemma shaped_tryCheckboxes selectors : shaped (tryCheckboxes selectors).
Proof.
  induction selectors as [|s rest IH]; cbn [tryCheckboxes]; [shaped_steps|].
  apply shaped_bind. intros [|]; [shaped_steps|apply IH].
Qed.

Lemma shaped_afterSearch s k a : shaped (afterSearch s k a).
Proof.
  unfold afterSearch, checkboxes, generic.
  destruct (checkboxLike a); [|shaped_steps].
  apply shaped_try_catch; [apply shaped_tryCheckboxes|intros msg; shaped_steps].
Qed.

Lemma shaped_body s k a :
  shaped (if (s =? SEARCH)%string then
            if (k =? "press")%string && bool_decide (key a = Some "Enter")
            then searchPressEnter s
            else if (k =? "fill")%string then searchFill s a
            else afterSearch s k a
          else afterSearch s k a).
Proof.
  destruct (s =? SEARCH)%string; [|apply shaped_afterSearch].
  destruct (_ && _); [unfold searchPressEnter; shaped_steps|].
  destruct (k =? "fill")%string; [unfold searchFill; shaped_steps|].
  apply shaped_afterSearch.
Qed.

Lemma bind_call_cases {A} c (k : bool -> Run A) page tr :
  bind (call c) k page tr =
    match reply page tr c with
    | Done v => k v page (tr ++ [c])%list
    | Thrown m => (Raised m, (tr ++ [c])%list)
    end.
Proof. unfold bind, call. by destruct (reply page tr c). Qed.

(** [try { m } catch (e) { return { success: false, error: e.message } }]
    always returns. *)
Lemma settled_try_catch (m : Run Outcome) page tr :
  shaped m ->
  exists o tr',
    try_catch m (fun message => ret (failed message)) page tr = (Returned o, tr') /\
    wellFormed o.
Proof.
  intros Hm. unfold try_catch. specialize (Hm page tr).
  destruct (m page tr) as [[o|msg] tr'].
  - by exists o, tr'.
  - exists (failed msg), tr'. split; [done|apply wellFormed_failed].
Qed.

(** A page whose screenshots fail, as when the screenshots directory is
    missing, and where no element ever shows. *)
Definition readOnly : Page :=
  {| reply := fun _ c =>
       match c with
       | screenshot _ => Thrown "ENOENT: no such file or directory"
       | waitForSelector _ _ _ => Thrown "Timeout 20000ms exceeded"
       | _ => Done true
       end;
     firstSettles := fun _ => true;
     assistant := fun _ => NoContent |}.

(** X12.  What [executeAction] hands back.  A run either returns
    [{ success: true }] or [{ success: false, error }], or it throws.
    Two exceptions can leave it: the [TypeError] of the look-up in
    [inputFields], thrown by the normalisation block before the [try] and
    before any call to the page, and that of the diagnostic screenshot in
    its [catch] block, which is then its last call.  The last two parts
    show that both happen. *)
Theorem executeAction_outcome (a : Action) (page : Page) (tr : list Call) :
  match executeAction a page tr with
  | (Returned o, _) => wellFormed o
  | (Raised msg, tr') =>
      (normalize a = Raised msg /\ tr' = tr) \/
      (exists tr0,
         tr' = (tr0 ++ [screenshot "error"])%list /\
         reply page tr0 (screenshot "error") = Thrown msg)
  end /\
  executeAction (make "click" "#go") readOnly [] =
    (Raised "ENOENT: no such file or directory",
     [waitForSelector "#go" (Some "visible") 20000; screenshot "error"]) /\
  executeAction fieldsObject readOnly [] =
    (Raised "action.inputFields?.find is not a function", []).
Proof.
  split; [|split; reflexivity].
  unfold executeAction.
  destruct (normalize a) as [[[s k] a']|message]; [|by left].
  unfold try_catch.
  pose proof (shaped_body s k a' page tr) as Hbody.
  destruct (_ page tr) as [[o|msg] tr1]; [exact Hbody|].
  unfold recover. rewrite bind_call_cases.
  destruct (reply page tr1 (screenshot "error")) as [v|m] eqn:Hshot;
    [|right; by exists tr1].
  match goal with
  | |- context [if ?c then try_catch ?m ?h else _] =>
      destruct c; [|by apply wellFormed_failed];
      pose proof (settled_try_catch m page (tr1 ++ [screenshot "error"])%list
                    ltac:(shaped_steps)) as (o & tr2 & Hrun & Ho)
  end.
  cbv beta. by rewrite Hrun.
Qed.





(** *** The calls a run makes *)

(** A run only adds calls to those made before, and each call it adds
    satisfies [P]. *)
Definition adds {A} (P : Call -> bool) (m : Run A) : Prop :=
  forall page tr,
    exists ext, (m page tr).2 = (tr ++ ext)%list /\ forallb P ext = true.

Lemma adds_ret {A} P (a : A) : adds P (ret a).
Proof. intros page tr. exists []. by rewrite app_nil_r. Qed.

Lemma adds_throw {A} P m : adds P (@throw A m).
Proof. intros page tr. exists []. by rewrite app_nil_r. Qed.

Lemma adds_call P c : P c = true -> adds P (call c).
Proof.
  intros Hc page tr. exists [c]. unfold call.
  destruct (reply page tr c); cbn; by rewrite Hc.
Qed.

Lemma adds_settles P c : P c = true -> adds P (settles c).
Proof.
  intros Hc page tr. exists [c]. unfold settles.
  destruct (reply page tr c); cbn; by rewrite Hc.
Qed.

Lemma adds_quiet P c : P c = true -> adds P (quiet c).
Proof. intros Hc page tr. exists [c]. cbn. by rewrite Hc. Qed.

Lemma adds_all2 P c1 c2 : P c1 = true -> P c2 = true -> adds P (all2 c1 c2).
Proof.
  intros H1 H2 page tr. exists [c1; c2]. unfold all2.
  destruct (reply page tr c1), (reply page (tr ++ [c1])%list c2);
    cbn; by rewrite H1, H2.
Qed.

Lemma adds_bind {A B} P (m : Run A) (k : A -> Run B) :
  adds P m -> (forall a, adds P (k a)) -> adds P (bind m k).
Proof.
  intros Hm Hk page tr. unfold bind.
  destruct (Hm page tr) as (ext & Hext & HP).
  destruct (m page tr) as [[a|msg] tr1]; cbn [snd] in Hext; subst tr1.
  - destruct (Hk a page (tr ++ ext)%list) as (ext' & Hext' & HP').
    exists (ext ++ ext')%list. rewrite Hext', app_assoc. split; [done|].
    rewrite forallb_app. by rewrite HP, HP'.
  - by exists ext.
Qed.

Lemma adds_try_catch {A} P (m : Run A) (h : string -> Run A) :
  adds P m -> (forall msg, adds P (h msg)) -> adds P (try_catch m h).
Proof.
  intros Hm Hh page tr. unfold try_catch.
  destruct (Hm page tr) as (ext & Hext & HP).
  destruct (m page tr) as [[a|msg] tr1]; cbn [snd] in Hext; subst tr1.
  - by exists ext.
  - destruct (Hh msg page (tr ++ ext)%list) as (ext' & Hext' & HP').
    exists (ext ++ ext')%list. rewrite Hext', app_assoc. split; [done|].
    rewrite forallb_app. by rewrite HP, HP'.
Qed.

Lemma adds_raceVisible P :
  P (waitForSelector SAVE_TO_LIST None 5000) = true ->
  P (waitForSelector NO_RESULTS None 5000) = true ->
  adds P raceVisible.
Proof.
  intros H1 H2 page tr.
  exists [waitForSelector SAVE_TO_LIST None 5000;
          waitForSelector NO_RESULTS None 5000].
  unfold raceVisible, settles.
  destruct (reply page tr _), (reply page (tr ++ _)%list _);
    cbn [snd forallb]; rewrite <- app_assoc, H1, H2; done.
Qed.

Lemma adds_askAssistant P :
  P (external "getAssistantResponse") = true -> adds P askAssistant.
Proof.
  intros H page tr. exists [external "getAssistantResponse"].
  unfold askAssistant. destruct (assistant page tr); cbn; by rewrite H.
Qed.

Lemma adds_weaken {A} (P Q : Call -> bool) (m : Run A) :
  (forall c, P c = true -> Q c = true) -> adds P m -> adds Q m.
Proof.
  intros HPQ Hm page tr. destruct (Hm page tr) as (ext & Hext & HP).
  exists ext. split; [done|].
  apply forallb_forall. intros c Hc. apply HPQ.
  by apply (proj1 (forallb_forall P ext) HP).
Qed.

Ltac adds_steps :=
  repeat first
    [ apply adds_ret
    | apply adds_throw
    | apply adds_call; reflexivity
    | apply adds_settles; reflexivity
    | apply adds_quiet; reflexivity
    | apply adds_all2; reflexivity
    | apply adds_raceVisible; reflexivity
    | apply adds_askAssistant; reflexivity
    | apply adds_bind; [|intros ?; cbv beta]
    | apply adds_try_catch; [|intros ?; cbv beta]
    | match goal with
      | |- adds _ (if ?b then _ else _) => destruct b
      end ].

(** The calls found in [executeAction]: forced clicks; the waits for a
    selector to be visible (20 s) and the two verification waits (5 s);
    the wait for network idle (20 s); queries and forced clicks of the
    three check-box selectors; the diagnostic screenshot; fills, presses,
    visibility checks and delays. *)
Definition ownCall (c : Call) : bool :=
  match c with
  | click _ force => force
  | waitForSelector s state timeout =>
      (bool_decide (state = Some "visible") && (timeout =? 20000)%Z)
      || (bool_decide (state = None) && (timeout =? 5000)%Z
          && ((s =? SAVE_TO_LIST)%string || (s =? NO_RESULTS)%string))
  | waitForLoadState state timeout =>
      (state =? "networkidle")%string && bool_decide (timeout = Some 20000%Z)
  | query s | elementClick s true =>
      existsb (String.eqb s)
        [".search-businesses-header-checkbox"; ".checkbox-square";
         ".list-item-checkbox"]
  | elementClick _ false => false
  | screenshot name => (name =? "error")%string
  | goto _ | external _ => false
  | waitForTimeout _ | fill _ _ | press _ _ | isVisible _ => true
  end.

Lemma adds_body P s k a :
  (forall c, ownCall c = true -> P c = true) ->
  adds P (if (s =? SEARCH)%string then
            if (k =? "press")%string && bool_decide (key a = Some "Enter")
            then searchPressEnter s
            else if (k =? "fill")%string then searchFill s a
            else afterSearch s k a
          else afterSearch s k a).
Proof.
  intros HP. apply (adds_weaken ownCall P _ HP).
  assert (adds ownCall (afterSearch s k a)) as Hafter.
  { unfold afterSearch, checkboxes, generic. cbn [tryCheckboxes]. adds_steps. }
  destruct (s =? SEARCH)%string; [|done].
  destruct (_ && _).
  { unfold searchPressEnter, networkidle_and_press. adds_steps. }
  destruct (k =? "fill")%string; [|done].
  unfold searchFill. adds_steps.
Qed.

Lemma adds_executeAction P a :
  (forall c, ownCall c = true -> P c = true) -> adds P (executeAction a).
Proof.
  intros HP. unfold executeAction.
  destruct (normalize a) as [[[s k] a']|message]; [|apply adds_throw].
  apply adds_try_catch; [by apply adds_body|].
  intros msg. apply (adds_weaken ownCall P _ HP).
  unfold recover, networkidle_and_press. adds_steps.
Qed.

(** A run that makes at least one call. *)
Definition calls {A} (m : Run A) : Prop :=
  forall page tr, length tr < length (m page tr).2.

Lemma adds_length {A} P (m : Run A) page tr :
  adds P m -> length tr <= length (m page tr).2.
Proof.
  intros Hm. destruct (Hm page tr) as (ext & -> & _).
  rewrite length_app. lia.
Qed.

Lemma calls_bind {B} P (c : Call) (k : bool -> Run B) :
  (forall a, adds P (k a)) -> calls (bind (call c) k).
Proof.
  intros Hk page tr. rewrite bind_call_cases.
  destruct (reply page tr c) as [v|m].
  - pose proof (adds_length P (k v) page (tr ++ [c])%list (Hk v)) as H.
    rewrite length_app in H. cbn in H. lia.
  - cbn [snd]. rewrite length_app. cbn. lia.
Qed.

Lemma calls_try_catch {A} P (m : Run A) (h : string -> Run A) :
  calls m -> (forall msg, adds P (h msg)) -> calls (try_catch m h).
Proof.
  intros Hm Hh page tr. unfold try_catch. specialize (Hm page tr).
  destruct (m page tr) as [[a|msg] tr1]; [done|].
  pose proof (adds_length P (h msg) page tr1 (Hh msg)). cbn [snd] in Hm. lia.
Qed.

Lemma calls_executeAction a s k a' :
  normalize a = Returned (s, k, a') -> calls (executeAction a).
Proof.
  intros Hn. unfold executeAction. rewrite Hn.
  apply (calls_try_catch ownCall).
  - assert (calls (afterSearch s k a')) as Hafter.
    { unfold afterSearch, checkboxes, generic. cbn [tryCheckboxes].
      destruct (checkboxLike a').
      - apply (calls_try_catch ownCall); [|intros msg; adds_steps].
        apply (calls_bind ownCall). intros v. adds_steps.
      - apply (calls_bind ownCall). intros v. adds_steps. }
    destruct (s =? SEARCH)%string; [|done].
    destruct (_ && _).
    { unfold searchPressEnter, networkidle_and_press.
      apply (calls_bind ownCall). intros v. adds_steps. }
    destruct (k =? "fill")%string; [|done].
    unfold searchFill. apply (calls_bind ownCall). intros v. adds_steps.
  - intros msg. unfold recover, networkidle_and_press. adds_steps.
Qed.

(** X14.  The calls of [executeAction].  Whatever the action and the page,
    a run keeps the calls made before it.  When the normalisation block
    completes, the run makes at least one call and adds only calls of its
    own vocabulary: every click is forced, also those on a queried check
    box; it never navigates and never reaches a collaborator outside the
    page; it queries nothing but the three check-box selectors; every
    wait for a selector is a 20 s wait for visibility or one of the two
    5 s verification waits.  When the block throws, the run makes no
    call at all. *)
Theorem executeAction_calls (a : Action) (page : Page) (tr : list Call) :
  match normalize a with
  | Returned _ =>
      exists c ext,
        (executeAction a page tr).2 = (tr ++ c :: ext)%list /\
        forallb ownCall (c :: ext) = true
  | Raised message => executeAction a page tr = (Raised message, tr)
  end.
Proof.
  destruct (normalize a) as [[[s k] a']|message] eqn:Hn.
  - destruct (adds_executeAction ownCall a (fun c H => H) page tr)
      as (ext & Hext & HP).
    destruct ext as [|c ext]; [|by exists c, ext].
    pose proof (calls_executeAction a s k a' Hn page tr) as Hlen.
    rewrite Hext, app_nil_r in Hlen. lia.
  - unfold executeAction. by rewrite Hn.
Qed.

(** *** The step log *)

(** [m], started in a state that satisfies [P], ends in a state that
    satisfies [Q] when it returns and [R] when it throws. *)
Definition triple {A} (P : CampaignState -> Prop) (m : Campaign A)
    (Q : A -> CampaignState -> Prop) (R : CampaignState -> Prop) : Prop :=
  forall page st,
    P st ->
    match m page st with
    | (Returned a, st') => Q a st'
    | (Raised _, st') => R st'
    end.

Lemma triple_cret {A} (P : CampaignState -> Prop) (a : A) Q R :
  (forall st, P st -> Q a st) -> triple P (cret a) Q R.
Proof. intros H page st HP. by apply H. Qed.

Lemma triple_cthrow {A} (P : CampaignState -> Prop) msg
    (Q : A -> CampaignState -> Prop) (R : CampaignState -> Prop) :
  (forall st, P st -> R st) -> triple P (cthrow msg) Q R.
Proof. intros H page st HP. by apply H. Qed.

Lemma triple_cbind {A B} P (m : Campaign A) (k : A -> Campaign B) Q' Q R :
  triple P m Q' R -> (forall a, triple (Q' a) (k a) Q R) ->
  triple P (cbind m k) Q R.
Proof.
  intros Hm Hk page st HP. unfold cbind. specialize (Hm page st HP).
  destruct (m page st) as [[a|msg] st']; [by apply Hk|done].
Qed.

Lemma triple_weaken {A} (P P' : CampaignState -> Prop) (m : Campaign A)
    (Q Q' : A -> CampaignState -> Prop) (R R' : CampaignState -> Prop) :
  triple P m Q R ->
  (forall st, P' st -> P st) -> (forall a st, Q a st -> Q' a st) ->
  (forall st, R st -> R' st) ->
  triple P' m Q' R'.
Proof.
  intros Hm HP HQ HR page st H. specialize (Hm page st (HP st H)).
  destruct (m page st) as [[a|msg] st']; auto.
Qed.

(** A computation on the page leaves the step log alone. *)
Lemma triple_lift_log {A} (m : Run A) (I : list AutomationStep -> Prop)
    (Q : A -> CampaignState -> Prop) (R : CampaignState -> Prop) :
  (forall a st, I (automationSteps st) -> Q a st) ->
  (forall st, I (automationSteps st) -> R st) ->
  triple (fun st => I (automationSteps st)) (lift m) Q R.
Proof.
  intros HQ HR page st HI. unfold lift.
  destruct (m page (trace st)) as [[a|msg] tr]; [by apply HQ|by apply HR].
Qed.

Lemma triple_push entry (I I' : list AutomationStep -> Prop)
    (R : CampaignState -> Prop) :
  (forall log, I log -> I' (log ++ [entry])%list) ->
  triple (fun st => I (automationSteps st)) (push entry)
    (fun _ st => I' (automationSteps st)) R.
Proof. intros H page st HI. by apply H. Qed.

(** The step numbers of the log never decrease, and the number of a step
    that succeeded is not used again. *)
Definition ordered (log : list AutomationStep) : Prop :=
  forall i j e1 e2,
    i < j -> log !! i = Some e1 -> log !! j = Some e2 ->
    step e1 <= step e2 /\ (success (result e1) = true -> step e1 < step e2).

(** The first three entries are the three login actions, numbered from 0. *)
Definition startsWithLogin (user password : string)
    (log : list AutomationStep) : Prop :=
  forall i e,
    i < 3 -> log !! i = Some e ->
    step e = i /\ loginSteps user password !! i = Some (step_action e).

(** What holds of the log at every moment of a request. *)
Definition orderly (user password : string) (log : list AutomationStep) : Prop :=
  ordered log /\ Forall (fun e => step e < 20) log /\
  startsWithLogin user password log.

(** With [currentStep] at [cs]: no entry is numbered above [cs], and the
    entries numbered [cs] failed. *)
Definition upto (cs : nat) (log : list AutomationStep) : Prop :=
  Forall (fun e => step e <= cs /\ (success (result e) = true -> step e < cs)) log.

Lemma upto_S cs log : upto cs log -> upto (S cs) log.
Proof.
  intros H. eapply Forall_impl; [exact H|]. intros e [H1 H2]. split; [lia|].
  intros Hs. specialize (H2 Hs). lia.
Qed.

Lemma ordered_push cs log e :
  ordered log -> upto cs log -> step e = cs -> ordered (log ++ [e]).
Proof.
  intros Hord Hup He i j e1 e2 Hij H1 H2.
  destruct (decide (j < length log)) as [Hj|Hj].
  - rewrite lookup_app_l in H1 by lia. rewrite lookup_app_l in H2 by lia.
    by apply (Hord i j).
  - assert (j = length log) as ->.
    { apply lookup_lt_Some in H2. rewrite length_app in H2. cbn in H2. lia. }
    rewrite lookup_app_l in H1 by lia.
    rewrite lookup_app_r, Nat.sub_diag in H2 by lia. injection H2 as <-.
    apply (proj1 (Forall_lookup _ _) Hup) in H1 as [Hle Hlt]. rewrite He.
    split; [done|]. exact Hlt.
Qed.

Lemma upto_push cs cs' log e :
  upto cs log -> step e = cs ->
  (cs' = S cs \/ (cs' = cs /\ success (result e) = false)) ->
  upto cs' (log ++ [e]).
Proof.
  intros Hup He Hcs'. apply Forall_app. split.
  - destruct Hcs' as [->|[-> _]]; [by apply upto_S|done].
  - apply Forall_singleton. destruct Hcs' as [->|[-> Hf]]; [lia|].
    split; [lia|]. by rewrite Hf.
Qed.

Lemma startsWithLogin_push u p log e :
  startsWithLogin u p log ->
  (3 <= length log \/
   (step e = length log /\ loginSteps u p !! length log = Some (step_action e))) ->
  startsWithLogin u p (log ++ [e]).
Proof.
  intros HL He i e' Hi Hlook.
  destruct (decide (i < length log)) as [Hlt|Hge].
  - rewrite lookup_app_l in Hlook by done. by apply HL.
  - assert (i = length log) as ->.
    { apply lookup_lt_Some in Hlook. rewrite length_app in Hlook.
      cbn in Hlook. lia. }
    rewrite lookup_app_r, Nat.sub_diag in Hlook by lia. injection Hlook as <-.
    destruct He as [He|He]; [lia|done].
Qed.

(** The invariant of the main loop. *)
Definition looping (u p : string) (cs : nat) (log : list AutomationStep) : Prop :=
  orderly u p log /\ upto cs log /\ 3 <= length log.

Lemma looping_S u p cs log : looping u p cs log -> looping u p (S cs) log.
Proof. intros (H1 & H2 & H3). split; [done|]. split; [by apply upto_S|done]. Qed.

Lemma looping_push u p cs cs' log e :
  looping u p cs log -> cs < 20 -> step e = cs ->
  (cs' = S cs \/ (cs' = cs /\ success (result e) = false)) ->
  looping u p cs' (log ++ [e]).
Proof.
  intros ((Hord & Hlt & HL) & Hup & Hlen) Hcs He Hcs'.
  split; [split; [|split]|split].
  - by apply (ordered_push cs).
  - apply Forall_app. split; [done|]. apply Forall_singleton. lia.
  - apply startsWithLogin_push; [done|by left].
  - by apply (upto_push cs).
  - rewrite length_app. lia.
Qed.

(** The next computation on the page, whose result is not used. *)
Ltac skip_result := let x := fresh "x" in intros x; cbv beta; clear x.

Ltac bind_log I :=
  eapply triple_cbind;
    [apply (triple_lift_log _ I);
       [intros ? ? H; exact H|intros ? H; first [exact H|apply H]]|].

Ltac lift_log I := bind_log I; skip_result.

Lemma askAndExecute_log u p cs cf :
  cs < 20 ->
  triple (fun st => looping u p cs (automationSteps st))
    (askAndExecute cs cf)
    (fun next st => looping u p next.1 (automationSteps st))
    (fun st => orderly u p (automationSteps st)).
Proof.
  intros Hcs. unfold askAndExecute.
  do 7 lift_log (looping u p cs).
  bind_log (looping u p cs).
  intros [act|]; [|by apply triple_cret].
  lift_log (looping u p cs).
  bind_log (looping u p cs). intros res.
  set (e := {| step := cs; step_action := normalized act; result := res |}).
  destruct (success res) eqn:Hres.
  - eapply triple_cbind.
    { apply (triple_push e (looping u p cs) (looping u p (S cs))).
      intros log H. apply (looping_push u p cs); [done|done|done|by left]. }
    skip_result. lift_log (looping u p (S cs)). by apply triple_cret.
  - eapply triple_cbind.
    { apply (triple_push e (looping u p cs) (looping u p cs)).
      intros log H. apply (looping_push u p cs); [done|done|done|by right]. }
    skip_result. by apply triple_cret.
Qed.

Lemma iteration_log u p cs cf :
  cs < 20 ->
  triple (fun st => looping u p cs (automationSteps st))
    (iteration cs cf)
    (fun next st => looping u p next.1 (automationSteps st))
    (fun st => orderly u p (automationSteps st)).
Proof.
  intros Hcs. unfold iteration.
  bind_log (looping u p cs).
  intros [|]; cbn [negb]; [|by apply triple_cret].
  lift_log (looping u p cs).
  destruct (cs =? 3)%nat; [|by apply askAndExecute_log].
  do 2 lift_log (looping u p cs).
  bind_log (looping u p cs).
  intros [|]; [|by apply askAndExecute_log].
  apply triple_cret. intros st H. by apply looping_S.
Qed.

Lemma mainLoop_log u p fuel :
  forall cs cf,
    triple (fun st => looping u p cs (automationSteps st))
      (mainLoop fuel cs cf)
      (fun _ st => orderly u p (automationSteps st) /\ 3 <= length (automationSteps st))
      (fun st => orderly u p (automationSteps st)).
Proof.
  induction fuel as [|fuel IH]; intros cs cf; cbn [mainLoop];
    (destruct ((cs <? 20)%nat && (cf <? 3)%nat) eqn:Hc;
       [|apply triple_cret; intros st (H1 & _ & H3); done]).
  - apply triple_cret. intros st (H1 & _ & H3). done.
  - apply andb_prop in Hc as [Hcs%Nat.ltb_lt _].
    eapply triple_cbind; [by apply iteration_log|].
    intros next. apply IH.
Qed.

Lemma loginSteps_wellformed u p i a :
  loginSteps u p !! i = Some a -> normalized a = a.
Proof.
  destruct i as [|[|[|i]]]; cbn; intros [= <-]; reflexivity.
Qed.

Lemma runLogin_log u p actions :
  forall cs,
    cs <= 3 -> drop cs (loginSteps u p) = actions ->
    triple (fun st => orderly u p (automationSteps st) /\
                      upto cs (automationSteps st) /\
                      length (automationSteps st) = cs)
      (runLogin actions cs)
      (fun final st => final = 3 /\ looping u p 3 (automationSteps st))
      (fun st => orderly u p (automationSteps st)).
Proof.
  induction actions as [|a rest IH]; intros cs Hle Hdrop; cbn [runLogin].
  - apply triple_cret. intros st (H1 & H2 & H3).
    assert (3 <= cs) as Hcs.
    { destruct (decide (3 <= cs)); [done|].
      apply (f_equal length) in Hdrop. rewrite length_drop in Hdrop.
      cbn in Hdrop. lia. }
    assert (cs = 3) as -> by lia.
    split; [done|]. split; [done|]. split; [done|lia].
  - assert (loginSteps u p !! cs = Some a) as Ha.
    { rewrite <- (Nat.add_0_r cs), <- lookup_drop, Hdrop. done. }
    assert (cs < 3) as Hcs.
    { apply lookup_lt_Some in Ha. cbn in Ha. lia. }
    set (I := fun log => orderly u p log /\ upto cs log /\ length log = cs).
    bind_log I. intros res.
    set (e := {| step := cs; step_action := normalized a; result := res |}).
    set (I' := fun log =>
                 orderly u p log /\ upto (S cs) log /\ length log = S cs).
    eapply triple_cbind.
    { apply (triple_push e I I').
      intros log ((Hord & Hlt & HL) & Hup & Hlen). unfold I'.
      split; [split; [|split]|split].
      - by apply (ordered_push cs).
      - apply Forall_app. split; [done|]. apply Forall_singleton. cbn. lia.
      - apply startsWithLogin_push; [done|]. right. rewrite Hlen.
        split; [done|]. cbn [step_action e].
        by rewrite (loginSteps_wellformed u p cs a Ha).
      - apply (upto_push cs); [done|done|by left].
      - rewrite length_app. cbn. lia. }
    skip_result. lift_log I'. apply IH; [lia|].
    rewrite <- (Nat.add_1_r cs), <- drop_drop. by rewrite Hdrop.
Qed.

Lemma orderly_nil u p : orderly u p [].
Proof.
  split; [|split].
  - intros i j e1 e2 _ H. done.
  - constructor.
  - intros i e _ H. done.
Qed.

Lemma triple_pure {A} (phi : Prop) (P : CampaignState -> Prop)
    (m : Campaign A) Q R :
  (phi -> triple P m Q R) -> triple (fun st => phi /\ P st) m Q R.
Proof. intros H page st [Hphi HP]. by apply H. Qed.

Lemma campaign_log fuel prompt url u p :
  triple (fun st => automationSteps st = [])
    (campaign fuel prompt url u p)
    (fun r st => orderly u p (automationSteps st) /\ 3 <= length (automationSteps st))
    (fun st => orderly u p (automationSteps st)).
Proof.
  unfold campaign.
  set (I := fun log => orderly u p log /\ upto 0 log /\ length log = 0).
  eapply triple_weaken with (P := fun st => I (automationSteps st));
    [|intros st ->; split; [apply orderly_nil|split; [constructor|done]]
     |intros a st H; exact H|intros st H; exact H].
  do 5 lift_log I.
  eapply triple_cbind;
    [apply (runLogin_log u p (loginSteps u p) 0); [lia|reflexivity]|].
  intros cs. apply triple_pure. intros ->.
  do 3 lift_log (looping u p 3).
  set (J := fun log => orderly u p log /\ 3 <= length log).
  eapply triple_cbind; [apply (mainLoop_log u p fuel 3 0)|].
  intros [cf|]; cbv beta; [|by apply triple_cret].
  lift_log J.
  eapply triple_cbind with (Q' := fun _ st => J (automationSteps st));
    [|intros x; by apply triple_cret].
  destruct (3 <=? cf)%nat; [|by apply triple_cret].
  bind_log J.
  intros [|]; cbn [negb]; [by apply triple_cret|].
  apply triple_cthrow. intros st H. apply H.
Qed.

(** X15.  The step log.  At whatever iteration the main loop of a request
    is cut off, and so in the state a request that is answered ends in,
    the step log is in order: the step numbers never decrease, the number
    of a step that succeeded is not used again, every number is below 20,
    and the first three entries are the three login actions, numbered 0,
    1 and 2.  Unless the [try] block threw, the log has at least these
    three.  Nothing is said on whether the request is answered: that
    depends on the polling of [getAssistantResponse]. *)
Theorem step_log_ordered (fuel : nat) (prompt saasUrl user password : string)
    (page : Page) :
  let start := {| trace := []; automationSteps := [] |} in
  let finish := campaign fuel prompt saasUrl user password page start in
  orderly user password (automationSteps finish.2) /\
  match finish.1 with
  | Returned _ => 3 <= length (automationSteps finish.2)
  | Raised _ => True
  end.
Proof.
  cbv zeta.
  pose proof (campaign_log fuel prompt saasUrl user password page
                {| trace := []; automationSteps := [] |} eq_refl) as Hlog.
  destruct (campaign fuel _ _ _ _ page _) as [[r|msg] st]; cbn [fst snd].
  - exact Hlog.
  - split; [exact Hlog|done].
Qed.

(** *** The rounds of the main loop *)

(** The query of the search input, which opens every round of the main
    loop (in [validatePageState]) and is made nowhere else. *)
Definition isRound (c : Call) : bool :=
  match c with
  | query s => (s =? SEARCH)%string
  | _ => false
  end.

Definition rounds (tr : list Call) : nat := length (List.filter isRound tr).

Definition aside (c : Call) : bool := negb (isRound c).

Lemma rounds_app tr ext : rounds (tr ++ ext) = rounds tr + rounds ext.
Proof. unfold rounds. by rewrite List.filter_app, length_app. Qed.

Lemma rounds_aside ext : forallb aside ext = true -> rounds ext = 0.
Proof.
  unfold rounds, aside. induction ext as [|c ext IH]; [done|].
  cbn. destruct (isRound c); [done|]. exact IH.
Qed.

Lemma adds_rounds {A} (m : Run A) page tr :
  adds aside m -> rounds (m page tr).2 = rounds tr.
Proof.
  intros Hm. destruct (Hm page tr) as (ext & -> & Hext).
  rewrite rounds_app, (rounds_aside ext Hext). lia.
Qed.

Lemma ownCall_aside c : ownCall c = true -> aside c = true.
Proof.
  destruct c as [| | | | | | |s|s []| | |]; try done.
  cbn. intros H. repeat (apply orb_prop in H as [H|H]); try done;
    apply String.eqb_eq in H as ->; reflexivity.
Qed.

Lemma rounds_snoc tr c :
  rounds (tr ++ [c]) = rounds tr + (if isRound c then 1 else 0).
Proof. rewrite rounds_app. unfold rounds. cbn. by destruct (isRound c). Qed.

Lemma validatePageState_round page tr :
  exists valid tr',
    validatePageState page tr = (Returned valid, tr') /\
    rounds tr' = S (rounds tr).
Proof.
  assert (isRound (query SEARCH) = true) as Hq by reflexivity.
  unfold validatePageState, try_catch. rewrite bind_call_cases.
  destruct (reply page tr (query SEARCH)) as [[|]|m]; cbn [negb].
  - eexists _, _. split; [reflexivity|]. rewrite rounds_snoc, Hq. lia.
  - unfold bind, call, ret.
    destruct (reply page _ (click SEARCH_LINK false));
      [destruct (reply page _ (waitForTimeout 2000))|];
      (eexists _, _; split; [reflexivity|]);
      rewrite !rounds_snoc, Hq; cbn [isRound]; lia.
  - eexists _, _. split; [reflexivity|]. rewrite rounds_snoc, Hq. lia.
Qed.

(** A computation on the page that does not open a round. *)
Lemma triple_lift_aside {A} (m : Run A) (n : nat)
    (Q : A -> CampaignState -> Prop) (R : CampaignState -> Prop) :
  adds aside m ->
  (forall a st, rounds (trace st) = n -> Q a st) ->
  (forall st, rounds (trace st) = n -> R st) ->
  triple (fun st => rounds (trace st) = n) (lift m) Q R.
Proof.
  intros Hm HQ HR page st Hn. unfold lift.
  pose proof (adds_rounds m page (trace st) Hm) as Hr.
  destruct (m page (trace st)) as [[a|msg] tr]; cbn [snd] in Hr;
    [apply HQ|apply HR]; cbn [trace]; congruence.
Qed.

Ltac aside_steps :=
  first [ apply adds_executeAction; exact ownCall_aside
        | unfold automateResquared, expandSearch; adds_steps ].

Ltac lift_aside :=
  eapply triple_cbind;
    [apply triple_lift_aside;
       [aside_steps
       |intros ? ? H; exact H
       |intros ? H; first [exact H|cbv beta; lia]]|];
    skip_result.

(** What is left of the loop at [currentStep] and [consecutiveFailures]. *)
Definition budget (currentStep consecutiveFailures : nat) : nat :=
  3 * (20 - currentStep) - consecutiveFailures.

Lemma askAndExecute_rounds cs cf n (R : CampaignState -> Prop) :
  (forall st, rounds (trace st) = n -> R st) ->
  triple (fun st => rounds (trace st) = n)
    (askAndExecute cs cf)
    (fun next st => rounds (trace st) = n /\
                    (next = (cs, S cf) \/ next = (S cs, 0)))
    R.
Proof.
  intros HR. unfold askAndExecute.
  do 7 (eapply triple_cbind;
          [apply triple_lift_aside;
             [adds_steps|intros ? ? H; exact H|exact HR]|];
        skip_result).
  eapply triple_cbind;
    [apply triple_lift_aside;
       [adds_steps|intros ? ? H; exact H|exact HR]|].
  intros [act|]; [|apply triple_cret; intros st H; split; [done|by left]].
  eapply triple_cbind;
    [apply triple_lift_aside; [adds_steps|intros ? ? H; exact H|exact HR]|].
  skip_result.
  eapply triple_cbind;
    [apply triple_lift_aside;
       [aside_steps|intros ? ? H; exact H|exact HR]|].
  intros res.
  eapply triple_cbind with (Q' := fun _ st => rounds (trace st) = n);
    [intros page st H; exact H|].
  skip_result. destruct (success res).
  - eapply triple_cbind;
      [apply triple_lift_aside; [adds_steps|intros ? ? H; exact H|exact HR]|].
    skip_result.
    apply triple_cret. intros st H. split; [done|by right].
  - apply triple_cret. intros st H. split; [done|by left].
Qed.

Lemma iteration_rounds cs cf n :
  cs < 20 -> cf < 3 ->
  triple (fun st => rounds (trace st) = n)
    (iteration cs cf)
    (fun next st => rounds (trace st) = S n /\
                    budget next.1 next.2 < budget cs cf)
    (fun st => rounds (trace st) = S n).
Proof.
  intros Hcs Hcf. unfold iteration.
  eapply triple_cbind with (Q' := fun _ st => rounds (trace st) = S n).
  { intros page st Hn. unfold lift.
    destruct (validatePageState_round page (trace st)) as (v & tr' & -> & Hr).
    cbn [trace]. lia. }
  intros [|]; cbn [negb].
  2:{ apply triple_cret. intros st H. split; [done|].
      unfold budget. cbn [fst snd]. lia. }
  lift_aside.
  assert (forall cf',
    cf <= cf' <= S cf -> (cs = 3 \/ cf' = cf) ->
    triple (fun st => rounds (trace st) = S n) (askAndExecute cs cf')
      (fun next st => rounds (trace st) = S n /\
                      budget next.1 next.2 < budget cs cf)
      (fun st => rounds (trace st) = S n)) as Hask.
  { intros cf' Hcf' Hcase.
    eapply triple_weaken;
      [apply (askAndExecute_rounds cs cf' (S n)
                (fun st => rounds (trace st) = S n)); by intros
      |by intros| |by intros].
    intros next st [Hr Hnext]. split; [done|].
    unfold budget. destruct Hnext as [->| ->]; cbn [fst snd]; lia. }
  destruct (cs =? 3)%nat eqn:E; [|apply Hask; [lia|by right]].
  apply Nat.eqb_eq in E.
  do 2 lift_aside.
  eapply triple_cbind;
    [apply triple_lift_aside;
       [aside_steps|intros ? ? H; exact H|by intros]|].
  intros [|]; [|apply Hask; [lia|by left]].
  apply triple_cret. intros st H. split; [done|].
  unfold budget. cbn [fst snd]. lia.
Qed.

Lemma triple_pure_r {A} (phi : Prop) (P : CampaignState -> Prop)
    (m : Campaign A) Q R :
  (phi -> triple P m Q R) -> triple (fun st => P st /\ phi) m Q R.
Proof. intros H page st [HP Hphi]. by apply H. Qed.

Lemma mainLoop_rounds fuel :
  forall cs cf n,
    n + budget cs cf <= 51 ->
    triple (fun st => rounds (trace st) = n)
      (mainLoop fuel cs cf)
      (fun _ st => rounds (trace st) <= 51)
      (fun st => rounds (trace st) <= 51).
Proof.
  induction fuel as [|fuel IH]; intros cs cf n Hn; cbn [mainLoop];
    (destruct ((cs <? 20)%nat && (cf <? 3)%nat) eqn:Hc;
       [|apply triple_cret; intros st H; lia]).
  - apply triple_cret. intros st H. lia.
  - apply andb_prop in Hc as [Hcs%Nat.ltb_lt Hcf%Nat.ltb_lt].
    assert (0 < budget cs cf) by (unfold budget; lia).
    eapply triple_cbind.
    { eapply triple_weaken;
        [by apply (iteration_rounds cs cf n)|by intros
        |intros next st H'; exact H'|intros st H'; cbv beta in H' |- *; lia]. }
    intros next. apply triple_pure_r. intros Hnext. apply IH. lia.
Qed.

Lemma runLogin_rounds actions n :
  forall cs,
    triple (fun st => rounds (trace st) = n)
      (runLogin actions cs)
      (fun final st => rounds (trace st) = n /\ final = cs + length actions)
      (fun st => rounds (trace st) = n).
Proof.
  induction actions as [|a rest IH]; intros cs; cbn [runLogin length].
  - apply triple_cret. intros st H. split; [done|lia].
  - eapply triple_cbind;
      [apply triple_lift_aside;
         [aside_steps|intros ? ? H; exact H|by intros]|].
    intros res.
    eapply triple_cbind with (Q' := fun _ st => rounds (trace st) = n);
      [intros page st H; exact H|].
    skip_result. lift_aside.
    eapply triple_weaken; [apply (IH (S cs))|by intros| |by intros].
    intros final st [H ->]. split; [done|lia].
Qed.

Lemma triple_lift_within {A} (m : Run A) (n : nat)
    (Q : A -> CampaignState -> Prop) (R : CampaignState -> Prop) :
  adds aside m ->
  (forall a st, rounds (trace st) <= n -> Q a st) ->
  (forall st, rounds (trace st) <= n -> R st) ->
  triple (fun st => rounds (trace st) <= n) (lift m) Q R.
Proof.
  intros Hm HQ HR page st Hn. unfold lift.
  pose proof (adds_rounds m page (trace st) Hm) as Hr.
  destruct (m page (trace st)) as [[a|msg] tr]; cbn [snd] in Hr;
    [apply HQ|apply HR]; cbn [trace]; lia.
Qed.

Lemma campaign_rounds fuel prompt url u p :
  triple (fun st => rounds (trace st) = 0)
    (campaign fuel prompt url u p)
    (fun _ st => rounds (trace st) <= 51)
    (fun st => rounds (trace st) <= 51).
Proof.
  unfold campaign.
  do 5 lift_aside.
  eapply triple_cbind.
  { eapply triple_weaken;
      [apply (runLogin_rounds (loginSteps u p) 0 0)|by intros
      |intros final st H; exact H|intros st H; cbv beta in H |- *; lia]. }
  intros cs. apply triple_pure_r. cbn [length loginSteps]. intros ->.
  do 3 lift_aside.
  eapply triple_cbind; [apply (mainLoop_rounds fuel 3 0 0); reflexivity|].
  intros [cf|]; [|by apply triple_cret].
  eapply triple_cbind;
    [apply (triple_lift_within _ 51);
       [adds_steps|intros ? ? H; exact H|by intros]|].
  skip_result.
  eapply triple_cbind with (Q' := fun _ st => rounds (trace st) <= 51);
    [|intros x; by apply triple_cret].
  destruct (3 <=? cf)%nat; [|by apply triple_cret].
  eapply triple_cbind;
    [apply (triple_lift_within _ 51);
       [aside_steps|intros ? ? H; exact H|by intros]|].
  intros [|]; cbn [negb]; [by apply triple_cret|by apply triple_cthrow].
Qed.

(** X16.  The rounds of the main loop.  Every round of the handler's loop
    starts with the query of the search input in [validatePageState],
    which nothing else in a request makes.  Whatever the page and the
    assistant answer, and however many iterations the loop is allowed, a
    request goes through at most 51 rounds: each round that does not end
    the request adds a step or a consecutive failure.  Nothing is said on
    whether a round ends: that depends on the polling of
    [getAssistantResponse]. *)
Theorem main_loop_rounds (fuel : nat) (prompt saasUrl user password : string)
    (page : Page) :
  let start := {| trace := []; automationSteps := [] |} in
  rounds (trace (campaign fuel prompt saasUrl user password page start).2) <= 51.
Proof.
  cbv zeta.
  pose proof (campaign_rounds fuel prompt saasUrl user password page
                {| trace := []; automationSteps := [] |} eq_refl) as Hrounds.
  by destruct (campaign fuel _ _ _ _ page _) as [[r|msg] st].
Qed.

(** *** Fills of the search input *)

(** A fill of the search input carries a non-empty value. *)
Definition valued (c : Call) : bool :=
  match c with
  | fill s v => negb (s =? SEARCH)%string || truthy v
  | _ => true
  end.

Ltac valued_steps :=
  repeat first
    [ apply adds_ret
    | apply adds_throw
    | apply adds_call; reflexivity
    | apply adds_all2; reflexivity
    | apply adds_raceVisible; reflexivity
    | apply adds_call; cbn [valued];
        first [ by rewrite or_default_truthy, ?orb_true_r
              | match goal with H : (_ =? SEARCH)%string = false |- _ =>
                  by rewrite H end ]
    | apply adds_bind; [|intros ?; cbv beta]
    | apply adds_try_catch; [|intros ?; cbv beta]
    | match goal with
      | |- adds _ (if ?b then _ else _) => destruct b
      end ].

(** X17.  The search input is never filled with nothing.  Whatever the
    action and the page, every fill of the search input that a run of
    [executeAction] makes, also in its retry, carries a non-empty value
    ("pizza" when the action has none); only inputs other than the search
    input can be filled with the empty string. *)
Theorem search_fill_never_empty (a : Action) (page : Page) (tr : list Call) :
  exists ext,
    (executeAction a page tr).2 = (tr ++ ext)%list /\
    forallb valued ext = true.
Proof.
  revert page tr. change (adds valued (executeAction a)).
  unfold executeAction.
  destruct (normalize a) as [[[s k] a']|message]; [|apply adds_throw].
  assert (adds valued checkboxes) as Hboxes.
  { unfold checkboxes. cbn [tryCheckboxes]. valued_steps. }
  apply adds_try_catch.
  - destruct (s =? SEARCH)%string eqn:Hs.
    + destruct (_ && _).
      { unfold searchPressEnter, networkidle_and_press. valued_steps. }
      destruct (k =? "fill")%string eqn:Hk.
      { unfold searchFill. valued_steps. }
      unfold afterSearch, generic. rewrite Hk.
      destruct (checkboxLike a'); [done|]. valued_steps.
    + unfold afterSearch, generic.
      destruct (checkboxLike a'); [done|]. valued_steps.
  - intros msg. unfold recover, networkidle_and_press. valued_steps.
Qed.

End ExecFacts.

(** ** Properties of the rewriting of the assistant's answer *)
Module AssistantFacts.
Import Js Assistant.

Lemma truthy_append_l s t : truthy s = true -> truthy (s +:+ t) = true.
Proof. by destruct s. Qed.


Fixpoint spaceless (s : string) : bool :=
  match s with
  | EmptyString => true
  | String c s' => negb (Ascii.eqb c " ") && spaceless s'
  end.

Lemma firstWord_app c rest :
  spaceless c = true -> firstWord (c +:+ " " +:+ rest) = c.
Proof.
  induction c as [|a c IH]; [done|]. cbn [spaceless].
  intros [Ha Hc]%andb_prop. change (String a c +:+ ?t) with (String a (c +:+ t)).
  cbn [firstWord]. apply negb_true_iff in Ha. rewrite Ha. by rewrite IH.
Qed.

(** An input described by its classes only. *)
Definition byClasses (classes : string) : ElementObj :=
  {| text := None; type := Some "text"; placeholder := None;
     classes := Some classes |}.

(** X19.  The class selector.  For a text input without text and placeholder
    the selector is [input.] followed by what stands before the first
    space of [classes]; when [classes] starts with a space this is the
    bare [input.], which is no selector. *)
Theorem guessSelector_first_class (e : ElementObj) (c rest : string) :
  truthy_opt (text e) = false -> truthy_opt (placeholder e) = false ->
  type e = Some "text" ->
  classes e = Some (c +:+ " " +:+ rest) -> spaceless c = true ->
  guessSelector (Some (Obj e)) = Some ("input." +:+ c).
Proof.
  intros Ht Hp Hty Hc Hs. unfold guessSelector.
  rewrite Ht, Hp, Hty, Hc. cbn [truthy_opt default].
  change (truthy "text") with true.
  assert (truthy (c +:+ " " +:+ rest) = true) as -> by by destruct c.
  cbn [andb]. rewrite bool_decide_eq_true_2 by done. unfold id.
  by rewrite firstWord_app.
Qed.

Lemma guessSelector_first_class_witness :
  guessSelector (Some (Obj (byClasses " btn primary"))) = Some "input.".
Proof.
  exact (guessSelector_first_class (byClasses " btn primary") EmptyString
           "btn primary" eq_refl eq_refl eq_refl eq_refl eq_refl).
Defined.










End AssistantFacts.

(** ** Properties of the recording parser *)
Module RecordingFacts.
Import Js Recording.

(** No character of [s] is a colon. *)
Fixpoint colonless (s : string) : bool :=
  match s with
  | EmptyString => true
  | String c s' => negb (Ascii.eqb c ":") && colonless s'
  end.

Lemma pretty_N_char_colonless x : Ascii.eqb (pretty_N_char x) ":" = false.
Proof. unfold pretty_N_char. by repeat case_match. Qed.

Lemma pretty_N_go_colonless x :
  forall s, colonless s = true -> colonless (pretty_N_go x s) = true.
Proof.
  induction (N.lt_wf_0 x) as [x _ IH]. intros s Hs.
  destruct (decide (0 < x)%N) as [Hx|Hx].
  - rewrite pretty_N_go_step by done. apply IH.
    + apply N.div_lt; lia.
    + cbn [colonless]. by rewrite pretty_N_char_colonless, Hs.
  - assert (x = 0%N) as -> by lia. by rewrite pretty_N_go_0.
Qed.

Lemma pretty_nat_colonless (n : nat) : colonless (pretty n) = true.
Proof.
  unfold pretty, pretty_nat, pretty, pretty_N.
  case_decide; [done|]. by apply pretty_N_go_colonless.
Qed.

(** A string without colon is determined by what follows up to the first
    colon. *)
Lemma colon_splits s1 s2 r1 r2 :
  colonless s1 = true -> colonless s2 = true ->
  s1 +:+ String ":" r1 = s2 +:+ String ":" r2 -> s1 = s2.
Proof.
  revert s2. induction s1 as [|a s1 IH]; intros [|b s2] H1 H2 Heq;
    cbn in *; try done.
  - injection Heq as <- _. done.
  - injection Heq as -> _. done.
  - injection Heq as -> Heq.
    apply andb_prop in H1 as [_ H1]. apply andb_prop in H2 as [_ H2].
    f_equal. by apply IH.
Qed.

Lemma description_index i j s t :
  description (parseStep i s) = description (parseStep j t) -> i = j.
Proof.
  cbn [description parseStep]. intros H.
  change ("Step " +:+ ?x) with
    (String "S" (String "t" (String "e" (String "p" (String " " x))))) in H.
  injection H as H.
  change (": " +:+ ?x) with (String ":" (String " " x)) in H.
  apply colon_splits in H; [|apply pretty_nat_colonless..].
  apply (inj pretty) in H. lia.
Qed.

(** X22.  The parsed steps.  [parseRecording] turns the steps of a recording
    object into as many entries, in their order: the entries are numbered
    from 0, no entry has an empty string as its value (it is [null]
    instead), a step without selectors gets the empty list, and no two
    entries have the same description.  A recording without steps gives
    no entry. *)
Theorem parseRecording_entries (recording : Recording) :
  let parsed := parseRecording recording in
  let given := default [] (steps recording) in
  map index parsed = seq 0 (length given) /\
  map p_type parsed = map type given /\
  map p_selectors parsed = map (fun s => default [] (selectors s)) given /\
  Forall (fun p => p_value p <> Some EmptyString) parsed /\
  NoDup (map description parsed).
Proof.
  unfold parseRecording. cbv zeta.
  generalize (default [] (steps recording)). intros given.
  split; [|split; [|split; [|split]]].
  - apply list_eq. intros i.
    rewrite list_lookup_fmap, list_lookup_imap.
    destruct (given !! i) as [s|] eqn:E; cbn.
    + apply lookup_lt_Some in E. by rewrite lookup_seq_lt.
    + apply lookup_ge_None in E. by rewrite lookup_seq_ge.
  - apply list_eq. intros i.
    rewrite !list_lookup_fmap, list_lookup_imap. by destruct (given !! i).
  - apply list_eq. intros i.
    rewrite !list_lookup_fmap, list_lookup_imap. by destruct (given !! i).
  - apply Forall_lookup. intros i p. rewrite list_lookup_imap.
    destruct (given !! i) as [s|]; [|done]. intros [= <-]. cbn.
    destruct (value s) as [[|c v]|]; done.
  - apply NoDup_alt. intros i j d.
    rewrite !list_lookup_fmap, !list_lookup_imap.
    destruct (given !! i) as [s|]; [|done].
    destruct (given !! j) as [t|]; [|done]. intros Hi Hj.
    change (Some (description (parseStep i s)) = Some d) in Hi.
    change (Some (description (parseStep j t)) = Some d) in Hj.
    apply (description_index i j s t). congruence.
Qed.

End RecordingFacts.

(** ** Properties of the executor of grok.js *)
Module GrokFacts.
Import Js GrokExec.
Import Exec (Outcome, succeeded, failed, Returned, Raised, Done, Thrown).
Open Scope grok_scope.

Lemma grok_bind_call_cases {A} c (k : bool -> Run A) page tr :
  bind (call c) k page tr =
    match page tr c with
    | Done v => k v page (tr ++ [c])%list
    | Thrown m => (Raised m, (tr ++ [c])%list)
    end.
Proof. unfold bind, call. by destruct (page tr c). Qed.

Lemma grok_bind_returned {A B} (m : Run A) (k : A -> Run B) page tr a tr' :
  m page tr = (Returned a, tr') -> bind m k page tr = k a page tr'.
Proof. unfold bind. by intros ->. Qed.

(** *** The loop over candidate selectors *)

Lemma firstThatWorks_returns {T} (act : T -> Call) selectors page tr :
  exists b tr', firstThatWorks act selectors page tr = (Returned b, tr').
Proof.
  revert tr. induction selectors as [|s rest IH]; intros tr; cbn [firstThatWorks].
  - by eexists _, _.
  - unfold try_catch. rewrite grok_bind_call_cases.
    destruct (page tr (act s)); [by eexists _, _|apply IH].
Qed.

(** The attempts before the [n]-th all throw. *)
Definition failsBefore {T} (act : T -> Call) (selectors : list T)
    (page : Page) (tr : list Call) (n : nat) : Prop :=
  forall i s,
    i < n -> selectors !! i = Some s ->
    exists m, page (tr ++ map act (take i selectors))%list (act s) = Thrown m.

Lemma failsBefore_tail {T} (act : T -> Call) s rest page tr n :
  failsBefore act (s :: rest) page tr (S n) ->
  failsBefore act rest page (tr ++ [act s])%list n.
Proof.
  intros H i s' Hi Hs'. destruct (H (S i) s' ltac:(lia) Hs') as [m Hm].
  exists m. rewrite <- Hm. cbn [take map]. by rewrite <- app_assoc.
Qed.

Lemma firstThatWorks_hit {T} (act : T -> Call) selectors :
  forall page tr n s v,
    selectors !! n = Some s ->
    failsBefore act selectors page tr n ->
    page (tr ++ map act (take n selectors))%list (act s) = Done v ->
    firstThatWorks act selectors page tr =
      (Returned true, (tr ++ map act (take (S n) selectors))%list).
Proof.
  induction selectors as [|s0 rest IH]; intros page tr n s v Hs Hfail Hok;
    [done|].
  cbn [firstThatWorks]. unfold try_catch. rewrite grok_bind_call_cases.
  destruct n as [|n].
  - injection Hs as ->. cbn [take map] in Hok. rewrite app_nil_r in Hok.
    rewrite Hok. cbn [take map]. by rewrite take_0.
  - destruct (Hfail 0 s0 ltac:(lia) eq_refl) as [m Hm].
    cbn [take map] in Hm. rewrite app_nil_r in Hm. rewrite Hm.
    rewrite (IH page (tr ++ [act s0])%list n s v Hs).
    + cbn [take map]. by rewrite <- app_assoc.
    + by apply failsBefore_tail.
    + rewrite <- Hok. cbn [take map]. by rewrite <- app_assoc.
Qed.

Lemma firstThatWorks_miss {T} (act : T -> Call) selectors :
  forall page tr,
    failsBefore act selectors page tr (length selectors) ->
    firstThatWorks act selectors page tr =
      (Returned false, (tr ++ map act selectors)%list).
Proof.
  induction selectors as [|s0 rest IH]; intros page tr Hfail.
  - cbn. by rewrite app_nil_r.
  - cbn [firstThatWorks]. unfold try_catch. rewrite grok_bind_call_cases.
    destruct (Hfail 0 s0 ltac:(cbn; lia) eq_refl) as [m Hm].
    cbn [take map] in Hm. rewrite app_nil_r in Hm. rewrite Hm.
    rewrite IH; [|by apply failsBefore_tail].
    cbn [map]. by rewrite <- app_assoc.
Qed.


(** *** The outcome *)

Definition grok_shaped (m : Run Outcome) : Prop :=
  forall page tr,
    match (m page tr).1 with
    | Returned o => ExecFacts.wellFormed o
    | Raised _ => True
    end.

Lemma grok_shaped_ret o : ExecFacts.wellFormed o -> grok_shaped (ret o).
Proof. by intros H page tr. Qed.

Lemma grok_shaped_bind {A} (m : Run A) (k : A -> Run Outcome) :
  (forall a, grok_shaped (k a)) -> grok_shaped (bind m k).
Proof.
  intros Hk page tr. unfold bind.
  destruct (m page tr) as [[a|msg] tr']; [apply Hk|done].
Qed.

Lemma grok_shaped_try_catch (m : Run Outcome) (h : string -> Run Outcome) :
  grok_shaped m -> (forall msg, grok_shaped (h msg)) -> grok_shaped (try_catch m h).
Proof.
  intros Hm Hh page tr. unfold try_catch. specialize (Hm page tr).
  destruct (m page tr) as [[o|msg] tr']; [done|apply Hh].
Qed.

Ltac grok_shaped_steps :=
  repeat first
    [ apply grok_shaped_ret; first [by left | right; by eexists]
    | apply grok_shaped_bind; intros ?; cbv beta
    | apply grok_shaped_try_catch; [|intros ?; cbv beta]
    | match goal with
      | |- grok_shaped (if ?b then _ else _) => destruct b
      end ].

(** X23.  The executor of grok.js never throws.  Whatever the action (also
    none at all) and whatever the page does, [executeAction] of grok.js
    returns [{ success: true }] or [{ success: false, error }]: every
    exception, also that of a missing property, ends in its outer
    [catch]. *)
Theorem grok_executeAction_never_throws (a : option Action) (page : Page)
    (tr : list Call) :
  exists o tr',
    executeAction a page tr = (Returned o, tr') /\ ExecFacts.wellFormed o.
Proof.
  assert (grok_shaped (executeAction a)) as H.
  { unfold executeAction. apply grok_shaped_try_catch; [|intros m; grok_shaped_steps].
    destruct a as [a|]; [|grok_shaped_steps].
    unfold clickCase, fillCase, pressCase. grok_shaped_steps. }
  specialize (H page tr).
  assert (exists o tr', executeAction a page tr = (Returned o, tr'))
    as (o & tr' & Hrun).
  { unfold executeAction, try_catch.
    match goal with
    | |- context [match ?m page tr with _ => _ end] =>
        destruct (m page tr) as [[o|msg] tr']
    end; by eexists _, _. }
  rewrite Hrun in H. by exists o, tr'.
Qed.

(** X24.  Kinds unknown to grok.js.  An action whose kind is none of click,
    fill and press is refused without any call to the page.  This holds
    of every wait action, and so of the action that [safeJsonParse] of
    grok.js returns for an answer that is no JSON. *)
Theorem grok_unknown_kind (a : Action) (k : string) (page : Page)
    (tr : list Call) :
  action a = Some k -> truthy k = true ->
  ~ In k ["click"; "fill"; "press"] ->
  executeAction (Some a) page tr =
    (Returned (failed ("Unknown action type: " +:+ k)), tr).
Proof.
  intros Ha Hk Hnot. unfold executeAction, try_catch. rewrite Ha.
  cbn [truthy_opt default negb]. rewrite Hk. cbn [negb]. unfold id.
  destruct (k =? "click")%string eqn:E1;
    [apply String.eqb_eq in E1; exfalso; apply Hnot; cbn; auto|].
  destruct (k =? "fill")%string eqn:E2;
    [apply String.eqb_eq in E2; exfalso; apply Hnot; cbn; auto|].
  destruct (k =? "press")%string eqn:E3;
    [apply String.eqb_eq in E3; exfalso; apply Hnot; cbn; auto|].
  reflexivity.
Qed.

Lemma grok_unknown_kind_witness :
  executeAction (Some parseFailure) (fun _ _ => Done true) [] =
    (Returned (failed "Unknown action type: wait"), []).
Proof.
  apply (grok_unknown_kind parseFailure "wait"); [reflexivity|reflexivity|].
  cbn. intros [H|[H|[H|[]]]]; discriminate.
Defined.


(** *** Clicks *)

Lemma executeAction_click a :
  action a = Some "click" ->
  executeAction (Some a) =
    try_catch (clickCase a) (fun message => ret (failed message)).
Proof. intros Ha. unfold executeAction. by rewrite Ha. Qed.

(** A click with a selector and no description. *)
Definition bareClick : Action :=
  {| action := Some "click"; selector := Some "#submit"; value := None;
     key := None; description := None |}.

(** X25.  A click needs a description.  A click action without selector, or
    whose selector does not mention "Email" and which has no description,
    fails on reading the missing property: the outcome is a failure with
    the message of the [TypeError], and the page is not touched. *)
Theorem grok_click_needs_description (a : Action) (page : Page)
    (tr : list Call) :
  action a = Some "click" ->
  selector a = None \/
  (description a = None /\
   exists s, selector a = Some s /\ includes s "Email" = false) ->
  executeAction (Some a) page tr =
    (Returned (failed (undefinedHas "includes")), tr).
Proof.
  intros Ha Hmiss. rewrite (executeAction_click a Ha).
  unfold try_catch, clickCase, bind, mentionsEmail.
  destruct Hmiss as [->|[Hd (s & -> & ->)]]; [done|]. by rewrite Hd.
Qed.

Lemma grok_click_needs_description_witness :
  executeAction (Some bareClick) (fun _ _ => Done true) [] =
    (Returned
       (failed "Cannot read properties of undefined (reading 'includes')"),
     []).
Proof.
  apply (grok_click_needs_description bareClick); [reflexivity|].
  right. split; [reflexivity|]. exists "#submit". split; reflexivity.
Defined.

(** The selector and the description do not mention "Email". *)
Definition plainClick (a : Action) (s : string) : Prop :=
  action a = Some "click" /\ selector a = Some s /\
  includes s "Email" = false /\
  exists d, description a = Some d /\ includes d "Email" = false.

Lemma clickCase_plain a s page tr :
  plainClick a s ->
  clickCase a page tr =
    (clicked <- firstThatWorks click (clickSelectors s) ;;
     if clicked then ret succeeded else
     clickedByText <- call (evaluate "clickByText" (Some s)) ;;
     if clickedByText then ret succeeded
     else ret (failed ("Failed to click with any selector for: " +:+ s)))
      page tr.
Proof.
  intros (Ha & Hs & He & d & Hd & Hde).
  unfold clickCase, mentionsEmail. rewrite Hs, He, Hd, Hde. reflexivity.
Qed.

(** A page on which only a quoted text selector can be clicked. *)
Definition quotedTextOnly : Page := fun _ c =>
  match c with
  | click s =>
      if startsWith s ("text=" +:+ String "034" EmptyString)
      then Done true else Thrown "Timeout 30000ms exceeded"
  | _ => Done false
  end.

Definition saveClick : Action :=
  {| action := Some "click"; selector := Some "Save to List"; value := None;
     key := None; description := Some "Save the selection" |}.

(** X26.  The click candidates.  For a click whose selector and description
    do not mention "Email", the eight candidate selectors are clicked in
    their order, each attempt only after the one before it threw: the
    run succeeds with the first click that completes and clicks nothing
    after it.  When all eight throw, the page script that clicks by text
    decides: its [true] is a success, its [false] the failure "Failed to
    click with any selector for: ..." *)
Theorem grok_click_tries_in_order (a : Action) (s : string) (page : Page)
    (tr : list Call) :
  plainClick a s ->
  let attempts := clickSelectors s in
  let byText := evaluate "clickByText" (Some s) in
  (forall n c v,
     attempts !! n = Some c ->
     failsBefore click attempts page tr n ->
     page (tr ++ map click (take n attempts))%list (click c) = Done v ->
     executeAction (Some a) page tr =
       (Returned succeeded, (tr ++ map click (take (S n) attempts))%list)) /\
  (forall v,
     failsBefore click attempts page tr 8 ->
     page (tr ++ map click attempts)%list byText = Done v ->
     executeAction (Some a) page tr =
       (Returned (if v then succeeded
                  else failed ("Failed to click with any selector for: " +:+ s)),
        (tr ++ map click attempts ++ [byText])%list)).
Proof.
  intros Hplain attempts byText.
  rewrite (executeAction_click a (proj1 Hplain)). unfold try_catch.
  rewrite (clickCase_plain a s page tr Hplain). fold attempts. split.
  - intros n c v Hc Hfail Hok.
    by rewrite (grok_bind_returned _ _ _ _ _ _
                  (firstThatWorks_hit click attempts page tr n c v Hc Hfail Hok)).
  - intros v Hfail Hv.
    rewrite (grok_bind_returned _ _ _ _ _ _
               (firstThatWorks_miss click attempts page tr Hfail)).
    cbv beta iota. rewrite grok_bind_call_cases. fold byText. rewrite Hv.
    rewrite <- app_assoc. by destruct v.
Qed.

Lemma grok_click_tries_in_order_witness :
  executeAction (Some saveClick) quotedTextOnly [] =
    (Returned succeeded,
     [click "Save to List"; click "text=Save to List";
      click ("text=" +:+ Exec.quoted "Save to List")]).
Proof.
  refine (proj1 (grok_click_tries_in_order saveClick "Save to List"
                   quotedTextOnly [] _) 2 _ true eq_refl _ eq_refl).
  - split; [reflexivity|]. split; [reflexivity|]. split; [reflexivity|].
    exists "Save the selection". split; reflexivity.
  - intros [|[|i]] c Hi Hc; [| |lia]; injection Hc as <-; by eexists.
Defined.

(** X27.  The Email shortcut.  A click whose selector or description
    mentions "Email" first runs the page script that clicks an element
    with that text; when the script reports a click the run succeeds and
    the selector of the action is never clicked. *)
Theorem grok_click_email_shortcut (a : Action) (s : string) (page : Page)
    (tr : list Call) :
  action a = Some "click" -> selector a = Some s ->
  includes s "Email" = true \/
  (exists d, description a = Some d /\ includes d "Email" = true) ->
  page tr (evaluate "clickEmail" None) = Done true ->
  executeAction (Some a) page tr =
    (Returned succeeded, (tr ++ [evaluate "clickEmail" None])%list).
Proof.
  intros Ha Hs Hmail Hok. rewrite (executeAction_click a Ha).
  unfold try_catch, clickCase.
  assert (mentionsEmail a page tr = (Returned true, tr)) as Hm.
  { unfold mentionsEmail. rewrite Hs.
    destruct (includes s "Email"); [done|].
    destruct Hmail as [?|(d & -> & ->)]; done. }
  rewrite (grok_bind_returned _ _ _ _ _ _ Hm). cbv beta iota.
  rewrite grok_bind_call_cases, Hok. reflexivity.
Qed.

Lemma grok_click_email_shortcut_witness :
  executeAction
    (Some {| action := Some "click"; selector := Some ".filters";
             value := None; key := None;
             description := Some "Tick the Email filter" |})
    (fun _ _ => Done true) [] =
    (Returned succeeded, [evaluate "clickEmail" None]).
Proof.
  apply (grok_click_email_shortcut _ ".filters"); [reflexivity|reflexivity| |reflexivity].
  right. exists "Tick the Email filter". split; reflexivity.
Defined.


(** *** Fills *)

(** A page on which only the visible-input selector can be filled. *)
Definition visibleInputOnly : Page := fun _ c =>
  match c with
  | fill (Some "input:visible") _ => Done true
  | fill _ _ => Thrown "Timeout 30000ms exceeded"
  | _ => Done false
  end.

Definition fillQuery : Action :=
  {| action := Some "fill"; selector := Some "#query"; value := Some "pizza";
     key := None; description := None |}.

(** X28.  The fill candidates.  A fill tries its seven candidate selectors
    in their order, each with the value of the action and only after the
    one before it threw, and succeeds with the first fill that completes.
    The last three candidates are fixed selectors of text, search and
    visible inputs, so the value can end up in a field that the action's
    selector does not name.  When all seven throw, the page script that
    fills the first visible input decides. *)
Theorem grok_fill_tries_in_order (a : Action) (page : Page) (tr : list Call) :
  action a = Some "fill" ->
  let attempts := fillSelectors (selector a) in
  let act := fun s => fill s (value a) in
  let byJS := evaluate "fillByJS" (value a) in
  drop 4 attempts =
    [Some ("input[type=" +:+ Exec.quoted "text" +:+ "]");
     Some ("input[type=" +:+ Exec.quoted "search" +:+ "]");
     Some "input:visible"] /\
  (forall n c v,
     attempts !! n = Some c ->
     failsBefore act attempts page tr n ->
     page (tr ++ map act (take n attempts))%list (act c) = Done v ->
     executeAction (Some a) page tr =
       (Returned succeeded, (tr ++ map act (take (S n) attempts))%list)) /\
  (forall v,
     failsBefore act attempts page tr 7 ->
     page (tr ++ map act attempts)%list byJS = Done v ->
     executeAction (Some a) page tr =
       (Returned (if v then succeeded
                  else failed ("Failed to fill with any selector for: "
                               +:+ interpolated (selector a))),
        (tr ++ map act attempts ++ [byJS])%list)).
Proof.
  intros Ha attempts act byJS. split; [reflexivity|].
  assert (executeAction (Some a) =
          try_catch (fillCase a) (fun message => ret (failed message))) as ->.
  { unfold executeAction. by rewrite Ha. }
  unfold try_catch, fillCase. fold attempts act byJS. split.
  - intros n c v Hc Hfail Hok.
    by rewrite (grok_bind_returned _ _ _ _ _ _
                  (firstThatWorks_hit act attempts page tr n c v Hc Hfail Hok)).
  - intros v Hfail Hv.
    rewrite (grok_bind_returned _ _ _ _ _ _
               (firstThatWorks_miss act attempts page tr Hfail)).
    cbv beta iota. rewrite grok_bind_call_cases, Hv.
    rewrite <- app_assoc. by destruct v.
Qed.

Lemma grok_fill_tries_in_order_witness :
  exists tr,
    executeAction (Some fillQuery) visibleInputOnly [] =
      (Returned succeeded, tr) /\
    last tr = Some (fill (Some "input:visible") (Some "pizza")) /\
    length tr = 7.
Proof.
  eexists. split; [|split].
  - refine (proj1 (proj2 (grok_fill_tries_in_order fillQuery
                            visibleInputOnly [] eq_refl))
              6 _ true eq_refl _ eq_refl).
    intros [|[|[|[|[|[|i]]]]]] c Hi Hc; [..|lia];
      injection Hc as <-; by eexists.
  - reflexivity.
  - reflexivity.
Defined.

(** *** The search section *)

(** X29.  The click on the search section.  [clickResquaredSearch] never
    throws.  It clicks its five selectors in their order, each only after
    the one before it threw; it returns [true] with the first click that
    completes and clicks nothing after it, and [false] when all five
    threw. *)
Theorem clickResquaredSearch_first_hit (page : Page) (tr : list Call) :
  (exists b tr', clickResquaredSearch page tr = (Returned b, tr')) /\
  (forall n c v,
     searchSelectors !! n = Some c ->
     failsBefore click searchSelectors page tr n ->
     page (tr ++ map click (take n searchSelectors))%list (click c) = Done v ->
     clickResquaredSearch page tr =
       (Returned true, (tr ++ map click (take (S n) searchSelectors))%list)) /\
  (failsBefore click searchSelectors page tr 5 ->
   clickResquaredSearch page tr =
     (Returned false, (tr ++ map click searchSelectors)%list)).
Proof.
  unfold clickResquaredSearch, try_catch. split; [|split].
  - destruct (firstThatWorks_returns click searchSelectors page tr)
      as (b & tr' & ->). by exists b, tr'.
  - intros n c v Hc Hfail Hok.
    by rewrite (firstThatWorks_hit click searchSelectors page tr n c v Hc Hfail Hok).
  - intros Hfail.
    by rewrite (firstThatWorks_miss click searchSelectors page tr Hfail).
Qed.

(** A page on which only the header of the search section can be
    clicked. *)
Definition headerOnly : Page := fun _ c =>
  match c with
  | click s =>
      if (s =? Exec.HEADER)%string then Done true
      else Thrown "Timeout 30000ms exceeded"
  | _ => Done false
  end.

Lemma clickResquaredSearch_first_hit_witness :
  clickResquaredSearch headerOnly [] =
    (Returned true,
     [click ".search-tab-filter-list-item-inner"; click Exec.HEADER]).
Proof.
  refine (proj1 (proj2 (clickResquaredSearch_first_hit headerOnly []))
            1 _ true eq_refl _ eq_refl).
  intros [|i] c Hi Hc; [|lia]. injection Hc as <-. by eexists.
Defined.

(** *** The Email check box *)

Lemma tryCheckboxes_returns found selectors page tr :
  exists b tr', tryCheckboxes found selectors page tr = (Returned b, tr').
Proof.
  revert tr. induction selectors as [|s rest IH]; intros tr;
    cbn [tryCheckboxes]; [by eexists _, _|].
  unfold bind at 1, try_catch. rewrite grok_bind_call_cases.
  destruct (page tr (queryAll s)).
  - destruct (firstThatWorks_returns (elementClick s)
                (seq 0 (found (tr ++ [queryAll s])%list s)) page
                (tr ++ [queryAll s])%list) as ([|] & tr' & ->);
      [by eexists _, _|apply IH].
  - apply IH.
Qed.

(** No selector finds an element: every selector is queried, nothing is
    clicked. *)
Lemma tryCheckboxes_nothing found selectors page :
  (forall tr s, found tr s = 0) ->
  forall tr,
    tryCheckboxes found selectors page tr =
      (Returned false, (tr ++ map queryAll selectors)%list).
Proof.
  intros Hnone. induction selectors as [|s rest IH]; intros tr;
    cbn [tryCheckboxes map].
  - unfold ret. by rewrite app_nil_r.
  - unfold bind at 1, try_catch. rewrite grok_bind_call_cases.
    destruct (page tr (queryAll s)).
    + rewrite Hnone. cbn [seq firstThatWorks]. unfold ret.
      rewrite IH. by rewrite <- app_assoc.
    + unfold ret. rewrite IH. by rewrite <- app_assoc.
Qed.

(** X30.  The Email check box.  [clickEmailCheckbox] never throws.  On a
    page where none of its eight selectors finds an element it clicks
    nothing, runs its page script and, when the script completes, returns
    [true] all the same: its result does not tell whether a check box was
    clicked. *)
Theorem clickEmailCheckbox_true_without_click
    (found : list Call -> string -> nat) (page : Page) (tr : list Call) :
  (exists b tr', clickEmailCheckbox found page tr = (Returned b, tr')) /\
  ((forall tr' s, found tr' s = 0) ->
   let script := evaluate "clickAllEmail" None in
   let asked := (tr ++ map queryAll checkboxSelectors)%list in
   clickEmailCheckbox found page tr =
     (Returned (if page asked script is Done _ then true else false),
      (asked ++ [script])%list)).
Proof.
  unfold clickEmailCheckbox. split.
  - unfold try_catch at 1.
    match goal with
    | |- context [match ?m page tr with _ => _ end] =>
        destruct (m page tr) as [[b|msg] tr']
    end; by eexists _, _.
  - intros Hnone. cbv zeta. unfold try_catch at 1.
    rewrite (grok_bind_returned _ _ _ _ _ _
               (tryCheckboxes_nothing found checkboxSelectors page Hnone tr)).
    cbv beta iota. unfold try_catch.
    rewrite grok_bind_call_cases. by destruct (page _ _).
Qed.

Lemma clickEmailCheckbox_true_without_click_witness :
  exists tr,
    clickEmailCheckbox (fun _ _ => 0) (fun _ _ => Done false) [] =
      (Returned true, tr) /\
    length tr = 9 /\
    last tr = Some (evaluate "clickAllEmail" None).
Proof.
  eexists. split; [|split].
  - exact (proj2 (clickEmailCheckbox_true_without_click
                    (fun _ _ => 0) (fun _ _ => Done false) [])
             (fun _ _ => eq_refl)).
  - reflexivity.
  - reflexivity.
Defined.

End GrokFacts.
